(** * Upgrade planner: recommendation engine

    A shallow embedding of the decision logic of the upgrade planner
    back end: the class [LifecycleService] (upgrade and issue detection,
    health status, platform status, the lifecycle cache and the status
    requests), the class [OLMClient] (the mapping of the cluster's
    answers and the handling of rejected calls) and the class
    [UpgradePlannerService] (four path strategies, duration estimate,
    maintenance windows), together with a model of the parts of
    JavaScript and of the [semver] package they rely on.  The first part
    of the file is the embedding, function by function under the names
    of the source; the second part states and proves the properties.

    Conventions.
    - JavaScript strings are [string]; arrays are [list]; an optional
      field ([?:]) or a value that may be [null]/[undefined] is an
      [option].
    - JavaScript numbers that the code only uses as integers far below
      2^53 (step order, issue counters, days, milliseconds) are [Z];
      the minutes of the duration estimate, which are read from text,
      are doubles ([Js.Number]).
    - A computation that may throw returns a [result]; [Throw] carries
      the JavaScript error.
    - [Date] values are milliseconds since the epoch; the wall clock is
      an explicit argument [now].
    - The answer of a call to the cluster is an explicit argument: the
      body of the answer, or the rejection with its status code. *)

From Stdlib Require Import List String Ascii ZArith NArith Bool Lia.
From Stdlib Require Import DecimalString.
Import ListNotations.
Local Open Scope string_scope.
Local Open Scope list_scope.
Local Open Scope Z_scope.

(** ** Exceptions *)

Inductive JsError :=
| TypeError (message : string)
| Error (message : string).

Inductive result (A : Type) :=
| Ok (a : A)
| Throw (e : JsError).
Arguments Ok {A} a.
Arguments Throw {A} e.

Definition bind {A B} (r : result A) (k : A -> result B) : result B :=
  match r with
  | Ok a => k a
  | Throw e => Throw e
  end.

Notation "x <- r ;; k" := (bind r (fun x => k))
  (at level 61, r at next level, right associativity).

Definition returns {A} (r : result A) : Prop := exists a, r = Ok a.

(** ** JavaScript primitives *)

Module Js.

(** Truthiness of the values the code tests. *)
Definition truthy_string (s : string) : bool :=
  negb (String.eqb s "").

(** A number is falsy when it is [0] (or [NaN], which the integer
    model does not contain). *)
Definition truthy_opt_number (o : option Z) : bool :=
  match o with
  | Some n => negb (n =? 0)
  | None => false
  end.

(** [a || b] on an optional string and a string. *)
Definition or_string (a : option string) (b : string) : string :=
  match a with
  | Some s => if truthy_string s then s else b
  | None => b
  end.

(** Template-literal rendering of a value that may be [undefined]. *)
Definition template (o : option string) : string :=
  match o with
  | Some s => s
  | None => "undefined"
  end.

(** Template-literal rendering of an integer. *)
Definition number_to_string (n : Z) : string :=
  NilZero.string_of_int (Z.to_int n).

(** Character classes of regular expressions. *)
Definition is_digit (c : ascii) : bool :=
  let n := nat_of_ascii c in
  (48 <=? n)%nat && (n <=? 57)%nat.

(** [\s] restricted to the ASCII range: tab, line feed, vertical tab,
    form feed, carriage return and space. *)
Definition is_space (c : ascii) : bool :=
  let n := nat_of_ascii c in
  ((9 <=? n)%nat && (n <=? 13)%nat) || (n =? 32)%nat.

Definition digit_value (c : ascii) : Z :=
  Z.of_nat (nat_of_ascii c) - 48.

(** [String.prototype.includes]. *)
Fixpoint includes (s sub : string) : bool :=
  if String.prefix sub s then true
  else match s with
       | EmptyString => false
       | String _ s' => includes s' sub
       end.

(** *** Backtracking

    A regular-expression quantifier tries its alternatives in order;
    the first alternative under which the rest of the pattern matches
    wins. *)
Fixpoint first_match {A B} (alts : list A) (k : A -> option B) : option B :=
  match alts with
  | [] => None
  | a :: rest =>
      match k a with
      | Some b => Some b
      | None => first_match rest k
      end
  end.

(** The ways [\d+] can match at the head of [s], longest first
    (greedy), as pairs (matched text, remaining input). *)
Fixpoint digit_splits (s : string) : list (string * string) :=
  match s with
  | EmptyString => []
  | String c s' =>
      if is_digit c
      then map (fun pr => (String c (fst pr), snd pr)) (digit_splits s')
             ++ [(String c EmptyString, s')]
      else []
  end.

(** The ways [\s*] can match at the head of [s], longest first; only
    the remaining input is kept. *)
Fixpoint space_splits (s : string) : list string :=
  match s with
  | EmptyString => [EmptyString]
  | String c s' =>
      if is_space c then space_splits s' ++ [s] else [s]
  end.

(** The ways an optional literal character [c?] can match at the head
    of [s]: taken first when present, then skipped. *)
Definition optional_char (c : ascii) (s : string) : list string :=
  match s with
  | String c' s' => if Ascii.eqb c c' then [s'; s] else [s]
  | EmptyString => [s]
  end.

(** A literal at the head of [s]; the remaining input. *)
Fixpoint literal (lit s : string) : option string :=
  match lit, s with
  | EmptyString, _ => Some s
  | String a lit', String b s' =>
      if Ascii.eqb a b then literal lit' s' else None
  | String _ _, EmptyString => None
  end.

(** An unanchored pattern is tried at every start position, leftmost
    first. *)
Fixpoint search {B} (match_at : string -> option B) (s : string) : option B :=
  match match_at s with
  | Some b => Some b
  | None =>
      match s with
      | EmptyString => None
      | String _ s' => search match_at s'
      end
  end.

(** *** Numbers

    A JavaScript number is an IEEE 754 double.  The numbers the planner
    computes with when it adds up minutes are integers, [Infinity] or
    [NaN]; an integer-valued double is modelled by its value, and the
    rounding of each operation is written out.  Every integer up to
    2^53 is a double; above, a double has 53 significant bits.  The
    sign of zero, which no operation here can observe, is not kept. *)
Inductive Number :=
| Finite (n : Z)
| Infinity (negative : bool)
| NaN.

(** Rounding to the nearest of two neighbours, to the even one on a
    tie: [m] when twice the remainder [r2] is below the [unit], [m + 1]
    when it is above. *)
Definition nearest_even (m r2 unit : Z) : Z :=
  if r2 <? unit then m
  else if unit <? r2 then m + 1
  else if Z.even m then m else m + 1.

(** The double nearest to the integer [n]: [n] is cut to 53
    significant bits, and the result is infinite from 2^1024 on. *)
Definition double (n : Z) : Number :=
  let a := Z.abs n in
  if a <=? 2 ^ 53 then Finite n
  else
    let e := Z.log2 a - 52 in
    let m := nearest_even (a / 2 ^ e) (2 * (a mod 2 ^ e)) (2 ^ e) in
    if m * 2 ^ e <? 2 ^ 1024 then Finite (Z.sgn n * (m * 2 ^ e))
    else Infinity (n <? 0).

(** [a + b]: the sum of two doubles is the double nearest to the sum
    of their values. *)
Definition add (a b : Number) : Number :=
  match a, b with
  | Finite x, Finite y => double (x + y)
  | Infinity negative, Finite _ => Infinity negative
  | Finite _, Infinity negative => Infinity negative
  | Infinity negative, Infinity negative' =>
      if Bool.eqb negative negative' then Infinity negative else NaN
  | _, _ => NaN
  end.

(** [a < b]. *)
Definition lt (a b : Number) : bool :=
  match a, b with
  | Finite x, Finite y => x <? y
  | Finite _, Infinity negative => negb negative
  | Infinity negative, Finite _ => negative
  | Infinity negative, Infinity negative' => negative && negb negative'
  | _, _ => false
  end.

(** [Math.floor(x / d)] for an integer [x] and a positive integer [d]:
    the quotient is rounded to the nearest double, of 53 significant
    bits, before it is rounded down.  The quotient is [num / den]
    units of [2 ^ e], where [e] is chosen so that the number of units
    has 53 bits. *)
Definition floor_quotient (x d : Z) : Z :=
  let a := Z.abs x in
  if a =? 0 then 0
  else
    let e0 := Z.log2 a - Z.log2 d - 52 in
    let scaled e := if 0 <=? e then (a, d * 2 ^ e) else (a * 2 ^ (- e), d) in
    let e := if fst (scaled e0) / snd (scaled e0) <? 2 ^ 52 then e0 - 1 else e0 in
    let '(num, den) := scaled e in
    let m := nearest_even (num / den) (2 * (num mod den)) den in
    if 0 <=? e then Z.sgn x * (m * 2 ^ e) else (Z.sgn x * m) / 2 ^ (- e).

Definition floor_div (a : Number) (d : Z) : Number :=
  match a with
  | Finite x => Finite (floor_quotient x d)
  | Infinity negative => Infinity negative
  | NaN => NaN
  end.

(** [a % d] for a positive integer [d]: the remainder has the sign of
    [a] and is exact. *)
Definition rem (a : Number) (d : Z) : Number :=
  match a with
  | Finite x => Finite (Z.rem x d)
  | _ => NaN
  end.

(** The digits of a double from 2^53 on: the shortest decimal numeral
    [s * 10 ^ p] the double is the nearest double to, and among the
    numerals of that length the one nearest to the double, the even
    one on a tie.  A numeral of [k] digits is looked for with [n]
    digits before the decimal point, where [n] is the number of digits
    of the double or one more. *)
Definition decimal_length (a : Z) : Z :=
  Z.of_nat (String.length (number_to_string a)).

Definition candidates (a k n : Z) : list (Z * Z) :=
  let p := n - k in
  if p <? 0 then []
  else
    filter
      (fun sp =>
         let s := fst sp in
         (10 ^ (k - 1) <=? s) && (s <? 10 ^ k)
         && match double (s * 10 ^ p) with
            | Finite v => v =? a
            | _ => false
            end)
      [(a / 10 ^ p, p); (a / 10 ^ p + 1, p)].

Definition closer (a : Z) (x y : Z * Z) : Z * Z :=
  let dx := Z.abs (fst x * 10 ^ snd x - a) in
  let dy := Z.abs (fst y * 10 ^ snd y - a) in
  if dx <? dy then x
  else if dy <? dx then y
  else if Z.even (fst x) then x else y.

Fixpoint shortest_from (fuel : nat) (a k : Z) : Z * Z :=
  match fuel with
  | O => (a, 0)
  | S fuel' =>
      let n := decimal_length a in
      match candidates a k n ++ candidates a k (n + 1) with
      | [] => shortest_from fuel' a (k + 1)
      | c :: cs => fold_left (closer a) cs c
      end
  end.

(** Seventeen digits tell any two doubles apart. *)
Definition shortest (a : Z) : Z * Z := shortest_from 17 a 1.

Fixpoint zeros (n : nat) : string :=
  match n with
  | O => ""
  | S n' => "0" ++ zeros n'
  end.

(** The numeral of a non-negative integer-valued double: all its
    digits below 2^53, where every integer is a double; above, the
    shortest digits, filled up with zeros below 10^21 and in exponent
    notation from there on. *)
Definition digits (a : Z) : string :=
  if a <? 2 ^ 53 then number_to_string a
  else
    let '(s, p) := shortest a in
    let k := decimal_length s in
    let n := k + p in
    if n <=? 21 then number_to_string s ++ zeros (Z.to_nat p)
    else
      match number_to_string s with
      | String c EmptyString => String c ("e+" ++ number_to_string (n - 1))
      | String c rest =>
          String c ("." ++ rest ++ "e+" ++ number_to_string (n - 1))
      | EmptyString => ""
      end.

(** Template-literal rendering of a number. *)
Definition to_string (a : Number) : string :=
  match a with
  | Finite n => if n <? 0 then "-" ++ digits (- n) else digits n
  | Infinity negative => if negative then "-Infinity" else "Infinity"
  | NaN => "NaN"
  end.

(** [parseInt(s, 10)]: leading white space, an optional sign, then
    the longest run of digits; the result is the double nearest to the
    integer the digits denote. *)
Fixpoint skip_spaces (s : string) : string :=
  match s with
  | String c s' => if is_space c then skip_spaces s' else s
  | EmptyString => s
  end.

Fixpoint digits_value (acc : Z) (s : string) : Z :=
  match s with
  | String c s' =>
      if is_digit c then digits_value (10 * acc + digit_value c) s' else acc
  | EmptyString => acc
  end.

Definition starts_with_digit (s : string) : bool :=
  match s with
  | String c _ => is_digit c
  | EmptyString => false
  end.

Definition parseInt (s : string) : Number :=
  let s := skip_spaces s in
  let '(sign, body) :=
    match s with
    | String "-" s' => (-1, s')
    | String "+" s' => (1, s')
    | _ => (1, s)
    end in
  if starts_with_digit body then double (sign * digits_value 0 body) else NaN.

End Js.

(** ** The [semver] package

    The services import the npm package [semver]; what they call of it
    ([parse], [valid], [gt], [lt], [diff]) is modelled here after the
    package's release line 7.  Parsing is strict ([loose] is never set
    by the callers): optional white space around the version, an
    optional leading [v], three numeric identifiers without leading
    zeros, an optional prerelease tag and optional build metadata.
    Build metadata takes no part in comparisons and is not kept. *)

Module Semver.

Inductive Identifier :=
| NumId (n : Z)
| StrId (s : string).

Record SemVer := mkSemVer {
  major : Z;
  minor : Z;
  patch : Z;
  prerelease : list Identifier
}.

Inductive ReleaseType :=
| Major | Premajor | Minor | Preminor | Patch | Prepatch | Prerelease.

Definition MAX_LENGTH : nat := 256.
Definition MAX_SAFE_INTEGER : Z := 9007199254740991.

Fixpoint rtrim (s : string) : string :=
  match s with
  | EmptyString => EmptyString
  | String c s' =>
      let r := rtrim s' in
      if Js.is_space c && String.eqb r "" then EmptyString else String c r
  end.

Definition trim (s : string) : string := rtrim (Js.skip_spaces s).

(** The longest run of digits at the head of [s], and the rest. *)
Fixpoint span_digits (s : string) : string * string :=
  match s with
  | String c s' =>
      if Js.is_digit c
      then let '(d, r) := span_digits s' in (String c d, r)
      else (EmptyString, s)
  | EmptyString => (EmptyString, EmptyString)
  end.

Definition all_digits (s : string) : bool :=
  negb (String.eqb s "") && String.eqb (snd (span_digits s)) "".

(** [0|[1-9]\d*] applied to a whole run of digits: a run with a
    leading zero and further digits cannot be followed by the
    separator the grammar requires next, so it is rejected here. *)
Definition numeric_ok (d : string) : bool :=
  match d with
  | EmptyString => false
  | String "0" EmptyString => true
  | String "0" _ => false
  | String _ _ => true
  end.

Definition numeric_identifier (s : string) : option (Z * string) :=
  let '(d, r) := span_digits s in
  if numeric_ok d then Some (Js.digits_value 0 d, r) else None.

Definition expect (c : ascii) (s : string) : option string :=
  match s with
  | String c' s' => if Ascii.eqb c c' then Some s' else None
  | EmptyString => None
  end.

(** [String.prototype.split] on a one-character separator. *)
Fixpoint split (sep : ascii) (s : string) : list string :=
  match s with
  | EmptyString => [EmptyString]
  | String c s' =>
      if Ascii.eqb c sep then EmptyString :: split sep s'
      else match split sep s' with
           | [] => [String c EmptyString]
           | w :: ws => String c w :: ws
           end
  end.

(** [[0-9a-zA-Z-]]. *)
Definition is_ident_char (c : ascii) : bool :=
  let n := nat_of_ascii c in
  Js.is_digit c
  || ((65 <=? n)%nat && (n <=? 90)%nat)
  || ((97 <=? n)%nat && (n <=? 122)%nat)
  || (n =? 45)%nat.

Fixpoint all_ident_chars (s : string) : bool :=
  match s with
  | EmptyString => true
  | String c s' => is_ident_char c && all_ident_chars s'
  end.

(** One dot-separated prerelease identifier.  An identifier made of
    digits only is numeric; identifiers of sixteen digits or more are
    kept exact here, where the package goes through floating point. *)
Definition prerelease_identifier (s : string) : option Identifier :=
  if String.eqb s "" || negb (all_ident_chars s) then None
  else if all_digits s
       then if numeric_ok s then Some (NumId (Js.digits_value 0 s)) else None
       else Some (StrId s).

Fixpoint prerelease_identifiers (ids : list string) : option (list Identifier) :=
  match ids with
  | [] => Some []
  | s :: rest =>
      match prerelease_identifier s, prerelease_identifiers rest with
      | Some i, Some tl => Some (i :: tl)
      | _, _ => None
      end
  end.

Definition build_ok (s : string) : bool :=
  forallb (fun id => negb (String.eqb id "") && all_ident_chars id) (split "." s).

(** Text up to the first [+] and, when there is one, the text after
    it. *)
Fixpoint cut_build (s : string) : string * option string :=
  match s with
  | EmptyString => (EmptyString, None)
  | String c s' =>
      if Ascii.eqb c "+" then (EmptyString, Some s')
      else let '(a, b) := cut_build s' in (String c a, b)
  end.

Definition parse_tail (s : string) : option (list Identifier) :=
  let '(pre, build) := cut_build s in
  let build_valid :=
    match build with
    | Some b => build_ok b
    | None => true
    end in
  if negb build_valid then None
  else match pre with
       | EmptyString => Some []
       | String "-" p => prerelease_identifiers (split "." p)
       | String _ _ => None
       end.

(** The match of the version against the strict pattern: the three
    numbers and the prerelease identifiers. *)
Definition match_full (s : string) : option SemVer :=
  let s := match s with
           | String "v" s' => s'
           | _ => s
           end in
  match numeric_identifier s with
  | None => None
  | Some (ma, s) =>
  match expect "." s with
  | None => None
  | Some s =>
  match numeric_identifier s with
  | None => None
  | Some (mi, s) =>
  match expect "." s with
  | None => None
  | Some s =>
  match numeric_identifier s with
  | None => None
  | Some (pa, s) =>
  match parse_tail s with
  | None => None
  | Some pre => Some (mkSemVer ma mi pa pre)
  end end end end end end.

(** [new SemVer(version)]. *)
Definition construct (version : string) : result SemVer :=
  if (MAX_LENGTH <? String.length version)%nat
  then Throw (TypeError "version is longer than 256 characters")
  else
    match match_full (trim version) with
    | None => Throw (TypeError ("Invalid Version: " ++ version)%string)
    | Some v =>
        if MAX_SAFE_INTEGER <? major v
        then Throw (TypeError "Invalid major version")
        else if MAX_SAFE_INTEGER <? minor v
        then Throw (TypeError "Invalid minor version")
        else if MAX_SAFE_INTEGER <? patch v
        then Throw (TypeError "Invalid patch version")
        else Ok v
    end.

(** [semver.parse]: the constructed version, or [null] when the
    constructor throws. *)
Definition parse (version : string) : option SemVer :=
  match construct version with
  | Ok v => Some v
  | Throw _ => None
  end.

(** [semver.valid] returns the normalised version or [null]; the
    callers only test the result, which is truthy exactly when the
    version parses. *)
Definition valid (version : string) : bool :=
  match parse version with
  | Some _ => true
  | None => false
  end.

Definition compareIdentifiers (a b : Identifier) : comparison :=
  match a, b with
  | NumId x, NumId y => x ?= y
  | NumId _, StrId _ => Lt
  | StrId _, NumId _ => Gt
  | StrId x, StrId y => String.compare x y
  end.

Definition compareMain (a b : SemVer) : comparison :=
  match major a ?= major b with
  | Eq => match minor a ?= minor b with
          | Eq => patch a ?= patch b
          | c => c
          end
  | c => c
  end.

Fixpoint comparePreLoop (a b : list Identifier) : comparison :=
  match a, b with
  | [], [] => Eq
  | _ :: _, [] => Gt
  | [], _ :: _ => Lt
  | x :: a', y :: b' =>
      match compareIdentifiers x y with
      | Eq => comparePreLoop a' b'
      | c => c
      end
  end.

Definition comparePre (a b : SemVer) : comparison :=
  match prerelease a, prerelease b with
  | _ :: _, [] => Lt
  | [], _ :: _ => Gt
  | [], [] => Eq
  | pa, pb => comparePreLoop pa pb
  end.

Definition compareSemVer (a b : SemVer) : comparison :=
  match compareMain a b with
  | Eq => comparePre a b
  | c => c
  end.

Definition compare (a b : string) : result comparison :=
  va <- construct a ;;
  vb <- construct b ;;
  Ok (compareSemVer va vb).

Definition gt (a b : string) : result bool :=
  c <- compare a b ;;
  Ok (match c with Gt => true | _ => false end).

Definition lt (a b : string) : result bool :=
  c <- compare a b ;;
  Ok (match c with Lt => true | _ => false end).

Definition has_pre (v : SemVer) : bool :=
  match prerelease v with
  | [] => false
  | _ :: _ => true
  end.

(** [semver.diff], as published from release 7.5.2 on.  On versions
    without prerelease tags, the only ones the planner passes, every
    release agrees: the first of major, minor, patch that differs. *)
Definition diffSemVer (v1 v2 : SemVer) : option ReleaseType :=
  match compareSemVer v1 v2 with
  | Eq => None
  | c =>
      let v1Higher := match c with Gt => true | _ => false end in
      let highVersion := if v1Higher then v1 else v2 in
      let lowVersion := if v1Higher then v2 else v1 in
      let highHasPre := has_pre highVersion in
      let lowHasPre := has_pre lowVersion in
      let main :=
        if negb (major v1 =? major v2)
        then Some (if highHasPre then Premajor else Major)
        else if negb (minor v1 =? minor v2)
        then Some (if highHasPre then Preminor else Minor)
        else if negb (patch v1 =? patch v2)
        then Some (if highHasPre then Prepatch else Patch)
        else Some Prerelease in
      if lowHasPre && negb highHasPre
      then
        if (patch lowVersion =? 0) && (minor lowVersion =? 0)
        then Some Major
        else
          match compareMain lowVersion highVersion with
          | Eq =>
              if negb (minor lowVersion =? 0) && (patch lowVersion =? 0)
              then Some Minor
              else Some Patch
          | _ => main
          end
      else main
  end.

Definition diff (version1 version2 : string) : result (option ReleaseType) :=
  v1 <- construct version1 ;;
  v2 <- construct version2 ;;
  Ok (diffSemVer v1 v2).

End Semver.

(** ** Shared types *)

Definition Date := Z.

Inductive LifecycleModel :=
| PLATFORM_ALIGNED | PLATFORM_AGNOSTIC | ROLLING_RELEASE | MODEL_UNKNOWN.

Inductive SupportPhase :=
| FULL_SUPPORT | MAINTENANCE_SUPPORT | END_OF_LIFE | DEPRECATED | PHASE_UNKNOWN.

Inductive IssueSeverity := CRITICAL | WARNING | INFO.

Inductive IssueType :=
| VERSION_CEILING | STALE_CHANNEL | OUTDATED_VERSION | LIFECYCLE_EXPIRING
| INCOMPATIBLE_CLUSTER.

(** ['healthy' | 'warning' | 'critical']. *)
Inductive HealthStatus := Healthy | Warning | Critical.

(** ['high' | 'medium' | 'low'], for confidence and for priority. *)
Inductive Level := High | Medium | Low.

(** ['cluster' | 'operator' | 'verification']. *)
Inductive StepType := Cluster | Operator | Verification.

Definition IssueSeverity_eqb (a b : IssueSeverity) : bool :=
  match a, b with
  | CRITICAL, CRITICAL | WARNING, WARNING | INFO, INFO => true
  | _, _ => false
  end.

Definition SupportPhase_eqb (a b : SupportPhase) : bool :=
  match a, b with
  | FULL_SUPPORT, FULL_SUPPORT | MAINTENANCE_SUPPORT, MAINTENANCE_SUPPORT
  | END_OF_LIFE, END_OF_LIFE | DEPRECATED, DEPRECATED
  | PHASE_UNKNOWN, PHASE_UNKNOWN => true
  | _, _ => false
  end.

Definition StepType_eqb (a b : StepType) : bool :=
  match a, b with
  | Cluster, Cluster | Operator, Operator | Verification, Verification => true
  | _, _ => false
  end.

Record OperatorInstallation := {
  inst_name : string;
  inst_displayName : string;
  inst_namespace : string;
  inst_currentVersion : string;
  inst_currentChannel : string;
  inst_catalogSource : string;
  inst_catalogNamespace : string;
  inst_installedAt : Date;
  inst_updatedAt : Date;
  inst_approved : bool
}.

Record OperatorLifecycleInfo := {
  lc_operatorName : string;
  lc_version : string;
  lc_lifecycleModel : LifecycleModel;
  lc_supportPhase : SupportPhase;
  lc_fullSupportEndsAt : option Date;
  lc_maintenanceSupportEndsAt : option Date;
  lc_eolAt : option Date;
  lc_minOCPVersion : option string;
  lc_maxOCPVersion : option string;
  lc_recommendedForOCPVersion : option string
}.

Record AvailableUpgrade := {
  up_operatorName : string;
  up_currentVersion : string;
  up_targetVersion : string;
  up_channel : string;
  up_requiresIntermediateUpgrades : bool;
  up_intermediateVersions : option (list string);
  up_releaseDate : Date;
  up_lifecycleInfo : OperatorLifecycleInfo
}.

Record UpgradeIssue := {
  issue_id : string;
  issue_operatorName : string;
  issue_severity : IssueSeverity;
  issue_type : IssueType;
  issue_title : string;
  issue_description : string;
  issue_recommendation : string;
  issue_affectsClusterUpgrade : bool;
  issue_detectedAt : Date
}.

Record OperatorChannel := {
  chan_name : string;
  chan_currentCSV : string;
  chan_availableVersions : list string;
  chan_deprecated : bool;
  chan_deprecationMessage : option string;
  chan_availableInOCPVersion : option (list string)
}.

Record OperatorStatus := {
  op_installation : OperatorInstallation;
  op_lifecycleInfo : OperatorLifecycleInfo;
  op_availableUpgrades : list AvailableUpgrade;
  op_currentChannel : OperatorChannel;
  op_availableChannels : list OperatorChannel;
  op_issues : list UpgradeIssue;
  op_healthStatus : HealthStatus
}.

Record ClusterVersion := {
  cv_currentVersion : string;
  cv_desiredVersion : string;
  cv_channel : string;
  cv_availableUpdates : list string;
  cv_isEUS : bool;
  cv_fullSupportEndsAt : option Date;
  cv_maintenanceSupportEndsAt : option Date;
  cv_eolAt : option Date
}.

Record UpgradeStep := {
  step_order : Z;
  step_type : StepType;
  step_target : string;
  step_fromVersion : option string;
  step_toVersion : option string;
  step_channel : option string;
  step_description : string;
  step_estimatedDuration : string;
  step_requiredPrerequisites : list string;
  step_rollbackStrategy : string
}.

Record UpgradePath := {
  path_id : string;
  path_description : string;
  path_estimatedDuration : string;
  path_confidence : Level;
  path_steps : list UpgradeStep;
  path_benefits : list string;
  path_risks : list string;
  path_supportedUntil : Date
}.

Record MaintenanceWindow := {
  win_id : string;
  win_recommendedDate : Date;
  win_priority : Level;
  win_reason : string;
  win_affectedComponents : list string;
  win_estimatedDuration : string;
  win_upgradePath : UpgradePath
}.

Record PlatformStatus := {
  ps_cluster : ClusterVersion;
  ps_operators : list OperatorStatus;
  ps_overallHealth : HealthStatus;
  ps_totalIssues : Z;
  ps_criticalIssues : Z;
  ps_nextMaintenanceWindow : option MaintenanceWindow;
  ps_supportExpiresIn : option Z
}.

Record UpgradePlannerRecommendations := {
  rec_platformStatus : PlatformStatus;
  rec_recommendedPaths : list UpgradePath;
  rec_maintenanceWindows : list MaintenanceWindow;
  rec_generatedAt : Date
}.

(** ** Version cleaning

    [version.match(/v?(\d+\.\d+\.\d+)/)]: the first capture group of the
    leftmost match, or the string itself when nothing matches.  Both
    services carry the same helper. *)

Definition version_match_at (s : string) : option string :=
  Js.first_match (Js.optional_char "v" s) (fun s1 =>
  Js.first_match (Js.digit_splits s1) (fun '(a, s2) =>
  match Js.literal "." s2 with
  | None => None
  | Some s3 =>
  Js.first_match (Js.digit_splits s3) (fun '(b, s4) =>
  match Js.literal "." s4 with
  | None => None
  | Some s5 =>
  Js.first_match (Js.digit_splits s5) (fun '(c, _) =>
  Some (a ++ "." ++ b ++ "." ++ c)%string)
  end)
  end)).

Definition cleanVersion (version : string) : string :=
  match Js.search version_match_at version with
  | Some group1 => group1
  | None => version
  end.

(** A loop whose body may throw. *)
Fixpoint for_each {S A} (body : S -> A -> result S) (l : list A) (s : S)
  : result S :=
  match l with
  | [] => Ok s
  | a :: rest => s' <- body s a ;; for_each body rest s'
  end.

(** ** Lifecycle service

    What the service awaits from the cluster and from the lifecycle
    metadata provider is an argument of the function that awaits it. *)

Module LifecycleService.

Definition platformAlignedOperators : list string :=
  [ "advanced-cluster-management"; "multicluster-engine"; "odf-operator";
    "quay-operator"; "acs-operator" ].

Definition rollingReleaseOperators : list string :=
  [ "compliance-operator"; "cost-management-metrics-operator" ].

Definition getDefaultLifecycleInfo (operatorName version : string)
  : OperatorLifecycleInfo :=
  let lifecycleModel :=
    if existsb (fun op => Js.includes operatorName op) platformAlignedOperators
    then PLATFORM_ALIGNED
    else if existsb (fun op => Js.includes operatorName op) rollingReleaseOperators
    then ROLLING_RELEASE
    else PLATFORM_AGNOSTIC in
  {| lc_operatorName := operatorName;
     lc_version := version;
     lc_lifecycleModel := lifecycleModel;
     lc_supportPhase := FULL_SUPPORT;
     lc_fullSupportEndsAt := None;
     lc_maintenanceSupportEndsAt := None;
     lc_eolAt := None;
     lc_minOCPVersion := None;
     lc_maxOCPVersion := None;
     lc_recommendedForOCPVersion := None |}.

(** An entry of the cluster version's [status.availableUpdates]: a
    plain string or an object with an optional [version]. *)
Inductive Update :=
| UpdateString (s : string)
| UpdateObject (version : option string).

Definition extractVersionFromUpdate (update : Update) : string :=
  match update with
  | UpdateString s => s
  | UpdateObject version => Js.or_string version ""
  end.

Definition calculateHealthStatus (issues : list UpgradeIssue) : HealthStatus :=
  if existsb (fun i => IssueSeverity_eqb (issue_severity i) CRITICAL) issues
  then Critical
  else if existsb (fun i => IssueSeverity_eqb (issue_severity i) WARNING) issues
  then Warning
  else Healthy.

Section Detection.

(** The clock read by [new Date()]. *)
Variable now : Date.

(** [getOperatorLifecycleInfo]: the lookup of the lifecycle
    metadata (cache or provider) for a name and a version. *)
Variable getOperatorLifecycleInfo : string -> string -> OperatorLifecycleInfo.

Definition detectAvailableUpgrades (installation : OperatorInstallation)
    (availableChannels : list OperatorChannel)
  : result (list AvailableUpgrade) :=
  for_each
    (fun upgrades channel =>
       let currentVersionClean := cleanVersion (inst_currentVersion installation) in
       let latestVersion := cleanVersion (chan_currentCSV channel) in
       if Semver.valid currentVersionClean && Semver.valid latestVersion
       then
         newer <- Semver.gt latestVersion currentVersionClean ;;
         if (newer : bool)
         then
           let lifecycleInfo :=
             getOperatorLifecycleInfo (inst_name installation) latestVersion in
           Ok (upgrades ++
               [ {| up_operatorName := inst_name installation;
                    up_currentVersion := inst_currentVersion installation;
                    up_targetVersion := chan_currentCSV channel;
                    up_channel := chan_name channel;
                    up_requiresIntermediateUpgrades := false;
                    up_intermediateVersions := None;
                    up_releaseDate := now;
                    up_lifecycleInfo := lifecycleInfo |} ])
         else Ok upgrades
       else Ok upgrades)
    availableChannels [].

Definition staleChannelIssue (installation : OperatorInstallation)
    (currentChannel : OperatorChannel) : UpgradeIssue :=
  {| issue_id := inst_name installation ++ "-stale-channel";
     issue_operatorName := inst_name installation;
     issue_severity := WARNING;
     issue_type := STALE_CHANNEL;
     issue_title := "Channel is deprecated";
     issue_description :=
       Js.or_string (chan_deprecationMessage currentChannel)
         "The current subscription channel has been deprecated.";
     issue_recommendation :=
       "Switch to a supported channel: " ++ chan_name currentChannel;
     issue_affectsClusterUpgrade := false;
     issue_detectedAt := now |}.

Definition maintenanceIssue (installation : OperatorInstallation)
  : UpgradeIssue :=
  {| issue_id := inst_name installation ++ "-maintenance";
     issue_operatorName := inst_name installation;
     issue_severity := WARNING;
     issue_type := LIFECYCLE_EXPIRING;
     issue_title := "Operator in maintenance support";
     issue_description :=
       "This operator version is in maintenance support phase.";
     issue_recommendation := "Plan an upgrade to a version in full support.";
     issue_affectsClusterUpgrade := false;
     issue_detectedAt := now |}.

Definition eolIssue (installation : OperatorInstallation) : UpgradeIssue :=
  {| issue_id := inst_name installation ++ "-eol";
     issue_operatorName := inst_name installation;
     issue_severity := CRITICAL;
     issue_type := LIFECYCLE_EXPIRING;
     issue_title := "Operator end of life";
     issue_description := "This operator version has reached end of life.";
     issue_recommendation := "Upgrade immediately to a supported version.";
     issue_affectsClusterUpgrade := true;
     issue_detectedAt := now |}.

Definition versionCeilingIssue (installation : OperatorInstallation)
    (nextVersion maxOCPVersion : string) : UpgradeIssue :=
  {| issue_id := inst_name installation ++ "-version-ceiling";
     issue_operatorName := inst_name installation;
     issue_severity := CRITICAL;
     issue_type := VERSION_CEILING;
     issue_title := "Operator blocks cluster upgrade";
     issue_description :=
       "This operator version does not support OCP " ++ nextVersion
       ++ ". Max supported: " ++ maxOCPVersion;
     issue_recommendation :=
       "Upgrade operator to a version compatible with OCP " ++ nextVersion
       ++ " before upgrading the cluster.";
     issue_affectsClusterUpgrade := true;
     issue_detectedAt := now |}.

(** [availableUpdates] is [clusterVersion.status?.availableUpdates
    || []] of the cluster version the function fetches. *)
Definition detectUpgradeIssues (installation : OperatorInstallation)
    (lifecycleInfo : OperatorLifecycleInfo) (currentChannel : OperatorChannel)
    (availableUpdates : list Update)
  : result (list UpgradeIssue) :=
  let issues : list UpgradeIssue := [] in
  let issues :=
    if chan_deprecated currentChannel
    then issues ++ [staleChannelIssue installation currentChannel]
    else issues in
  let issues :=
    if SupportPhase_eqb (lc_supportPhase lifecycleInfo) MAINTENANCE_SUPPORT
    then issues ++ [maintenanceIssue installation]
    else issues in
  let issues :=
    if SupportPhase_eqb (lc_supportPhase lifecycleInfo) END_OF_LIFE
    then issues ++ [eolIssue installation]
    else issues in
  match lc_maxOCPVersion lifecycleInfo, availableUpdates with
  | Some maxOCPVersion, nextUpdate :: _ =>
      if Js.truthy_string maxOCPVersion
      then
        let nextVersion := extractVersionFromUpdate nextUpdate in
        if Semver.valid nextVersion && Semver.valid maxOCPVersion
        then
          above <- Semver.gt nextVersion maxOCPVersion ;;
          if (above : bool)
          then Ok (issues ++
                   [versionCeilingIssue installation nextVersion maxOCPVersion])
          else Ok issues
        else Ok issues
      else Ok issues
  | _, _ => Ok issues
  end.

(** [getOperatorStatus] after its fetches: the subscription that
    was found, the channels of its package and the cluster's
    available updates.  An exception inside the function is caught
    and turns the result into [null]. *)
Definition getOperatorStatus (installation : OperatorInstallation)
    (availableChannels : list OperatorChannel) (availableUpdates : list Update)
  : option OperatorStatus :=
  let lifecycleInfo :=
    getOperatorLifecycleInfo (inst_name installation)
      (inst_currentVersion installation) in
  let currentChannel :=
    match find (fun c => String.eqb (chan_name c) (inst_currentChannel installation))
            availableChannels with
    | Some c => c
    | None =>
        {| chan_name := inst_currentChannel installation;
           chan_currentCSV := inst_currentVersion installation;
           chan_availableVersions := [];
           chan_deprecated := false;
           chan_deprecationMessage := None;
           chan_availableInOCPVersion := None |}
    end in
  match detectAvailableUpgrades installation availableChannels with
  | Throw _ => None
  | Ok availableUpgrades =>
      match detectUpgradeIssues installation lifecycleInfo currentChannel
              availableUpdates with
      | Throw _ => None
      | Ok issues =>
          let healthStatus := calculateHealthStatus issues in
          Some {| op_installation := installation;
                  op_lifecycleInfo := lifecycleInfo;
                  op_availableUpgrades := availableUpgrades;
                  op_currentChannel := currentChannel;
                  op_availableChannels := availableChannels;
                  op_issues := issues;
                  op_healthStatus := healthStatus |}
      end
  end.

(** [Math.min] over a non-empty list of time stamps. *)
Definition earliest (d : Date) (ds : list Date) : Date :=
  fold_left Z.min ds d.

Definition calculateSupportExpiry (cluster : ClusterVersion)
    (operators : list OperatorStatus) : option Z :=
  let dates :=
    match cv_maintenanceSupportEndsAt cluster with
    | Some d => [d]
    | None => []
    end in
  let dates :=
    fold_left
      (fun dates op =>
         match lc_maintenanceSupportEndsAt (op_lifecycleInfo op) with
         | Some d => dates ++ [d]
         | None => dates
         end)
      operators dates in
  match dates with
  | [] => None
  | d :: ds =>
      let earliestExpiry := earliest d ds in
      Some ((earliestExpiry - now) / (1000 * 60 * 60 * 24))
  end.

(** [getPlatformStatus] after its fetches: the cluster version and
    the operator statuses that could be built. *)
Definition getPlatformStatus (cluster : ClusterVersion)
    (operators : list OperatorStatus) : PlatformStatus :=
  let criticalIssues :=
    fold_left
      (fun count op =>
         count + Z.of_nat (List.length
           (filter (fun i => IssueSeverity_eqb (issue_severity i) CRITICAL)
                   (op_issues op))))
      operators 0 in
  let totalIssues :=
    fold_left (fun count op => count + Z.of_nat (List.length (op_issues op)))
      operators 0 in
  let overallHealth :=
    if 0 <? criticalIssues then Critical
    else if 0 <? totalIssues then Warning else Healthy in
  {| ps_cluster := cluster;
     ps_operators := operators;
     ps_overallHealth := overallHealth;
     ps_totalIssues := totalIssues;
     ps_criticalIssues := criticalIssues;
     ps_nextMaintenanceWindow := None;
     ps_supportExpiresIn := calculateSupportExpiry cluster operators |}.

End Detection.

End LifecycleService.

(** [Array.prototype.reduce] without an initial value, with a callback
    that may throw. *)
Definition reduce {A} (callback : A -> A -> result A) (l : list A) : result A :=
  match l with
  | [] => Throw (TypeError "Reduce of empty array with no initial value")
  | first :: rest => for_each callback rest first
  end.

(** ** Upgrade planner service *)

Module UpgradePlannerService.

(** The step list under construction and the [order] counter. *)
Definition Steps := (list UpgradeStep * Z)%type.

(** [steps.push({ order: order++, ... })]. *)
Definition push (st : Steps) (step : Z -> UpgradeStep) : Steps :=
  (fst st ++ [step (snd st)], snd st + 1).

(** *** Helpers *)

(** [/(\d+)-?(\d+)?\s*minutes?/]: the two capture groups of a match
    at the head of [s]. *)
Definition duration_match_at (s : string) : option (string * option string) :=
  Js.first_match (Js.digit_splits s) (fun '(group1, s1) =>
  Js.first_match (Js.optional_char "-" s1) (fun s2 =>
  Js.first_match
    (map (fun pr => (Some (fst pr), snd pr)) (Js.digit_splits s2) ++ [(None, s2)])
    (fun '(group2, s3) =>
  Js.first_match (Js.space_splits s3) (fun s4 =>
  match Js.literal "minute" s4 with
  | Some _ => Some (group1, group2)
  | None => None
  end)))).

(** The minutes one step adds to the total: [0] when its estimate
    does not match the pattern. *)
Definition stepMinutes (step : UpgradeStep) : Js.Number :=
  match Js.search duration_match_at (step_estimatedDuration step) with
  | Some (group1, group2) => Js.parseInt (Js.or_string group2 group1)
  | None => Js.Finite 0
  end.

(** The loop of [calculateTotalDuration]. *)
Definition totalMinutes (steps : list UpgradeStep) : Js.Number :=
  fold_left (fun total step => Js.add total (stepMinutes step)) steps (Js.Finite 0).

Definition calculateTotalDuration (steps : list UpgradeStep) : string :=
  let totalMinutes := totalMinutes steps in
  if Js.lt totalMinutes (Js.Finite 60)
  then Js.to_string totalMinutes ++ " minutes"
  else
    let hours := Js.floor_div totalMinutes 60 in
    let minutes := Js.rem totalMinutes 60 in
    Js.to_string hours ++ "h " ++ Js.to_string minutes ++ "m".

Definition extractAffectedComponents (path : UpgradePath) : list string :=
  map step_target
    (filter (fun s => negb (StepType_eqb (step_type s) Verification))
            (path_steps path)).

Definition findBalancedUpgrade (operator : OperatorStatus)
  : option AvailableUpgrade :=
  let upgrades := op_availableUpgrades operator in
  if (List.length upgrades =? 0)%nat then None
  else
    let stableUpgrades :=
      filter (fun u => Js.includes (up_channel u) "stable"
                       || Js.includes (up_channel u) "recommended")
             upgrades in
    if (0 <? List.length stableUpgrades)%nat
    then nth_error stableUpgrades (List.length stableUpgrades - 1)
    else nth_error upgrades (List.length upgrades / 2).

Definition isSignificantlyOutdated (operator : OperatorStatus) : result bool :=
  let upgrades := op_availableUpgrades operator in
  if (List.length upgrades =? 0)%nat then Ok false
  else
    let currentVersion :=
      cleanVersion (inst_currentVersion (op_installation operator)) in
    match nth_error upgrades (List.length upgrades - 1) with
    | None => Throw (TypeError "Cannot read properties of undefined")
    | Some last =>
        let latestVersion := cleanVersion (up_targetVersion last) in
        if negb (Semver.valid currentVersion) || negb (Semver.valid latestVersion)
        then Ok false
        else
          diff <- Semver.diff currentVersion latestVersion ;;
          Ok (match diff with
              | Some Semver.Minor | Some Semver.Major => true
              | _ => false
              end)
    end.

Definition is_release (d : option Semver.ReleaseType) (r : Semver.ReleaseType)
  : bool :=
  match d, r with
  | Some Semver.Patch, Semver.Patch | Some Semver.Minor, Semver.Minor
  | Some Semver.Major, Semver.Major => true
  | _, _ => false
  end.

Definition findConservativeUpgrade (operator : OperatorStatus)
  : result (option AvailableUpgrade) :=
  let upgrades := op_availableUpgrades operator in
  if (List.length upgrades =? 0)%nat then Ok None
  else
    let currentVersion :=
      cleanVersion (inst_currentVersion (op_installation operator)) in
    match Semver.parse currentVersion with
    | None => Ok (nth_error upgrades 0)
    | Some _ =>
        chosen <-
          reduce
            (fun closest current =>
               let closestVersion := cleanVersion (up_targetVersion closest) in
               let currentTargetVersion := cleanVersion (up_targetVersion current) in
               d1 <- Semver.diff currentVersion currentTargetVersion ;;
               if is_release d1 Semver.Patch then Ok current
               else
                 d2 <- Semver.diff currentVersion currentTargetVersion ;;
                 if is_release d2 Semver.Minor
                 then
                   lower <- Semver.lt currentTargetVersion closestVersion ;;
                   if (lower : bool) then Ok current else Ok closest
                 else Ok closest)
            upgrades ;;
        Ok (Some chosen)
    end.

Section Planner.

(** The clock read by [new Date()] and [Date.now()]. *)
Variable now : Date.

(** The calendar arithmetic of [Date.prototype.setMonth]: the
    instant a number of months after a given one. *)
Variable addMonths : Date -> Z -> Date.

Definition calculateSupportedUntil (_platformStatus : PlatformStatus)
    (_steps : list UpgradeStep) : Date :=
  let estimatedSupportMonths := 18 in
  addMonths now estimatedSupportMonths.

(** The platform upgrade step shared in shape by three strategies. *)
Definition clusterStep (platformStatus : PlatformStatus)
    (toVersion : option string) (description : string)
    (prerequisites : list string) (rollback : string) (order : Z)
  : UpgradeStep :=
  {| step_order := order;
     step_type := Cluster;
     step_target := "OpenShift Cluster";
     step_fromVersion := Some (cv_currentVersion (ps_cluster platformStatus));
     step_toVersion := toVersion;
     step_channel := Some (cv_channel (ps_cluster platformStatus));
     step_description := description;
     step_estimatedDuration := "45-90 minutes";
     step_requiredPrerequisites := prerequisites;
     step_rollbackStrategy := rollback |}.

Definition operatorStep (operator : OperatorStatus) (upgrade : AvailableUpgrade)
    (description : string) (prerequisites : list string) (rollback : string)
    (order : Z) : UpgradeStep :=
  {| step_order := order;
     step_type := Operator;
     step_target := inst_name (op_installation operator);
     step_fromVersion := Some (inst_currentVersion (op_installation operator));
     step_toVersion := Some (up_targetVersion upgrade);
     step_channel := Some (up_channel upgrade);
     step_description := description;
     step_estimatedDuration := "10-20 minutes";
     step_requiredPrerequisites := prerequisites;
     step_rollbackStrategy := rollback |}.

Definition verificationStep (description : string)
    (prerequisites : list string) (order : Z) : UpgradeStep :=
  {| step_order := order;
     step_type := Verification;
     step_target := "cluster";
     step_fromVersion := None;
     step_toVersion := None;
     step_channel := None;
     step_description := description;
     step_estimatedDuration := "15 minutes";
     step_requiredPrerequisites := prerequisites;
     step_rollbackStrategy := "Restore from backup" |}.

(** *** Critical issues *)

Definition generateCriticalIssuePath (platformStatus : PlatformStatus)
  : option UpgradePath :=
  let criticalOperators :=
    filter
      (fun op => existsb (fun i => IssueSeverity_eqb (issue_severity i) CRITICAL)
                         (op_issues op))
      (ps_operators platformStatus) in
  if (List.length criticalOperators =? 0)%nat then None
  else
    let st : Steps := ([], 1) in
    let st :=
      push st (verificationStep "Verify cluster health and backup current state"
                 ["Cluster backup"; "etcd snapshot"]) in
    let st :=
      fold_left
        (fun st operator =>
           match nth_error (op_availableUpgrades operator) 0 with
           | Some upgrade =>
               push st
                 (operatorStep operator upgrade
                    ("Upgrade " ++ inst_displayName (op_installation operator)
                     ++ " to resolve critical issues")
                    ["Review operator documentation"; "Check for breaking changes"]
                    "Uninstall and reinstall previous version")
           | None => st
           end)
        criticalOperators st in
    let availableUpdates := cv_availableUpdates (ps_cluster platformStatus) in
    let st :=
      if (0 <? List.length availableUpdates)%nat
      then
        let nextVersion := nth_error availableUpdates 0 in
        push st
          (clusterStep platformStatus nextVersion
             ("Upgrade OpenShift to " ++ Js.template nextVersion)
             ["All operators compatible"; "Cluster health verified";
              "Backup completed"]
             "Not supported - ensure all prerequisites are met")
      else st in
    let steps := fst st in
    let totalDuration := calculateTotalDuration steps in
    let supportedUntil := calculateSupportedUntil platformStatus steps in
    Some {| path_id := "critical-issues-path";
            path_description :=
              "Address critical issues that block cluster operations and upgrades";
            path_estimatedDuration := totalDuration;
            path_confidence := High;
            path_steps := steps;
            path_benefits :=
              ["Resolves blocking issues"; "Enables cluster upgrade";
               "Reduces immediate risks"];
            path_risks :=
              ["May require multiple operator updates"; "Some downtime expected"];
            path_supportedUntil := supportedUntil |}.

(** *** Conservative *)

Definition generateConservativePath (platformStatus : PlatformStatus)
  : result (option UpgradePath) :=
  let st : Steps := ([], 1) in
  let st :=
    push st (verificationStep "Verify cluster health and backup" ["Cluster backup"]) in
  let operatorsWithWarnings :=
    filter
      (fun op => existsb (fun i => IssueSeverity_eqb (issue_severity i) WARNING)
                         (op_issues op))
      (ps_operators platformStatus) in
  st <-
    for_each
      (fun st operator =>
         conservativeUpgrade <- findConservativeUpgrade operator ;;
         match conservativeUpgrade with
         | Some upgrade =>
             Ok (push st
                   (operatorStep operator upgrade
                      ("Conservative upgrade of "
                       ++ inst_displayName (op_installation operator))
                      ["Review release notes"]
                      "Reinstall previous version"))
         | None => Ok st
         end)
      operatorsWithWarnings st ;;
  let steps := fst st in
  if (List.length steps =? 1)%nat then Ok None
  else
    let totalDuration := calculateTotalDuration steps in
    let supportedUntil := calculateSupportedUntil platformStatus steps in
    Ok (Some
          {| path_id := "conservative-path";
             path_description :=
               "Minimal upgrades to extend support without major version changes";
             path_estimatedDuration := totalDuration;
             path_confidence := High;
             path_steps := steps;
             path_benefits :=
               ["Minimal risk"; "Extends support period"; "Small scope of changes"];
             path_risks :=
               ["May need another upgrade soon";
                "Not addressing all available updates"];
             path_supportedUntil := supportedUntil |}).

(** *** Aggressive *)

Definition latestUpgrade (operator : OperatorStatus) : result AvailableUpgrade :=
  reduce
    (fun latest current =>
       newer <- Semver.gt (cleanVersion (up_targetVersion current))
                          (cleanVersion (up_targetVersion latest)) ;;
       Ok (if (newer : bool) then current else latest))
    (op_availableUpgrades operator).

Definition generateAggressivePath (platformStatus : PlatformStatus)
  : result (option UpgradePath) :=
  let st : Steps := ([], 1) in
  let st :=
    push st (verificationStep "Verify cluster health and backup" ["Cluster backup"]) in
  st <-
    for_each
      (fun st operator =>
         if (0 <? List.length (op_availableUpgrades operator))%nat
         then
           upgrade <- latestUpgrade operator ;;
           Ok (push st
                 (operatorStep operator upgrade
                    ("Upgrade " ++ inst_displayName (op_installation operator)
                     ++ " to latest version")
                    ["Review all release notes"; "Check for breaking changes"]
                    "Reinstall previous version"))
         else Ok st)
      (ps_operators platformStatus) st ;;
  let availableUpdates := cv_availableUpdates (ps_cluster platformStatus) in
  let st :=
    if (0 <? List.length availableUpdates)%nat
    then
      let latestVersion :=
        nth_error availableUpdates (List.length availableUpdates - 1) in
      push st
        (clusterStep platformStatus latestVersion
           ("Upgrade OpenShift to latest version " ++ Js.template latestVersion)
           ["All operators compatible"; "Cluster health verified";
            "Backup completed"]
           "Not supported - ensure all prerequisites are met")
    else st in
  let steps := fst st in
  if (List.length steps =? 1)%nat then Ok None
  else
    let totalDuration := calculateTotalDuration steps in
    let supportedUntil := calculateSupportedUntil platformStatus steps in
    Ok (Some
          {| path_id := "aggressive-path";
             path_description :=
               "Upgrade all components to latest versions for maximum support duration";
             path_estimatedDuration := totalDuration;
             path_confidence := Medium;
             path_steps := steps;
             path_benefits :=
               ["Maximum support duration"; "Latest features and fixes";
                "Fewest future maintenance windows"];
             path_risks :=
               ["More potential for breaking changes"; "Longer maintenance window";
                "More testing required"];
             path_supportedUntil := supportedUntil |}).

(** *** Balanced *)

Definition generateBalancedPath (platformStatus : PlatformStatus)
  : result (option UpgradePath) :=
  let st : Steps := ([], 1) in
  let st :=
    push st (verificationStep "Verify cluster health and backup" ["Cluster backup"]) in
  st <-
    for_each
      (fun st operator =>
         shouldUpgrade <-
           (if (0 <? List.length (op_issues operator))%nat then Ok true
            else isSignificantlyOutdated operator) ;;
         if (shouldUpgrade : bool)
            && (0 <? List.length (op_availableUpgrades operator))%nat
         then
           match findBalancedUpgrade operator with
           | Some targetUpgrade =>
               Ok (push st
                     (operatorStep operator targetUpgrade
                        ("Upgrade " ++ inst_displayName (op_installation operator)
                         ++ " to recommended version")
                        ["Review release notes"]
                        "Reinstall previous version"))
           | None => Ok st
           end
         else Ok st)
      (ps_operators platformStatus) st ;;
  let availableUpdates := cv_availableUpdates (ps_cluster platformStatus) in
  let st :=
    if (0 <? List.length availableUpdates)%nat
    then
      let targetVersion := nth_error availableUpdates 0 in
      push st
        (clusterStep platformStatus targetVersion
           ("Upgrade OpenShift to " ++ Js.template targetVersion)
           ["All operators compatible"; "Cluster health verified"]
           "Not supported")
    else st in
  let steps := fst st in
  if (List.length steps =? 1)%nat then Ok None
  else
    let totalDuration := calculateTotalDuration steps in
    let supportedUntil := calculateSupportedUntil platformStatus steps in
    Ok (Some
          {| path_id := "balanced-path";
             path_description :=
               "Optimal balance of risk, effort, and support duration";
             path_estimatedDuration := totalDuration;
             path_confidence := High;
             path_steps := steps;
             path_benefits :=
               ["Good balance of risk and reward"; "Addresses key issues";
                "Reasonable maintenance window"; "Extended support period"];
             path_risks :=
               ["Some operator updates required"; "Moderate testing effort"];
             path_supportedUntil := supportedUntil |}).

(** *** All paths *)

Definition push_path (paths : list UpgradePath) (p : option UpgradePath)
  : list UpgradePath :=
  match p with
  | Some path => paths ++ [path]
  | None => paths
  end.

Definition generateUpgradePaths (platformStatus : PlatformStatus)
  : result (list UpgradePath) :=
  let paths : list UpgradePath := [] in
  let criticalPath := generateCriticalIssuePath platformStatus in
  let paths := push_path paths criticalPath in
  conservativePath <- generateConservativePath platformStatus ;;
  let paths := push_path paths conservativePath in
  aggressivePath <- generateAggressivePath platformStatus ;;
  let paths := push_path paths aggressivePath in
  balancedPath <- generateBalancedPath platformStatus ;;
  let paths := push_path paths balancedPath in
  Ok paths.

(** *** Maintenance windows *)

Definition find_path (id : string) (paths : list UpgradePath)
  : option UpgradePath :=
  find (fun p => String.eqb (path_id p) id) paths.

Definition generateMaintenanceWindows (platformStatus : PlatformStatus)
    (paths : list UpgradePath) : list MaintenanceWindow :=
  let windows : list MaintenanceWindow := [] in
  let windows :=
    if 0 <? ps_criticalIssues platformStatus
    then
      match find_path "critical-issues-path" paths with
      | Some criticalPath =>
          windows ++
          [ {| win_id := "immediate-window";
               win_recommendedDate := now + 7 * 24 * 60 * 60 * 1000;
               win_priority := High;
               win_reason :=
                 "Critical issues detected that may block cluster operations";
               win_affectedComponents := extractAffectedComponents criticalPath;
               win_estimatedDuration := path_estimatedDuration criticalPath;
               win_upgradePath := criticalPath |} ]
      | None => windows
      end
    else windows in
  let windows :=
    match find_path "balanced-path" paths with
    | Some balancedPath =>
        windows ++
        [ {| win_id := "regular-maintenance";
             win_recommendedDate := now + 30 * 24 * 60 * 60 * 1000;
             win_priority :=
               if 0 <? ps_criticalIssues platformStatus then High else Medium;
             win_reason :=
               "Regular maintenance to keep platform current and supported";
             win_affectedComponents := extractAffectedComponents balancedPath;
             win_estimatedDuration := path_estimatedDuration balancedPath;
             win_upgradePath := balancedPath |} ]
    | None => windows
    end in
  let windows :=
    if Js.truthy_opt_number (ps_supportExpiresIn platformStatus)
       && match ps_supportExpiresIn platformStatus with
          | Some days => days <? 90
          | None => false
          end
    then
      match find_path "aggressive-path" paths with
      | Some aggressivePath =>
          windows ++
          [ {| win_id := "lifecycle-maintenance";
               win_recommendedDate := now + 14 * 24 * 60 * 60 * 1000;
               win_priority := High;
               win_reason :=
                 "Platform support expires in "
                 ++ Js.template
                      (option_map Js.number_to_string
                         (ps_supportExpiresIn platformStatus))
                 ++ " days";
               win_affectedComponents := extractAffectedComponents aggressivePath;
               win_estimatedDuration := path_estimatedDuration aggressivePath;
               win_upgradePath := aggressivePath |} ]
      | None => windows
      end
    else windows in
  windows.

(** [getUpgradeRecommendations] after the platform status has been
    awaited; any exception is replaced by one fixed error. *)
Definition getUpgradeRecommendations (platformStatus : result PlatformStatus)
  : result UpgradePlannerRecommendations :=
  let attempt :=
    platformStatus <- platformStatus ;;
    recommendedPaths <- generateUpgradePaths platformStatus ;;
    let maintenanceWindows :=
      generateMaintenanceWindows platformStatus recommendedPaths in
    Ok {| rec_platformStatus := platformStatus;
          rec_recommendedPaths := recommendedPaths;
          rec_maintenanceWindows := maintenanceWindows;
          rec_generatedAt := now |} in
  match attempt with
  | Ok r => Ok r
  | Throw _ => Throw (Error "Failed to generate upgrade recommendations")
  end.

End Planner.

End UpgradePlannerService.

(** ** OLM client

    The client reads custom resources of the cluster and maps them to
    the shared types.  What a method awaits from the Kubernetes API is
    an argument of the method, after the arguments of the source: the
    response the call resolved with, or the status code of the error it
    was rejected with. *)

Module OLMClient.

(** The outcome of an API call: the body of the response, or
    [error.response?.statusCode] of the rejection. *)
Inductive Response (A : Type) :=
| Body (body : A)
| Rejected (statusCode : option Z).
Arguments Body {A} body.
Arguments Rejected {A} statusCode.

(** Optional chaining, [o?.f]. *)
Definition chain {A B} (o : option A) (f : A -> option B) : option B :=
  match o with
  | Some a => f a
  | None => None
  end.

(** [error.response?.statusCode === 404]. *)
Definition notFound (statusCode : option Z) : bool :=
  match statusCode with
  | Some code => code =? 404
  | None => false
  end.

(** The fields of a Subscription the client reads. *)
Record SubscriptionSpec := {
  spec_name : option string;
  spec_channel : option string;
  spec_source : option string;
  spec_sourceNamespace : option string;
  spec_installPlanApproval : option string
}.

Record SubscriptionStatus := {
  status_currentCSV : option string;
  status_lastUpdated : option string
}.

Record Subscription := {
  sub_name : string;
  sub_namespace : string;
  sub_creationTimestamp : string;
  sub_spec : option SubscriptionSpec;
  sub_status : option SubscriptionStatus
}.

(** The fields of a channel of a PackageManifest the client reads. *)
Record Deprecation := {
  dep_message : option string
}.

Record CSVDescription := {
  desc_annotations : option (list (string * string))
}.

Record ManifestChannel := {
  mc_name : string;
  mc_currentCSV : string;
  mc_entries : option (list string);
  mc_deprecation : option Deprecation;
  mc_currentCSVDesc : option CSVDescription
}.

Record PackageManifest := {
  pm_channels : option (list ManifestChannel)
}.

(** [properties[key]] on an object whose property values are strings. *)
Definition property (key : string) (properties : list (string * string))
  : option string :=
  option_map snd (find (fun kv => String.eqb (fst kv) key) properties).

Definition extractOCPVersionsFromChannel (channel : ManifestChannel)
  : option (list string) :=
  let properties :=
    match chain (mc_currentCSVDesc channel) desc_annotations with
    | Some annotations => annotations
    | None => []
    end in
  let ocpVersionAnnotation := property "com.redhat.openshift.versions" properties in
  match ocpVersionAnnotation with
  | Some annotation =>
      if Js.truthy_string annotation
      then Some (map Semver.trim (Semver.split "," annotation))
      else None
  | None => None
  end.

Definition mapChannel (channel : ManifestChannel) : OperatorChannel :=
  {| chan_name := mc_name channel;
     chan_currentCSV := mc_currentCSV channel;
     chan_availableVersions :=
       match mc_entries channel with
       | Some entries => entries
       | None => []
       end;
     chan_deprecated :=
       match chain (mc_deprecation channel) dep_message with
       | Some message => Js.truthy_string message
       | None => false
       end;
     chan_deprecationMessage := chain (mc_deprecation channel) dep_message;
     chan_availableInOCPVersion := extractOCPVersionsFromChannel channel |}.

Definition getOperatorChannels (packageName catalogSource catalogNamespace : string)
    (response : Response PackageManifest) : result (list OperatorChannel) :=
  match response with
  | Body pkg =>
      let channels :=
        match pm_channels pkg with
        | Some channels => channels
        | None => []
        end in
      Ok (map mapChannel channels)
  | Rejected statusCode =>
      if notFound statusCode then Ok []
      else Throw (Error ("Failed to fetch channels for: " ++ packageName))
  end.

Section Subscriptions.

(** [new Date(text)]: the instant a time stamp denotes. *)
Variable parseDate : string -> Date.

Definition mapSubscriptionToInstallation (sub : Subscription)
  : OperatorInstallation :=
  {| inst_name := sub_name sub;
     inst_displayName := Js.or_string (chain (sub_spec sub) spec_name) (sub_name sub);
     inst_namespace := sub_namespace sub;
     inst_currentVersion :=
       Js.or_string (chain (sub_status sub) status_currentCSV) "unknown";
     inst_currentChannel := Js.or_string (chain (sub_spec sub) spec_channel) "unknown";
     inst_catalogSource := Js.or_string (chain (sub_spec sub) spec_source) "unknown";
     inst_catalogNamespace :=
       Js.or_string (chain (sub_spec sub) spec_sourceNamespace) "unknown";
     inst_installedAt := parseDate (sub_creationTimestamp sub);
     inst_updatedAt :=
       parseDate (Js.or_string (chain (sub_status sub) status_lastUpdated)
                    (sub_creationTimestamp sub));
     inst_approved :=
       match chain (sub_spec sub) spec_installPlanApproval with
       | Some approval => String.eqb approval "Automatic"
       | None => false
       end |}.

Definition getOperatorSubscription (name namespace : string)
    (response : Response Subscription) : result (option OperatorInstallation) :=
  match response with
  | Body sub => Ok (Some (mapSubscriptionToInstallation sub))
  | Rejected statusCode =>
      if notFound statusCode then Ok None
      else Throw (Error ("Failed to fetch operator subscription: " ++ name))
  end.

End Subscriptions.

(** [getClusterVersion] hands the body of the response through. *)
Definition getClusterVersion {A} (response : Response A) : result A :=
  match response with
  | Body body => Ok body
  | Rejected _ => Throw (Error "Failed to fetch cluster version")
  end.

End OLMClient.

(** ** Lifecycle cache

    [getOperatorLifecycleInfo] with the state it keeps: the map from
    [<name>:<version>] to the lifecycle information, and the instant of
    the last insertion.  The clock is read as [now] throughout one
    call. *)

Module LifecycleCache.

Record State := {
  lifecycleCache : list (string * OperatorLifecycleInfo);
  lastCacheUpdate : Z
}.

(** The state of a new service. *)
Definition initial : State :=
  {| lifecycleCache := []; lastCacheUpdate := 0 |}.

Definition cacheExpiry : Z := 3600000.

(** [Map.prototype.get] and [Map.prototype.set]: a key occurs once, and
    setting a key that is present keeps its position. *)
Definition get (key : string) (entries : list (string * OperatorLifecycleInfo))
  : option OperatorLifecycleInfo :=
  option_map snd (find (fun kv => String.eqb (fst kv) key) entries).

Fixpoint set (key : string) (value : OperatorLifecycleInfo)
    (entries : list (string * OperatorLifecycleInfo))
  : list (string * OperatorLifecycleInfo) :=
  match entries with
  | [] => [(key, value)]
  | (k, v) :: rest =>
      if String.eqb k key then (key, value) :: rest
      else (k, v) :: set key value rest
  end.

(** The placeholder for the call to the product lifecycle API. *)
Definition fetchLifecycleInfoFromAPI (operatorName version : string)
  : result OperatorLifecycleInfo :=
  Ok (LifecycleService.getDefaultLifecycleInfo operatorName version).

Definition getOperatorLifecycleInfo (now : Z) (operatorName version : string)
    (state : State) : OperatorLifecycleInfo * State :=
  let cacheKey := (operatorName ++ ":" ++ version)%string in
  let fetched :=
    match fetchLifecycleInfoFromAPI operatorName version with
    | Ok lifecycleInfo =>
        (lifecycleInfo,
         {| lifecycleCache := set cacheKey lifecycleInfo (lifecycleCache state);
            lastCacheUpdate := now |})
    | Throw _ =>
        (LifecycleService.getDefaultLifecycleInfo operatorName version, state)
    end in
  match get cacheKey (lifecycleCache state) with
  | Some cached =>
      if now - lastCacheUpdate state <? cacheExpiry then (cached, state)
      else fetched
  | None => fetched
  end.

End LifecycleCache.

(** ** Lifecycle service on the cluster

    The methods of the lifecycle service with their fetches.  The
    responses of the cluster are arguments, the same for every call
    within one request; each method hands what it fetched to the part
    of [LifecycleService] above that works on it. *)

Module LifecycleRequests.

Import OLMClient.

(** The fields of the ClusterVersion resource the service reads. *)
Record DesiredUpdate := {
  desired_version : option string
}.

Record ClusterVersionStatus := {
  cvs_desired : option DesiredUpdate;
  cvs_availableUpdates : option (list LifecycleService.Update)
}.

Record ClusterVersionSpec := {
  cvspec_channel : option string
}.

Record ClusterVersionData := {
  cvd_status : option ClusterVersionStatus;
  cvd_spec : option ClusterVersionSpec
}.

(** [clusterVersion.status?.availableUpdates || []], as
    [detectUpgradeIssues] reads it. *)
Definition availableUpdates (data : ClusterVersionData)
  : list LifecycleService.Update :=
  match chain (cvd_status data) cvs_availableUpdates with
  | Some updates => updates
  | None => []
  end.

(** [u.version || u]: the version of the update when it has one that
    is not empty, and the update itself otherwise.  A string has no
    property [version]. *)
Definition versionOrUpdate (u : LifecycleService.Update) : LifecycleService.Update :=
  match u with
  | LifecycleService.UpdateString _ => u
  | LifecycleService.UpdateObject (Some version) =>
      if Js.truthy_string version then LifecycleService.UpdateString version
      else u
  | LifecycleService.UpdateObject None => u
  end.

(** The value [mapToClusterVersion] returns.  The type [ClusterVersion]
    declares [availableUpdates] as strings; the method fills it with
    [u.version || u], so that an update without a version stays the
    object it is.  The record keeps the updates as the values they
    are. *)
Record MappedClusterVersion := {
  mcv_currentVersion : string;
  mcv_desiredVersion : string;
  mcv_channel : string;
  mcv_availableUpdates : list LifecycleService.Update;
  mcv_isEUS : bool;
  mcv_fullSupportEndsAt : option Date;
  mcv_maintenanceSupportEndsAt : option Date;
  mcv_eolAt : option Date
}.

Definition mapToClusterVersion (data : ClusterVersionData) : MappedClusterVersion :=
  let version :=
    Js.or_string (chain (chain (cvd_status data) cvs_desired) desired_version)
      "unknown" in
  let channel := Js.or_string (chain (cvd_spec data) cvspec_channel) "unknown" in
  let availableUpdates :=
    match chain (cvd_status data) cvs_availableUpdates with
    | Some updates => map versionOrUpdate updates
    | None => []
    end in
  let isEUS := Js.includes channel "eus" in
  {| mcv_currentVersion := version;
     mcv_desiredVersion :=
       Js.or_string (chain (chain (cvd_status data) cvs_desired) desired_version)
         version;
     mcv_channel := channel;
     mcv_availableUpdates := availableUpdates;
     mcv_isEUS := isEUS;
     mcv_fullSupportEndsAt := None;
     mcv_maintenanceSupportEndsAt := None;
     mcv_eolAt := None |}.

Section Requests.

(** The clock and the parsing of time stamps. *)
Variable now : Date.
Variable parseDate : string -> Date.

(** The lifecycle metadata of a name and a version. *)
Variable getOperatorLifecycleInfo : string -> string -> OperatorLifecycleInfo.

(** The cluster: the Subscription of a name in a namespace, the
    PackageManifest of a package in a catalog namespace, and the
    ClusterVersion. *)
Variable subscriptionOf : string -> string -> Response Subscription.
Variable packageManifestOf : string -> string -> Response PackageManifest.
Variable clusterVersion : Response ClusterVersionData.

(** [getOperatorStatus]: every exception is caught and turns the
    result into [null]. *)
Definition getOperatorStatus (name namespace : string) : option OperatorStatus :=
  match getOperatorSubscription parseDate name namespace
          (subscriptionOf name namespace) with
  | Throw _ => None
  | Ok None => None
  | Ok (Some installation) =>
      match getOperatorChannels (inst_name installation)
              (inst_catalogSource installation) (inst_catalogNamespace installation)
              (packageManifestOf (inst_catalogNamespace installation)
                 (inst_name installation)) with
      | Throw _ => None
      | Ok availableChannels =>
          match getClusterVersion clusterVersion with
          | Throw _ => None
          | Ok clusterVersionData =>
              LifecycleService.getOperatorStatus now getOperatorLifecycleInfo
                installation availableChannels (availableUpdates clusterVersionData)
          end
      end
  end.

End Requests.

End LifecycleRequests.

(** ** Sample data *)

Module Samples.

Definition installation (name version : string) : OperatorInstallation :=
  {| inst_name := name;
     inst_displayName := name;
     inst_namespace := "openshift-operators";
     inst_currentVersion := version;
     inst_currentChannel := "stable";
     inst_catalogSource := "redhat-operators";
     inst_catalogNamespace := "openshift-marketplace";
     inst_installedAt := 0;
     inst_updatedAt := 0;
     inst_approved := true |}.

Definition lifecycle (name version : string) (phase : SupportPhase)
    (maxOCP : option string) : OperatorLifecycleInfo :=
  {| lc_operatorName := name;
     lc_version := version;
     lc_lifecycleModel := PLATFORM_AGNOSTIC;
     lc_supportPhase := phase;
     lc_fullSupportEndsAt := None;
     lc_maintenanceSupportEndsAt := None;
     lc_eolAt := None;
     lc_minOCPVersion := None;
     lc_maxOCPVersion := maxOCP;
     lc_recommendedForOCPVersion := None |}.

Definition upgrade (name current target channel : string) : AvailableUpgrade :=
  {| up_operatorName := name;
     up_currentVersion := current;
     up_targetVersion := target;
     up_channel := channel;
     up_requiresIntermediateUpgrades := false;
     up_intermediateVersions := None;
     up_releaseDate := 0;
     up_lifecycleInfo := lifecycle name target FULL_SUPPORT None |}.

Definition channel (name csv : string) (deprecated : bool) : OperatorChannel :=
  {| chan_name := name;
     chan_currentCSV := csv;
     chan_availableVersions := [];
     chan_deprecated := deprecated;
     chan_deprecationMessage := None;
     chan_availableInOCPVersion := None |}.

Definition issue (name suffix : string) (severity : IssueSeverity)
    (type : IssueType) : UpgradeIssue :=
  {| issue_id := name ++ suffix;
     issue_operatorName := name;
     issue_severity := severity;
     issue_type := type;
     issue_title := "";
     issue_description := "";
     issue_recommendation := "";
     issue_affectsClusterUpgrade := false;
     issue_detectedAt := 0 |}.

Definition operator (name version : string) (upgrades : list AvailableUpgrade)
    (issues : list UpgradeIssue) : OperatorStatus :=
  {| op_installation := installation name version;
     op_lifecycleInfo := lifecycle name version FULL_SUPPORT None;
     op_availableUpgrades := upgrades;
     op_currentChannel := channel "stable" version false;
     op_availableChannels := [];
     op_issues := issues;
     op_healthStatus := LifecycleService.calculateHealthStatus issues |}.

Definition cluster (updates : list string) : ClusterVersion :=
  {| cv_currentVersion := "4.16.0";
     cv_desiredVersion := "4.16.0";
     cv_channel := "stable-4.16";
     cv_availableUpdates := updates;
     cv_isEUS := false;
     cv_fullSupportEndsAt := None;
     cv_maintenanceSupportEndsAt := None;
     cv_eolAt := None |}.

Definition platform (updates : list string) (operators : list OperatorStatus)
    (criticalIssues : Z) (supportExpiresIn : option Z) : PlatformStatus :=
  {| ps_cluster := cluster updates;
     ps_operators := operators;
     ps_overallHealth := Healthy;
     ps_totalIssues := 0;
     ps_criticalIssues := criticalIssues;
     ps_nextMaintenanceWindow := None;
     ps_supportExpiresIn := supportExpiresIn |}.

(** A calendar that counts every month as thirty days. *)
Definition addMonths (d : Date) (months : Z) : Date :=
  d + months * 30 * 24 * 60 * 60 * 1000.

(** One component at 1.2.0 with a patch upgrade and no issue; the
    platform has no update. *)
Definition patchAvailable (supportExpiresIn : option Z) : PlatformStatus :=
  platform []
    [operator "x" "1.2.0" [upgrade "x" "1.2.0" "1.2.5" "stable"] []]
    0 supportExpiresIn.

(** One component with a critical version-ceiling issue and an upgrade;
    the platform has two updates. *)
Definition blockedByCeiling : PlatformStatus :=
  platform ["4.16.1"; "4.16.5"]
    [operator "y" "1.2.0" [upgrade "y" "1.2.0" "2.0.0" "stable"]
       [issue "y" "-version-ceiling" CRITICAL VERSION_CEILING]]
    1 (Some 45).

(** One end-of-life component with no upgrade to go to, next to a
    component that has one. *)
Definition oneWithoutUpgrade : PlatformStatus :=
  platform []
    [operator "z" "1.2.0" [] [issue "z" "-eol" CRITICAL LIFECYCLE_EXPIRING];
     operator "x" "1.2.0" [upgrade "x" "1.2.0" "1.2.5" "stable"]
       [issue "x" "-stale-channel" WARNING STALE_CHANNEL]]
    1 None.

(** One component with two listed upgrades, the second of which names
    no version. *)
Definition unparsableTarget : PlatformStatus :=
  platform []
    [operator "w" "1.2.0"
       [upgrade "w" "1.2.0" "1.3.0" "stable"; upgrade "w" "1.2.0" "latest" "fast"]
       [issue "w" "-stale-channel" WARNING STALE_CHANNEL]]
    0 None.

(** One component whose installed version names no version, with a
    warning and a listed upgrade. *)
Definition unparsableCurrent : PlatformStatus :=
  platform []
    [operator "w" "unknown" [upgrade "w" "unknown" "1.2.5" "stable"]
       [issue "w" "-stale-channel" WARNING STALE_CHANNEL]]
    0 None.

(** A lifecycle lookup that reports every version in full support
    with maintenance support ending at a given instant. *)
Definition expiringLookup (maintenanceSupportEndsAt : Date) (name version : string)
  : OperatorLifecycleInfo :=
  {| lc_operatorName := name;
     lc_version := version;
     lc_lifecycleModel := PLATFORM_AGNOSTIC;
     lc_supportPhase := FULL_SUPPORT;
     lc_fullSupportEndsAt := None;
     lc_maintenanceSupportEndsAt := Some maintenanceSupportEndsAt;
     lc_eolAt := None;
     lc_minOCPVersion := None;
     lc_maxOCPVersion := None;
     lc_recommendedForOCPVersion := None |}.

(** A lifecycle lookup that reports every version in a given phase. *)
Definition lookup (phase : SupportPhase) (name version : string)
  : OperatorLifecycleInfo :=
  lifecycle name version phase None.

(** The paths generated for [blockedByCeiling] on the sample calendar. *)
Definition blockedByCeilingPaths : list UpgradePath :=
  match UpgradePlannerService.generateUpgradePaths 0 addMonths blockedByCeiling with
  | Ok paths => paths
  | Throw _ => []
  end.

(** Order, kind, target and versions of the steps of a path a strategy
    returned. *)
Definition result_steps (r : result (option UpgradePath))
  : result (option (list (Z * StepType * string * option string * option string))) :=
  match r with
  | Ok p =>
      Ok (option_map
            (fun path =>
               map (fun s => (step_order s, step_type s, step_target s,
                              step_fromVersion s, step_toVersion s))
                   (path_steps path))
            p)
  | Throw e => Throw e
  end.

(** One component at 1.2.0 on a deprecated channel, with upgrades of
    three magnitudes, the major one listed first. *)
Definition threeMagnitudes : OperatorStatus :=
  operator "m" "m.v1.2.0"
    [upgrade "m" "m.v1.2.0" "m.v2.0.0" "stable-2";
     upgrade "m" "m.v1.2.0" "m.v1.3.0" "fast";
     upgrade "m" "m.v1.2.0" "m.v1.2.7" "candidate"]
    [issue "m" "-stale-channel" WARNING STALE_CHANNEL].

Definition threeMagnitudesPlatform : PlatformStatus :=
  platform ["4.16.1"] [threeMagnitudes] 0 None.

(** The platform status the service builds for one component with a
    critical issue and an upgrade, and the paths generated for it. *)
Definition criticalPlatform : PlatformStatus :=
  LifecycleService.getPlatformStatus 0 (cluster ["4.16.1"])
    [operator "y" "1.2.0" [upgrade "y" "1.2.0" "2.0.0" "stable"]
       [issue "y" "-version-ceiling" CRITICAL VERSION_CEILING]].

Definition criticalPlatformPaths : list UpgradePath :=
  match UpgradePlannerService.generateUpgradePaths 0 addMonths criticalPlatform with
  | Ok paths => paths
  | Throw _ => []
  end.

(** The paths generated for [oneWithoutUpgrade]. *)
Definition oneWithoutUpgradePaths : list UpgradePath :=
  match UpgradePlannerService.generateUpgradePaths 0 addMonths oneWithoutUpgrade with
  | Ok paths => paths
  | Throw _ => []
  end.

(** A subscription that has not resolved a CSV yet. *)
Definition pendingSubscription : OLMClient.Subscription :=
  {| OLMClient.sub_name := "p";
     OLMClient.sub_namespace := "openshift-operators";
     OLMClient.sub_creationTimestamp := "2024-01-01T00:00:00Z";
     OLMClient.sub_spec :=
       Some {| OLMClient.spec_name := Some "p";
               OLMClient.spec_channel := Some "stable";
               OLMClient.spec_source := Some "redhat-operators";
               OLMClient.spec_sourceNamespace := Some "openshift-marketplace";
               OLMClient.spec_installPlanApproval := Some "Manual" |};
     OLMClient.sub_status := None |}.

(** A package manifest with a deprecated channel and a current one. *)
Definition manifest : OLMClient.PackageManifest :=
  {| OLMClient.pm_channels :=
       Some [ {| OLMClient.mc_name := "stable-1";
                 OLMClient.mc_currentCSV := "p.v1.9.0";
                 OLMClient.mc_entries := Some ["1.9.0"; "1.8.0"];
                 OLMClient.mc_deprecation :=
                   Some {| OLMClient.dep_message := Some "Use stable-2" |};
                 OLMClient.mc_currentCSVDesc := None |};
              {| OLMClient.mc_name := "stable-2";
                 OLMClient.mc_currentCSV := "p.v2.1.0";
                 OLMClient.mc_entries := None;
                 OLMClient.mc_deprecation := None;
                 OLMClient.mc_currentCSVDesc :=
                   Some {| OLMClient.desc_annotations :=
                             Some [("com.redhat.openshift.versions",
                                    "v4.14, v4.15 ,v4.16")] |} |} ] |}.

(** A cluster version on an extended-update-support channel with two
    available updates. *)
Definition clusterVersionData : LifecycleRequests.ClusterVersionData :=
  {| LifecycleRequests.cvd_status :=
       Some {| LifecycleRequests.cvs_desired :=
                 Some {| LifecycleRequests.desired_version := Some "4.16.0" |};
               LifecycleRequests.cvs_availableUpdates :=
                 Some [LifecycleService.UpdateObject (Some "4.16.1");
                       LifecycleService.UpdateString "4.16.5"] |};
     LifecycleRequests.cvd_spec :=
       Some {| LifecycleRequests.cvspec_channel := Some "eus-4.16" |} |}.

(** The same cluster version with a third update that has no
    version. *)
Definition clusterVersionUnversioned : LifecycleRequests.ClusterVersionData :=
  {| LifecycleRequests.cvd_status :=
       Some {| LifecycleRequests.cvs_desired :=
                 Some {| LifecycleRequests.desired_version := Some "4.16.0" |};
               LifecycleRequests.cvs_availableUpdates :=
                 Some [LifecycleService.UpdateObject (Some "4.16.1");
                       LifecycleService.UpdateString "4.16.5";
                       LifecycleService.UpdateObject None] |};
     LifecycleRequests.cvd_spec :=
       Some {| LifecycleRequests.cvspec_channel := Some "eus-4.16" |} |}.

(** A clock for time stamps that reads every one as the epoch. *)
Definition parseDate (_ : string) : Date := 0.

(** A step with a given estimate. *)
Definition estimated (estimatedDuration : string) : UpgradeStep :=
  {| step_order := 1;
     step_type := Operator;
     step_target := "x";
     step_fromVersion := None;
     step_toVersion := None;
     step_channel := None;
     step_description := "";
     step_estimatedDuration := estimatedDuration;
     step_requiredPrerequisites := [];
     step_rollbackStrategy := "" |}.

End Samples.

(** ** Vocabulary of the statements *)

Import UpgradePlannerService.

(** One of the issues has the given severity. *)
Definition has_severity (sev : IssueSeverity) (issues : list UpgradeIssue) : Prop :=
  exists i, In i issues /\ issue_severity i = sev.

Fixpoint digits_only (s : string) : bool :=
  match s with
  | EmptyString => true
  | String c s' => Js.is_digit c && digits_only s'
  end.

(** A non-empty string of decimal digits. *)
Definition is_number (s : string) : Prop :=
  s <> EmptyString /\ digits_only s = true.

(** The string is empty or starts with a character that is no digit. *)
Definition starts_without_digit (r : string) : Prop :=
  match r with
  | EmptyString => True
  | String c _ => Js.is_digit c = false
  end.

(** An operator step that was built for an operator of the snapshot
    from one of the upgrades listed for that operator. *)
Definition step_from (ps : PlatformStatus) (s : UpgradeStep) : Prop :=
  exists op u,
    In op (ps_operators ps)
    /\ In u (op_availableUpgrades op)
    /\ step_target s = inst_name (op_installation op)
    /\ step_fromVersion s = Some (inst_currentVersion (op_installation op))
    /\ step_toVersion s = Some (up_targetVersion u)
    /\ step_channel s = Some (up_channel u).

(** The step lists the strategies build while they process the
    operators: the verification step first, then operator steps, each
    for an operator of the snapshot and one of its listed upgrades. *)
Inductive built (ps : PlatformStatus) : Steps -> Prop :=
| built_verification d p :
    built ps (push ([], 1) (verificationStep d p))
| built_operator st op u d p r :
    built ps st ->
    In op (ps_operators ps) -> In u (op_availableUpgrades op) ->
    built ps (push st (operatorStep op u d p r)).

(** The step lists of finished paths: [target] is the entry of the
    available updates the strategy upgrades the platform to, if the
    strategy upgrades the platform at all. *)
Inductive finished (ps : PlatformStatus)
  : option (list string -> option string) -> Steps -> Prop :=
| finished_operators target st :
    built ps st -> finished ps target st
| finished_cluster pick st d p r :
    built ps st ->
    cv_availableUpdates (ps_cluster ps) <> [] ->
    finished ps (Some pick)
      (push st (clusterStep ps (pick (cv_availableUpdates (ps_cluster ps))) d p r)).

(** What holds of each step of a finished path. *)
Definition path_step_ok (ps : PlatformStatus)
    (target : option (list string -> option string)) (s : UpgradeStep) : Prop :=
  match step_type s with
  | Verification => True
  | Operator => step_from ps s
  | Cluster =>
      match target with
      | Some pick =>
          cv_availableUpdates (ps_cluster ps) <> []
          /\ step_toVersion s = pick (cv_availableUpdates (ps_cluster ps))
      | None => False
      end
  end.

(** The entries of the available updates the strategies pick:
    [availableUpdates[0]] and [availableUpdates[length - 1]]. *)
Definition first_update (updates : list string) : option string :=
  nth_error updates 0.

Definition last_update (updates : list string) : option string :=
  nth_error updates (List.length updates - 1).

(** [path] is what one of the four strategies returns on [ps]. *)
Definition generated (now : Date) (am : Date -> Z -> Date) (ps : PlatformStatus)
    (path : UpgradePath) : Prop :=
  generateCriticalIssuePath now am ps = Some path
  \/ generateConservativePath now am ps = Ok (Some path)
  \/ generateAggressivePath now am ps = Ok (Some path)
  \/ generateBalancedPath now am ps = Ok (Some path).

(** The first step is the verification step, no later step is one, and
    the steps are numbered from 1 without gaps. *)
Definition well_numbered (steps : list UpgradeStep) (order : Z) : Prop :=
  (exists first rest,
      steps = first :: rest
      /\ step_type first = Verification
      /\ Forall (fun s => step_type s <> Verification) rest)
  /\ order = Z.of_nat (List.length steps) + 1
  /\ (forall k s, nth_error steps k = Some s -> step_order s = Z.of_nat k + 1).

(** The body of the loop of [generateCriticalIssuePath] over the
    operators with a critical issue. *)
Definition criticalStep (st : Steps) (operator : OperatorStatus) : Steps :=
  match nth_error (op_availableUpgrades operator) 0 with
  | Some upgrade =>
      push st
        (operatorStep operator upgrade
           ("Upgrade " ++ inst_displayName (op_installation operator)
            ++ " to resolve critical issues")
           ["Review operator documentation"; "Check for breaking changes"]
           "Uninstall and reinstall previous version")
  | None => st
  end.

(** Every step of the path is a verification step. *)
Definition only_verification (path : UpgradePath) : Prop :=
  forall s, In s (path_steps path) -> step_type s = Verification.

(** Every listed upgrade of the operator can be compared: the cleaned
    installed version and every cleaned target version are valid. *)
Definition comparable_upgrades (op : OperatorStatus) : Prop :=
  forall u, In u (op_availableUpgrades op) ->
    Semver.valid (cleanVersion (inst_currentVersion (op_installation op))) = true
    /\ Semver.valid (cleanVersion (up_targetVersion u)) = true.

(** The operator status is one [getOperatorStatus] builds. *)
Definition assembled (op : OperatorStatus) : Prop :=
  exists now lookup installation channels updates,
    LifecycleService.getOperatorStatus now lookup installation channels updates
    = Some op.

(** A function applied to the value a computation returns. *)
Definition result_map {A B} (f : A -> B) (r : result A) : result B :=
  match r with
  | Ok a => Ok (f a)
  | Throw e => Throw e
  end.

(** What identifies a path: its id and its steps. *)
Definition path_outline (p : UpgradePath) : string * list UpgradeStep :=
  (path_id p, path_steps p).

(** The suffix of the id of an issue, from its kind and its severity;
    the detector returns no issue of the two remaining kinds. *)
Definition issue_suffix (type : IssueType) (severity : IssueSeverity)
  : option string :=
  match type, severity with
  | STALE_CHANNEL, WARNING => Some "-stale-channel"
  | LIFECYCLE_EXPIRING, WARNING => Some "-maintenance"
  | LIFECYCLE_EXPIRING, CRITICAL => Some "-eol"
  | VERSION_CEILING, CRITICAL => Some "-version-ceiling"
  | _, _ => None
  end.

(** One function of the component name and the issue kind gives the id
    of every detected issue. *)
Definition ids_from_name_and_kind : Prop :=
  exists f : string -> IssueType -> string,
    forall now installation lifecycleInfo channel updates issues i,
      LifecycleService.detectUpgradeIssues now installation lifecycleInfo channel
        updates = Ok issues ->
      In i issues ->
      issue_id i = f (inst_name installation) (issue_type i).

(** [find] found a path. *)
Definition present {A} (o : option A) : bool :=
  match o with
  | Some _ => true
  | None => false
  end.

(** The support expiry is a number other than 0 and below 90. *)
Definition expires_soon (ps : PlatformStatus) : bool :=
  match ps_supportExpiresIn ps with
  | Some days => negb (days =? 0) && (days <? 90)
  | None => false
  end.

(** The targets of the steps that are no verification step: what
    [extractAffectedComponents] reads off a path, on a step list under
    construction. *)
Definition components (st : Steps) : list string :=
  map step_target
    (filter (fun s => negb (StepType_eqb (step_type s) Verification)) (fst st)).

Definition operator_name (op : OperatorStatus) : string :=
  inst_name (op_installation op).

(** The names of the operators of the snapshot that pass a test, in the
    order of the snapshot. *)
Definition names_of (test : OperatorStatus -> bool) (ps : PlatformStatus)
  : list string :=
  map operator_name (filter test (ps_operators ps)).

Definition has_upgrade (op : OperatorStatus) : bool :=
  (0 <? List.length (op_availableUpgrades op))%nat.

Definition has_issue (op : OperatorStatus) : bool :=
  (0 <? List.length (op_issues op))%nat.

Definition has_issue_of (sev : IssueSeverity) (op : OperatorStatus) : bool :=
  existsb (fun i => IssueSeverity_eqb (issue_severity i) sev) (op_issues op).

(** What [isSignificantlyOutdated] answers. *)
Definition outdated (op : OperatorStatus) : bool :=
  match isSignificantlyOutdated op with
  | Ok b => b
  | Throw _ => false
  end.

(** The platform as a component of a path: present when the cluster
    has an available update. *)
Definition platform_component (ps : PlatformStatus) : list string :=
  if (0 <? List.length (cv_availableUpdates (ps_cluster ps)))%nat
  then ["OpenShift Cluster"] else [].

Definition critical_components (ps : PlatformStatus) : list string :=
  names_of (fun op => has_issue_of CRITICAL op && has_upgrade op) ps
  ++ platform_component ps.

Definition conservative_components (ps : PlatformStatus) : list string :=
  names_of (fun op => has_issue_of WARNING op && has_upgrade op) ps.

Definition aggressive_components (ps : PlatformStatus) : list string :=
  names_of has_upgrade ps ++ platform_component ps.

Definition balanced_components (ps : PlatformStatus) : list string :=
  names_of (fun op => (has_issue op || outdated op) && has_upgrade op) ps
  ++ platform_component ps.

(** The step list holds exactly one verification step. *)
Definition one_verification (st : Steps) : Prop :=
  List.length (fst st) = S (List.length (components st)).

(** What a strategy that drops a path of one step returns, by the
    components the path would touch. *)
Definition path_touching (comps : list string) (r : option UpgradePath) : Prop :=
  match r with
  | Some path => extractAffectedComponents path = comps /\ comps <> []
  | None => comps = []
  end.

(** The list of paths behind the four optional results. *)
Definition listed (o : option UpgradePath) : list UpgradePath :=
  match o with
  | Some path => [path]
  | None => []
  end.

(** The number of steps of a kind. *)
Definition count_type (ty : StepType) (steps : list UpgradeStep) : Z :=
  Z.of_nat (List.length (filter (fun s => StepType_eqb (step_type s) ty) steps)).

(** The rendering of a number of minutes by [calculateTotalDuration]. *)
Definition rendered_minutes (total : Z) : string :=
  if total <? 60
  then Js.number_to_string total ++ " minutes"
  else Js.number_to_string (total / 60) ++ "h "
       ++ Js.number_to_string (total mod 60) ++ "m".

(** The integer is a double: the nearest double to it is the integer
    itself. *)
Definition is_double (n : Z) : Prop := Js.double n = Js.Finite n.

(** A number of minutes: a double that is not negative, or [Infinity];
    never [NaN]. *)
Definition counted (a : Js.Number) : Prop :=
  match a with
  | Js.Finite n => 0 <= n /\ is_double n
  | Js.Infinity negative => negative = false
  | Js.NaN => False
  end.

(** The order of the numbers that are not [NaN]. *)
Definition at_most (a b : Js.Number) : Prop :=
  match a, b with
  | Js.Finite x, Js.Finite y => x <= y
  | Js.Finite _, Js.Infinity negative => negative = false
  | Js.Infinity negative, Js.Finite _ => negative = true
  | Js.Infinity negative, Js.Infinity negative' =>
      negative = true \/ negative' = false
  | _, _ => False
  end.

(** A JavaScript array holds fewer than 2^32 elements. *)
Definition array {A} (l : list A) : Prop :=
  Z.of_nat (List.length l) < 2 ^ 32.

(** The channel test of [findBalancedUpgrade]. *)
Definition on_stable_channel (u : AvailableUpgrade) : bool :=
  Js.includes (up_channel u) "stable" || Js.includes (up_channel u) "recommended".

(** A dotted triple of numbers, as the first group of the version
    pattern captures it. *)
Definition dotted (a b c : string) : string :=
  (a ++ "." ++ b ++ "." ++ c)%string.

Fixpoint all_spaces (s : string) : bool :=
  match s with
  | EmptyString => true
  | String c s' => Js.is_space c && all_spaces s'
  end.

Fixpoint no_space (s : string) : bool :=
  match s with
  | EmptyString => true
  | String c s' => negb (Js.is_space c) && no_space s'
  end.

(** The three numbers of a version the package accepts. *)
Definition version_key (s : string) : Z * Z * Z :=
  match Semver.parse s with
  | Some sv => (Semver.major sv, Semver.minor sv, Semver.patch sv)
  | None => (0, 0, 0)
  end.

Definition key_ltb (k k' : Z * Z * Z) : bool :=
  let '(a, b, c) := k in
  let '(a', b', c') := k' in
  (a <? a') || ((a =? a') && ((b <? b') || ((b =? b') && (c <? c')))).

Definition key_diff (k k' : Z * Z * Z) : option Semver.ReleaseType :=
  let '(a, b, c) := k in
  let '(a', b', c') := k' in
  if negb (a =? a') then Some Semver.Major
  else if negb (b =? b') then Some Semver.Minor
  else if negb (c =? c') then Some Semver.Patch
  else None.

(** The three numbers of the cleaned target version of an upgrade, and
    of the cleaned installed version of an operator. *)
Definition target_key (u : AvailableUpgrade) : Z * Z * Z :=
  version_key (cleanVersion (up_targetVersion u)).

Definition installed_key (op : OperatorStatus) : Z * Z * Z :=
  version_key (cleanVersion (inst_currentVersion (op_installation op))).

(** Lexicographic order on triples of numbers. *)
Definition key_lt (k k' : Z * Z * Z) : Prop :=
  let '(a, b, c) := k in
  let '(a', b', c') := k' in
  a < a' \/ (a = a' /\ (b < b' \/ (b = b' /\ c < c'))).

(** An operator step for an operator of the snapshot and the upgrade
    a selection picks for it. *)
Definition step_by (ps : PlatformStatus)
    (selected : OperatorStatus -> AvailableUpgrade -> Prop) (s : UpgradeStep) : Prop :=
  step_type s = Operator ->
  exists op u,
    In op (ps_operators ps)
    /\ selected op u
    /\ step_target s = inst_name (op_installation op)
    /\ step_fromVersion s = Some (inst_currentVersion (op_installation op))
    /\ step_toVersion s = Some (up_targetVersion u)
    /\ step_channel s = Some (up_channel u).

(** The magnitude of an upgrade over the installed version with the
    numbers [k0]. *)
Definition level (k0 : Z * Z * Z) (x : AvailableUpgrade)
  : option Semver.ReleaseType :=
  key_diff k0 (target_key x).

(** What the reduction of [findConservativeUpgrade] keeps true of its
    accumulator [closest] over the upgrades [seen] so far: it is a
    patch when one of them is, it is no major one when one of them is a
    minor one, and when it is a minor one no minor one among them is
    lower. *)
Definition conservative_invariant (k0 : Z * Z * Z) (seen : list AvailableUpgrade)
    (closest : AvailableUpgrade) : Prop :=
  ((exists x, In x seen /\ level k0 x = Some Semver.Patch) ->
   level k0 closest = Some Semver.Patch)
  /\ ((exists x, In x seen /\ level k0 x = Some Semver.Minor) ->
      level k0 closest <> Some Semver.Major)
  /\ (level k0 closest = Some Semver.Minor ->
      forall x, In x seen -> level k0 x = Some Semver.Minor ->
                ~ key_lt (target_key x) (target_key closest)).

(** One round of the reduction: what the callback returns for
    [closest] and [current]. *)
Definition conservative_next (k0 : Z * Z * Z) (closest current : AvailableUpgrade)
  : AvailableUpgrade :=
  match level k0 current with
  | Some Semver.Patch => current
  | Some Semver.Minor =>
      if key_ltb (target_key current) (target_key closest) then current
      else closest
  | _ => closest
  end.

(** All issues of the operators of a snapshot. *)
Definition all_issues (operators : list OperatorStatus) : list UpgradeIssue :=
  flat_map op_issues operators.

Definition is_critical (i : UpgradeIssue) : bool :=
  IssueSeverity_eqb (issue_severity i) CRITICAL.

(** The maintenance-support end dates [calculateSupportExpiry]
    collects: the cluster's, then the operators'. *)
Definition date_of (o : option Date) : list Date :=
  match o with
  | Some d => [d]
  | None => []
  end.

Definition maintenance_dates (cluster : ClusterVersion)
    (operators : list OperatorStatus) : list Date :=
  date_of (cv_maintenanceSupportEndsAt cluster)
  ++ flat_map (fun op => date_of (lc_maintenanceSupportEndsAt (op_lifecycleInfo op)))
       operators.

Definition day : Z := 1000 * 60 * 60 * 24.

(** The channel's current version is newer than the installed one. *)
Definition offers_newer (installation : OperatorInstallation)
    (channel : OperatorChannel) : bool :=
  match Semver.gt (cleanVersion (chan_currentCSV channel))
          (cleanVersion (inst_currentVersion installation)) with
  | Ok newer => newer
  | Throw _ => false
  end.

(** The upgrade [detectAvailableUpgrades] lists for a channel. *)
Definition upgradeTo (now : Date)
    (getOperatorLifecycleInfo : string -> string -> OperatorLifecycleInfo)
    (installation : OperatorInstallation) (channel : OperatorChannel)
  : AvailableUpgrade :=
  {| up_operatorName := inst_name installation;
     up_currentVersion := inst_currentVersion installation;
     up_targetVersion := chan_currentCSV channel;
     up_channel := chan_name channel;
     up_requiresIntermediateUpgrades := false;
     up_intermediateVersions := None;
     up_releaseDate := now;
     up_lifecycleInfo :=
       getOperatorLifecycleInfo (inst_name installation)
         (cleanVersion (chan_currentCSV channel)) |}.

(** The first channel of the catalog with the subscribed name. *)
Definition subscribed (installation : OperatorInstallation)
    (channels : list OperatorChannel) : option OperatorChannel :=
  find (fun c => String.eqb (chan_name c) (inst_currentChannel installation))
    channels.

(** The character occurs in the string. *)
Fixpoint has_char (c : ascii) (s : string) : bool :=
  match s with
  | EmptyString => false
  | String x s' => Ascii.eqb x c || has_char c s'
  end.

(** [Array.prototype.join]. *)
Fixpoint join (sep : string) (pieces : list string) : string :=
  match pieces with
  | [] => ""
  | [piece] => piece
  | piece :: rest => piece ++ sep ++ join sep rest
  end.

(** Every lifecycle information the cache holds under the key of a
    name without a colon and a version is the default one of that name
    and version. *)
Definition coherent (state : LifecycleCache.State) : Prop :=
  forall name version info,
    has_char ":" name = false ->
    LifecycleCache.get (name ++ ":" ++ version)
      (LifecycleCache.lifecycleCache state) = Some info ->
    info = LifecycleService.getDefaultLifecycleInfo name version.

(** A lifecycle information as the placeholder provides it. *)
Definition default_info (info : OperatorLifecycleInfo) : Prop :=
  exists name version, info = LifecycleService.getDefaultLifecycleInfo name version.

Definition defaults_only (state : LifecycleCache.State) : Prop :=
  forall key info,
    LifecycleCache.get key (LifecycleCache.lifecycleCache state) = Some info ->
    default_info info.

(** The look-up answers with lifecycle information as the placeholder
    provides it. *)
Definition provides_defaults
    (lookup : string -> string -> OperatorLifecycleInfo) : Prop :=
  forall name version, default_info (lookup name version).

(** The operator status is one [getOperatorStatus] builds with the
    given look-up. *)
Definition assembled_with (lookup : string -> string -> OperatorLifecycleInfo)
    (op : OperatorStatus) : Prop :=
  exists now installation channels updates,
    LifecycleService.getOperatorStatus now lookup installation channels updates
    = Some op.

(** An update that is an object without a version, or with an empty
    one. *)
Definition unversioned (u : LifecycleService.Update) : Prop :=
  match u with
  | LifecycleService.UpdateString _ => False
  | LifecycleService.UpdateObject version => Js.or_string version "" = ""
  end.

(** The strings a list of updates holds, when every update is a
    string. *)
Fixpoint update_strings (updates : list LifecycleService.Update)
  : option (list string) :=
  match updates with
  | [] => Some []
  | LifecycleService.UpdateString s :: rest =>
      option_map (cons s) (update_strings rest)
  | LifecycleService.UpdateObject _ :: _ => None
  end.

(** The mapped cluster version as the [ClusterVersion] its type
    declares, which it is when every available update is a string. *)
Definition asClusterVersion (mapped : LifecycleRequests.MappedClusterVersion)
  : option ClusterVersion :=
  option_map
    (fun availableUpdates =>
       {| cv_currentVersion := LifecycleRequests.mcv_currentVersion mapped;
          cv_desiredVersion := LifecycleRequests.mcv_desiredVersion mapped;
          cv_channel := LifecycleRequests.mcv_channel mapped;
          cv_availableUpdates := availableUpdates;
          cv_isEUS := LifecycleRequests.mcv_isEUS mapped;
          cv_fullSupportEndsAt := LifecycleRequests.mcv_fullSupportEndsAt mapped;
          cv_maintenanceSupportEndsAt :=
            LifecycleRequests.mcv_maintenanceSupportEndsAt mapped;
          cv_eolAt := LifecycleRequests.mcv_eolAt mapped |})
    (update_strings (LifecycleRequests.mcv_availableUpdates mapped)).

(** The package manifest the service asks for on behalf of a
    subscription: the one in the catalog namespace of the subscription
    under the name of the subscription. *)
Definition manifest_of (parseDate : string -> Date)
    (packageManifestOf : string -> string -> OLMClient.Response OLMClient.PackageManifest)
    (sub : OLMClient.Subscription) : OLMClient.Response OLMClient.PackageManifest :=
  packageManifestOf
    (inst_catalogNamespace (OLMClient.mapSubscriptionToInstallation parseDate sub))
    (OLMClient.sub_name sub).

(** * Properties *)

(** ** The model at known inputs *)

(** The cleaning of a cluster service version name, as in the comment
    of the helper. *)
Example cleanVersion_csv_name :
  cleanVersion "openshift-gitops-operator.v1.10.0" = "1.10.0"
  /\ cleanVersion "unknown" = "unknown"
  /\ cleanVersion "x.1.2.y.3.4.5.6" = "3.4.5".
Proof. repeat split. Qed.

(** The precedence chain of the semantic versioning specification. *)
Example semver_precedence :
  map (fun pr => Semver.lt (fst pr) (snd pr))
    [ ("1.0.0-alpha", "1.0.0-alpha.1");
      ("1.0.0-alpha.1", "1.0.0-alpha.beta");
      ("1.0.0-alpha.beta", "1.0.0-beta");
      ("1.0.0-beta", "1.0.0-beta.2");
      ("1.0.0-beta.2", "1.0.0-beta.11");
      ("1.0.0-beta.11", "1.0.0-rc.1");
      ("1.0.0-rc.1", "1.0.0");
      ("1.0.0", "2.0.0");
      ("2.0.0", "2.1.0");
      ("2.1.0", "2.1.1");
      ("1.0.0+build.1", "1.0.1+build.0") ]
  = repeat (Ok true) 11.
Proof. reflexivity. Qed.

Example semver_rejects :
  map Semver.valid
    [ "1.2"; "1.2.3.4"; "01.2.3"; "1.2.3-"; "1.2.3-01"; "1.2.3+"; "latest"; "";
      "9007199254740992.0.0" ]
  = repeat false 9
  /\ map Semver.valid
       [ "1.2.3"; "v1.2.3"; " 1.2.3 "; "1.2.3-rc.1"; "1.2.3-0.nightly-2024";
         "1.2.3+sha.5"; "0.0.0"; "9007199254740991.0.0" ]
     = repeat true 8.
Proof. split; reflexivity. Qed.

Example semver_diff :
  map (fun pr => Semver.diff (fst pr) (snd pr))
    [ ("1.2.0", "1.2.5"); ("1.2.0", "1.3.0"); ("1.2.0", "2.0.0");
      ("1.2.0", "1.2.0") ]
  = [ Ok (Some Semver.Patch); Ok (Some Semver.Minor); Ok (Some Semver.Major);
      Ok None ].
Proof. reflexivity. Qed.

(** The duration pattern on the estimates the planner writes and on
    some it does not. *)
Example duration_pattern :
  map (Js.search duration_match_at)
    [ "15 minutes"; "10-20 minutes"; "45-90 minutes"; "about 5 minute";
      "5-10-20 minutes"; "10- minutes"; "an hour" ]
  = [ Some ("15", None); Some ("10", Some "20"); Some ("45", Some "90");
      Some ("5", None); Some ("10", Some "20"); Some ("10", None); None ].
Proof. reflexivity. Qed.

(** Doubles at known inputs: the nearest double above 2^53, a tie
    going to the even neighbour; the overflow to [Infinity]; a quotient
    that is rounded up to an integer before [Math.floor] is taken; the
    numerals of doubles below and above 2^53 and from 10^21 on. *)
Example doubles_at_known_inputs :
  map Js.double
    [ 2 ^ 53 + 1; 2 ^ 53 + 2; 2 ^ 53 + 3; 10 ^ 23; 2 ^ 1024 - 2 ^ 970 - 1;
      2 ^ 1024 - 2 ^ 970 ]
  = [ Js.Finite (2 ^ 53); Js.Finite (2 ^ 53 + 2); Js.Finite (2 ^ 53 + 4);
      Js.Finite 99999999999999991611392; Js.Finite (2 ^ 1024 - 2 ^ 971);
      Js.Infinity false ]
  /\ Js.add (Js.Finite (2 ^ 53)) (Js.Finite 1) = Js.Finite (2 ^ 53)
  /\ map (fun x => Js.floor_div (Js.Finite x) 60)
       [ 125; 9007199254740992; 68380181051760536 ]
     = [ Js.Finite 2; Js.Finite 150119987579016; Js.Finite 1139669684196009 ]
  /\ 68380181051760536 / 60 = 1139669684196008
  /\ map Js.to_string
       [ Js.Finite 125; Js.Finite 9007199254740992; Js.Finite (2 ^ 60);
         Js.Finite 123456789012345683968; Js.Finite (10 ^ 21);
         Js.Finite 99999999999999991611392; Js.Infinity false; Js.NaN ]
     = [ "125"; "9007199254740992"; "1152921504606847000";
         "123456789012345680000"; "1e+21"; "1e+23"; "Infinity"; "NaN" ].
Proof. repeat split; vm_compute; reflexivity. Qed.

(** The duration estimate on steps with an estimate of their own. *)
Example duration_of_estimates :
  map (fun estimate => calculateTotalDuration [Samples.estimated estimate])
    [ "15 minutes"; "45-90 minutes"; "20-10 minutes"; "1 minute"; "an hour";
      "9007199254740993 minutes"; "1000000000000000000000 minutes";
      "10000000000000000000000000 minutes";
      ("1" ++ Js.zeros 309 ++ " minutes")%string ]
  = [ "15 minutes"; "1h 30m"; "10 minutes"; "1 minutes"; "0 minutes";
      "150119987579016h 32m"; "16666666666666666000h 40m";
      "1.666666666666667e+23h 4m"; "Infinityh NaNm" ].
Proof. vm_compute. reflexivity. Qed.

(** A component at 1.2.0 with one upgrade to 1.2.5 and no issue: no
    critical-issues path, no conservative path, and an aggressive path
    with the step 1.2.0 to 1.2.5. *)
Example scenario_patch_available :
  generateCriticalIssuePath 0 Samples.addMonths (Samples.patchAvailable None) = None
  /\ generateConservativePath 0 Samples.addMonths (Samples.patchAvailable None)
     = Ok None
  /\ Samples.result_steps
       (generateAggressivePath 0 Samples.addMonths (Samples.patchAvailable None))
     = Ok (Some [ (1, Verification, "cluster", None, None);
                  (2, Operator, "x", Some "1.2.0", Some "1.2.5") ]).
Proof. repeat split. Qed.

(** A component with a critical version-ceiling issue and an upgrade to
    2.0.0, on a platform with the updates 4.16.1 and 4.16.5: the
    critical-issues path verifies, upgrades the component, then upgrades
    the platform to 4.16.1, and is estimated at 15 + 20 + 90 minutes. *)
Example scenario_blocked_by_ceiling :
  Samples.result_steps (Ok (generateCriticalIssuePath 0 Samples.addMonths
                      Samples.blockedByCeiling))
  = Ok (Some [ (1, Verification, "cluster", None, None);
               (2, Operator, "y", Some "1.2.0", Some "2.0.0");
               (3, Cluster, "OpenShift Cluster", Some "4.16.0", Some "4.16.1") ])
  /\ option_map path_estimatedDuration
       (generateCriticalIssuePath 0 Samples.addMonths Samples.blockedByCeiling)
     = Some "2h 5m".
Proof. split; reflexivity. Qed.

(** ** Generic facts about loops and backtracking *)

Section Loops.

Context {S A : Type}.

Lemma for_each_invariant (I : S -> Prop) (body : S -> A -> result S) :
  forall l s s',
    (forall st a st', In a l -> I st -> body st a = Ok st' -> I st') ->
    I s -> for_each body l s = Ok s' -> I s'.
Proof.
  induction l as [|a l IH]; simpl; intros s s' Hstep Hs Hrun.
  - now inversion Hrun; subst.
  - destruct (body s a) as [s1|e] eqn:Hb; simpl in Hrun; [|discriminate].
    apply (IH s1 s'); eauto.
Qed.

Lemma for_each_returns (I : S -> Prop) (body : S -> A -> result S) :
  forall l s,
    (forall st a, In a l -> I st -> exists st', body st a = Ok st' /\ I st') ->
    I s -> exists s', for_each body l s = Ok s' /\ I s'.
Proof.
  induction l as [|a l IH]; simpl; intros s Hstep Hs.
  - eauto.
  - destruct (Hstep s a) as (s1 & Hb & Hs1); auto.
    rewrite Hb; simpl. apply IH; eauto.
Qed.

Lemma fold_left_invariant (I : S -> Prop) (body : S -> A -> S) :
  forall l s,
    (forall st a, In a l -> I st -> I (body st a)) ->
    I s -> I (fold_left body l s).
Proof.
  induction l as [|a l IH]; simpl; intros s Hstep Hs; auto.
Qed.

End Loops.

Lemma reduce_picks {A} (callback : A -> A -> result A) (l : list A) (r : A) :
  (forall a b c, callback a b = Ok c -> c = a \/ c = b) ->
  reduce callback l = Ok r -> In r l.
Proof.
  intros Hpick. destruct l as [|x l]; simpl; [discriminate|].
  intros Hrun.
  apply (for_each_invariant (fun c => In c (x :: l)) callback l x r); simpl; auto.
  intros st a st' Ha Hst Hcb.
  destruct (Hpick _ _ _ Hcb) as [-> | ->]; auto.
Qed.

Lemma first_match_some {A B} (alts : list A) (k : A -> option B) (b : B) :
  Js.first_match alts k = Some b -> exists a, In a alts /\ k a = Some b.
Proof.
  induction alts as [|a alts IH]; simpl; [discriminate|].
  destruct (k a) as [b'|] eqn:Hk.
  - intros [= <-]. eauto.
  - intros H. destruct (IH H) as (a' & Hin & Hk'). eauto.
Qed.

Lemma search_some {B} (match_at : string -> option B) (s : string) (b : B) :
  Js.search match_at s = Some b -> exists t, match_at t = Some b.
Proof.
  induction s as [|c s IH]; simpl.
  - destruct (match_at "") eqn:H; [intros [= <-]; eauto | discriminate].
  - destruct (match_at (String c s)) eqn:H; [intros [= <-]; eauto | auto].
Qed.

(** ** Health status *)

Lemma IssueSeverity_eqb_eq (a b : IssueSeverity) :
  IssueSeverity_eqb a b = true <-> a = b.
Proof. destruct a, b; simpl; split; congruence. Qed.

Lemma existsb_has_severity (sev : IssueSeverity) (issues : list UpgradeIssue) :
  existsb (fun i => IssueSeverity_eqb (issue_severity i) sev) issues = true
  <-> has_severity sev issues.
Proof.
  rewrite existsb_exists. unfold has_severity.
  split; intros (i & Hin & H); exists i; split; auto;
    now apply IssueSeverity_eqb_eq.
Qed.

Lemma calculateHealthStatus_cases (issues : list UpgradeIssue) :
  (LifecycleService.calculateHealthStatus issues = Critical
   <-> has_severity CRITICAL issues)
  /\ (LifecycleService.calculateHealthStatus issues = Warning
      <-> ~ has_severity CRITICAL issues /\ has_severity WARNING issues)
  /\ (LifecycleService.calculateHealthStatus issues = Healthy
      <-> ~ has_severity CRITICAL issues /\ ~ has_severity WARNING issues).
Proof.
  unfold LifecycleService.calculateHealthStatus.
  pose proof (existsb_has_severity CRITICAL issues) as Hc.
  pose proof (existsb_has_severity WARNING issues) as Hw.
  destruct (existsb _ issues) eqn:Ec in Hc |- *.
  - assert (has_severity CRITICAL issues) by now apply Hc.
    clear Hc Hw. intuition discriminate.
  - assert (~ has_severity CRITICAL issues)
      by (intros H; apply Hc in H; discriminate).
    clear Hc.
    destruct (existsb _ issues) eqn:Ew in Hw |- *.
    + assert (has_severity WARNING issues) by now apply Hw.
      clear Hw. intuition discriminate.
    + assert (~ has_severity WARNING issues)
        by (intros Hx; apply Hw in Hx; discriminate).
      clear Hw. intuition discriminate.
Qed.

Lemma getOperatorStatus_health now lookup installation channels updates st :
  LifecycleService.getOperatorStatus now lookup installation channels updates
  = Some st ->
  op_healthStatus st = LifecycleService.calculateHealthStatus (op_issues st).
Proof.
  unfold LifecycleService.getOperatorStatus.
  destruct (LifecycleService.detectAvailableUpgrades _ _ _ _); [|discriminate].
  destruct (LifecycleService.detectUpgradeIssues _ _ _ _ _); [|discriminate].
  intros [= <-]. reflexivity.
Qed.

(** C10. Every operator status the lifecycle service builds has health
    [critical] exactly when one of its issues is critical; otherwise
    [warning] exactly when one of its issues is a warning; otherwise
    [healthy]. *)
Theorem operator_health_follows_issue_severity :
  forall now lookup installation channels updates st,
    LifecycleService.getOperatorStatus now lookup installation channels updates
    = Some st ->
    (op_healthStatus st = Critical <-> has_severity CRITICAL (op_issues st))
    /\ (op_healthStatus st = Warning
        <-> ~ has_severity CRITICAL (op_issues st)
            /\ has_severity WARNING (op_issues st))
    /\ (op_healthStatus st = Healthy
        <-> ~ has_severity CRITICAL (op_issues st)
            /\ ~ has_severity WARNING (op_issues st)).
Proof.
  intros now lookup installation channels updates st Hst.
  rewrite (getOperatorStatus_health _ _ _ _ _ _ Hst).
  apply calculateHealthStatus_cases.
Qed.

(** ** Duration estimate *)

Lemma digit_splits_number (s p r : string) :
  In (p, r) (Js.digit_splits s) -> is_number p.
Proof.
  revert p r. induction s as [|c s IH]; simpl; intros p r Hin; [tauto|].
  destruct (Js.is_digit c) eqn:Hc; [|contradiction].
  apply in_app_or in Hin. destruct Hin as [Hin|Hin].
  - apply in_map_iff in Hin. destruct Hin as ([p' r'] & [= <- <-] & Hin).
    destruct (IH _ _ Hin) as [_ Hd]. split; [discriminate|].
    simpl. now rewrite Hc.
  - destruct Hin as [[= <- <-]|[]]. split; [discriminate|].
    simpl. now rewrite Hc.
Qed.

Lemma is_digit_range (c : ascii) :
  Js.is_digit c = true -> (48 <= nat_of_ascii c <= 57)%nat.
Proof.
  unfold Js.is_digit. cbv zeta. intros H.
  apply andb_prop in H. destruct H as [H1 H2].
  apply Nat.leb_le in H1. apply Nat.leb_le in H2. lia.
Qed.

Lemma digit_value_nonneg (c : ascii) : Js.is_digit c = true -> 0 <= Js.digit_value c.
Proof.
  intros H. apply is_digit_range in H. unfold Js.digit_value. lia.
Qed.

Lemma digits_value_nonneg (s : string) :
  forall acc, 0 <= acc -> 0 <= Js.digits_value acc s.
Proof.
  induction s as [|c s IH]; intros acc Hacc; cbn [Js.digits_value];
    [assumption|].
  destruct (Js.is_digit c) eqn:Hc; [|assumption].
  apply IH. pose proof (digit_value_nonneg c Hc). lia.
Qed.

Lemma digit_not_space (c : ascii) : Js.is_digit c = true -> Js.is_space c = false.
Proof.
  intros H. apply is_digit_range in H. unfold Js.is_space. cbv zeta.
  apply orb_false_iff. split.
  - apply andb_false_iff. right. apply Nat.leb_gt. lia.
  - apply Nat.eqb_neq. lia.
Qed.

Lemma parseInt_number (s : string) :
  is_number s -> Js.parseInt s = Js.double (Js.digits_value 0 s).
Proof.
  intros [Hne Hd]. destruct s as [|c s]; [congruence|].
  simpl in Hd. apply andb_prop in Hd. destruct Hd as [Hc Hd].
  unfold Js.parseInt. simpl Js.skip_spaces.
  rewrite (digit_not_space c Hc).
  assert (Hsign : c <> "-"%char /\ c <> "+"%char).
  { split; intros ->; discriminate. }
  destruct Hsign as [Hm Hp].
  assert (Hbody :
    match String c s with
    | String "-" s' => (-1, s')
    | String "+" s' => (1, s')
    | _ => (1, String c s)
    end = (1, String c s)).
  { destruct c as [[] [] [] [] [] [] [] []]; try reflexivity; congruence. }
  rewrite Hbody. simpl Js.starts_with_digit. rewrite Hc.
  f_equal. lia.
Qed.

Lemma duration_match_at_numbers (s group1 : string) (group2 : option string) :
  duration_match_at s = Some (group1, group2) ->
  is_number group1 /\ (forall d, group2 = Some d -> is_number d).
Proof.
  unfold duration_match_at. intros H.
  apply first_match_some in H. destruct H as ([g1 s1] & Hin1 & H).
  apply first_match_some in H. destruct H as (s2 & _ & H).
  apply first_match_some in H. destruct H as ([g2 s3] & Hin2 & H).
  apply first_match_some in H. destruct H as (s4 & _ & H).
  destruct (Js.literal "minute" s4); [|discriminate].
  injection H as <- <-. split.
  - eapply digit_splits_number; eauto.
  - intros d ->. apply in_app_or in Hin2. destruct Hin2 as [Hin2|Hin2].
    + apply in_map_iff in Hin2. destruct Hin2 as ([p r] & [= <- <-] & Hin2).
      eapply digit_splits_number; eauto.
    + destruct Hin2 as [[=]|[]].
Qed.

Lemma or_string_number (group1 : string) (group2 : option string) :
  is_number group1 -> (forall d, group2 = Some d -> is_number d) ->
  is_number (Js.or_string group2 group1).
Proof.
  intros H1 H2. destruct group2 as [d|]; simpl; [|assumption].
  destruct (Js.truthy_string d); auto.
Qed.

(** ** Doubles *)

Lemma Finite_inj (x y : Z) : Js.Finite x = Js.Finite y -> x = y.
Proof. now intros [= ->]. Qed.

Lemma double_small (n : Z) : Z.abs n <= 2 ^ 53 -> Js.double n = Js.Finite n.
Proof.
  intros H. unfold Js.double. cbv zeta.
  apply Z.leb_le in H. now rewrite H.
Qed.

Lemma nearest_even_cases (m r2 unit : Z) :
  Js.nearest_even m r2 unit = m \/ Js.nearest_even m r2 unit = m + 1.
Proof.
  unfold Js.nearest_even.
  destruct (r2 <? unit); [now left|].
  destruct (unit <? r2); [now right|].
  destruct (Z.even m); [now left|now right].
Qed.

Lemma nearest_even_exact (m unit : Z) : 0 < unit -> Js.nearest_even m 0 unit = m.
Proof.
  intros H. unfold Js.nearest_even. apply Z.ltb_lt in H. now rewrite H.
Qed.

(** The units of a number above 2^53. *)
Lemma double_large (a : Z) :
  2 ^ 53 < a ->
  let e := Z.log2 a - 52 in
  1 <= e
  /\ 2 ^ 52 * 2 ^ e <= a < 2 ^ 53 * 2 ^ e
  /\ 2 ^ 52 <= a / 2 ^ e < 2 ^ 53.
Proof.
  intros Ha e.
  assert (Hpos : 0 < a) by lia.
  pose proof (Z.log2_spec a Hpos) as [Hlo Hhi].
  assert (Hlog : 53 <= Z.log2 a).
  { apply Z.log2_le_pow2; lia. }
  assert (He : 1 <= e) by (unfold e; lia).
  assert (H52 : 2 ^ Z.log2 a = 2 ^ 52 * 2 ^ e).
  { unfold e. rewrite <- Z.pow_add_r by lia. f_equal. lia. }
  assert (H53 : 2 ^ Z.succ (Z.log2 a) = 2 ^ 53 * 2 ^ e).
  { unfold e. rewrite <- Z.pow_add_r by lia. f_equal. lia. }
  assert (HP : 0 < 2 ^ e) by (apply Z.pow_pos_nonneg; lia).
  split; [exact He|]. split; [lia|]. split.
  - apply Z.div_le_lower_bound; lia.
  - apply Z.div_lt_upper_bound; lia.
Qed.

Lemma log2_units (m e : Z) :
  0 <= e -> 2 ^ 52 <= m < 2 ^ 53 -> Z.log2 (m * 2 ^ e) = 52 + e.
Proof.
  intros He Hm.
  assert (HP : 0 < 2 ^ e) by (apply Z.pow_pos_nonneg; lia).
  apply Z.log2_unique; [lia|].
  replace (Z.succ (52 + e)) with (53 + e) by lia.
  rewrite !Z.pow_add_r by lia. nia.
Qed.

(** A whole number of units, of 53 bits, is a double. *)
Lemma double_units (m e : Z) :
  1 <= e -> 2 ^ 52 <= m <= 2 ^ 53 -> m * 2 ^ e < 2 ^ 1024 ->
  is_double (m * 2 ^ e).
Proof.
  intros He Hm Hfin. unfold is_double.
  assert (HP : 0 < 2 ^ e) by (apply Z.pow_pos_nonneg; lia).
  assert (HP2 : 2 <= 2 ^ e).
  { change 2 with (2 ^ 1) at 1. apply Z.pow_le_mono_r; lia. }
  unfold Js.double. cbv zeta.
  rewrite Z.abs_eq by nia.
  destruct (m * 2 ^ e <=? 2 ^ 53) eqn:Hsmall; [reflexivity|].
  apply Z.leb_gt in Hsmall.
  assert (Hsgn : Z.sgn (m * 2 ^ e) = 1) by (apply Z.sgn_pos; nia).
  destruct (Z.eq_dec m (2 ^ 53)) as [->|Hne].
  - assert (Hlog : Z.log2 (2 ^ 53 * 2 ^ e) = 53 + e).
    { rewrite <- Z.pow_add_r by lia. apply Z.log2_pow2. lia. }
    rewrite Hlog.
    replace (53 + e - 52) with (e + 1) by lia.
    assert (Hsplit : 2 ^ 53 * 2 ^ e = 2 ^ 52 * 2 ^ (e + 1)).
    { rewrite <- !Z.pow_add_r by lia. f_equal. lia. }
    assert (HP' : 0 < 2 ^ (e + 1)) by (apply Z.pow_pos_nonneg; lia).
    rewrite Hsplit, Z.div_mul, Z.mod_mul by lia.
    rewrite nearest_even_exact by lia.
    rewrite <- Hsplit. apply Z.ltb_lt in Hfin. rewrite Hfin, Hsgn.
    f_equal. lia.
  - rewrite (log2_units m e) by lia.
    replace (52 + e - 52) with e by lia.
    rewrite Z.div_mul, Z.mod_mul by lia.
    rewrite nearest_even_exact by lia.
    apply Z.ltb_lt in Hfin. rewrite Hfin, Hsgn. f_equal. lia.
Qed.

(** A double above 2^53 is a whole number of its units. *)
Lemma is_double_units (x : Z) :
  2 ^ 53 < x -> is_double x ->
  x = x / 2 ^ (Z.log2 x - 52) * 2 ^ (Z.log2 x - 52).
Proof.
  intros Hx Hd. unfold is_double, Js.double in Hd. cbv zeta in Hd.
  rewrite Z.abs_eq in Hd by lia.
  assert (Hbig : (x <=? 2 ^ 53) = false) by (apply Z.leb_gt; lia).
  rewrite Hbig in Hd.
  destruct (double_large x Hx) as (He & Hrange & Hq).
  set (e := Z.log2 x - 52) in *.
  assert (HP : 0 < 2 ^ e) by (apply Z.pow_pos_nonneg; lia).
  destruct (_ <? 2 ^ 1024); [|discriminate Hd].
  apply Finite_inj in Hd. rewrite Z.sgn_pos in Hd by lia.
  pose proof (Z.div_mod x (2 ^ e) ltac:(lia)) as Hdm.
  pose proof (Z.mod_pos_bound x (2 ^ e) HP) as Hmod.
  destruct (nearest_even_cases (x / 2 ^ e) (2 * (x mod 2 ^ e)) (2 ^ e)) as [Hm|Hm];
    rewrite Hm in Hd; nia.
Qed.

(** The sum of a double and a number that is not negative is not below
    the double, and is a double or infinite. *)
Lemma double_above (x y : Z) :
  0 <= x -> 0 <= y -> is_double x ->
  (exists v, Js.double (x + y) = Js.Finite v /\ x <= v /\ is_double v)
  \/ Js.double (x + y) = Js.Infinity false.
Proof.
  intros Hx Hy Hd.
  destruct (Z_le_gt_dec (x + y) (2 ^ 53)) as [Hsmall|Hbig].
  - left. exists (x + y).
    assert (H : Js.double (x + y) = Js.Finite (x + y))
      by (apply double_small; rewrite Z.abs_eq; lia).
    split; [exact H|]. split; [lia|exact H].
  - assert (Ha : 2 ^ 53 < x + y) by lia.
    destruct (double_large (x + y) Ha) as (He & Hrange & Hq).
    unfold Js.double. cbv zeta.
    rewrite Z.abs_eq by lia.
    assert (Hbig' : (x + y <=? 2 ^ 53) = false) by (apply Z.leb_gt; lia).
    rewrite Hbig'.
    set (a := x + y) in *. set (e := Z.log2 a - 52) in *.
    assert (HP : 0 < 2 ^ e) by (apply Z.pow_pos_nonneg; lia).
    set (m := Js.nearest_even (a / 2 ^ e) (2 * (a mod 2 ^ e)) (2 ^ e)).
    assert (Hm : a / 2 ^ e <= m <= a / 2 ^ e + 1).
    { unfold m.
      destruct (nearest_even_cases (a / 2 ^ e) (2 * (a mod 2 ^ e)) (2 ^ e))
        as [->| ->]; lia. }
    assert (Hneg : (a <? 0) = false) by (apply Z.ltb_ge; lia).
    rewrite Hneg.
    destruct (m * 2 ^ e <? 2 ^ 1024) eqn:Hfin; [|now right].
    apply Z.ltb_lt in Hfin. left. exists (m * 2 ^ e).
    rewrite Z.sgn_pos by lia.
    split; [f_equal; lia|]. split.
    + assert (Hfloor : x <= a / 2 ^ e * 2 ^ e).
      { destruct (Z_lt_ge_dec x (2 ^ 52 * 2 ^ e)) as [Hlt|Hge]; [nia|].
        destruct (Z.eq_dec x (2 ^ 52 * 2 ^ e)) as [Heq|Hne]; [nia|].
        assert (Hx53 : 2 ^ 53 < x).
        { assert (2 * 2 ^ 52 <= 2 ^ 52 * 2 ^ e); [|lia].
          assert (2 ^ 1 <= 2 ^ e) by (apply Z.pow_le_mono_r; lia). lia. }
        assert (Hlog : Z.log2 x = Z.log2 a).
        { apply Z.le_antisymm.
          - apply Z.log2_le_mono. unfold a. lia.
          - replace (Z.log2 a) with (52 + e) by (unfold e; lia).
            apply Z.log2_le_pow2; [lia|].
            rewrite Z.pow_add_r by lia. lia. }
        pose proof (is_double_units x Hx53 Hd) as Hunits.
        rewrite Hlog in Hunits. fold e in Hunits.
        assert (Hdiv : x / 2 ^ e <= a / 2 ^ e)
          by (apply Z.div_le_mono; unfold a; lia).
        nia. }
      nia.
    + apply double_units; lia.
Qed.

Lemma double_counted (n : Z) : 0 <= n -> counted (Js.double n).
Proof.
  intros Hn.
  destruct (double_above 0 n ltac:(lia) Hn) as [(v & Hv & Hpos & Hd)| Hinf];
    [reflexivity| |].
  - cbn [Z.add] in Hv. rewrite Hv. now split.
  - cbn [Z.add] in Hinf. now rewrite Hinf.
Qed.

Lemma add_counted (a b : Js.Number) :
  counted a -> counted b -> counted (Js.add a b) /\ at_most a (Js.add a b).
Proof.
  destruct a as [x|[]|], b as [y|[]|]; cbn [counted Js.add Bool.eqb];
    intros Ha Hb; try discriminate Ha; try discriminate Hb;
    try contradiction.
  - destruct Ha as [Hx Hdx]. destruct Hb as [Hy Hdy].
    destruct (double_above x y Hx Hy Hdx) as [(v & -> & Hle & Hdv)| ->];
      cbn [counted at_most].
    + split; [split; [lia|exact Hdv]|exact Hle].
    + split; reflexivity.
  - split; reflexivity.
  - split; [reflexivity|]. cbn [at_most]. now right.
  - split; [reflexivity|]. cbn [at_most]. now right.
Qed.

Lemma at_most_not_lt (a b : Js.Number) : at_most a b -> Js.lt b a = false.
Proof.
  destruct a as [x|[]|], b as [y|[]|]; cbn [at_most Js.lt negb andb];
    try tauto; try discriminate; try reflexivity.
  - intros H. now apply Z.ltb_ge.
  - intros [H|H]; discriminate H.
Qed.

Lemma add_zero (a : Js.Number) : counted a -> Js.add a (Js.Finite 0) = a.
Proof.
  destruct a as [x|negative|]; cbn [counted Js.add]; [|reflexivity|tauto].
  intros [_ Hd]. now rewrite Z.add_0_r.
Qed.

(** The quotient by 60 of a number below 2^53 is rounded down as the
    quotient of the integers is: the nearest double is above the
    quotient only by less than the distance to the next integer. *)
Lemma nearest_even_below (q w : Z) :
  2 * w < 60 -> Js.nearest_even q (2 * w) 60 = q.
Proof.
  intros H. unfold Js.nearest_even. apply Z.ltb_lt in H. now rewrite H.
Qed.

Lemma floor_units (t E : Z) :
  0 <= t -> (E = 32 \/ 64 <= E) ->
  Js.nearest_even (t * E / 60) (2 * ((t * E) mod 60)) 60 / E = t / 60.
Proof.
  intros Ht HE.
  assert (HEpos : 0 < E) by lia.
  pose proof (Z.div_mod t 60 ltac:(lia)) as Ht60.
  pose proof (Z.mod_pos_bound t 60 ltac:(lia)) as Hr0.
  pose proof (Z.div_mod (t * E) 60 ltac:(lia)) as HtE.
  pose proof (Z.mod_pos_bound (t * E) 60 ltac:(lia)) as Hw.
  set (k := t / 60) in *. set (r0 := t mod 60) in *.
  set (q := t * E / 60) in *. set (w := (t * E) mod 60) in *.
  assert (Hlow : k * E <= q) by nia.
  assert (Hup : q < (k + 1) * E) by nia.
  symmetry. apply Z.div_unique with
    (r := Js.nearest_even q (2 * w) 60 - k * E); [|lia].
  left.
  destruct (nearest_even_cases q (2 * w) 60) as [Hm|Hm]; rewrite Hm; [lia|].
  split; [lia|].
  destruct HE as [->|HE].
  - destruct (Z.eq_dec q (k * 32 + 31)) as [Hq|Hq]; [|lia].
    exfalso.
    assert (Hr59 : r0 = 59) by nia.
    assert (Hw28 : w = 28) by nia.
    rewrite nearest_even_below in Hm by lia. lia.
  - nia.
Qed.

Lemma floor_quotient_small (t : Z) :
  0 < t < 2 ^ 53 -> Js.floor_quotient t 60 = t / 60.
Proof.
  intros Ht. unfold Js.floor_quotient. cbv zeta.
  rewrite Z.abs_eq by lia.
  assert (Hnz : (t =? 0) = false) by (apply Z.eqb_neq; lia).
  rewrite Hnz. change (Z.log2 60) with 5.
  assert (Hlog : 0 <= Z.log2 t <= 52).
  { split; [apply Z.log2_nonneg|].
    assert (Z.log2 t < 53); [|lia]. apply Z.log2_lt_pow2; lia. }
  set (e0 := Z.log2 t - 5 - 52).
  assert (He0 : e0 <= -5) by (unfold e0; lia).
  assert (Hneg0 : (0 <=? e0) = false) by (apply Z.leb_gt; lia).
  rewrite Hneg0. cbn [fst snd].
  set (e := if t * 2 ^ (- e0) / 60 <? 2 ^ 52 then e0 - 1 else e0).
  assert (He : e <= -5) by (unfold e; destruct (_ <? _); lia).
  assert (Hneg : (0 <=? e) = false) by (apply Z.leb_gt; lia).
  rewrite Hneg.
  rewrite Z.sgn_pos, Z.mul_1_l by lia.
  apply floor_units; [lia|].
  destruct (Z.eq_dec e (-5)) as [->|Hne]; [now left|right].
  change 64 with (2 ^ 6). apply Z.pow_le_mono_r; lia.
Qed.

Lemma to_string_small (n : Z) :
  0 <= n < 2 ^ 53 -> Js.to_string (Js.Finite n) = Js.number_to_string n.
Proof.
  intros [Hlo Hhi]. unfold Js.to_string, Js.digits.
  apply Z.ltb_ge in Hlo. apply Z.ltb_lt in Hhi. now rewrite Hlo, Hhi.
Qed.

(** ** Minutes of a step and of a list of steps *)

Lemma stepMinutes_counted (step : UpgradeStep) : counted (stepMinutes step).
Proof.
  unfold stepMinutes.
  destruct (Js.search duration_match_at (step_estimatedDuration step))
    as [[group1 group2]|] eqn:Hs.
  - apply search_some in Hs. destruct Hs as (t & Ht).
    apply duration_match_at_numbers in Ht. destruct Ht as [H1 H2].
    rewrite parseInt_number by now apply or_string_number.
    apply double_counted, digits_value_nonneg. lia.
  - split; [lia|reflexivity].
Qed.

Lemma totalMinutes_app (steps : list UpgradeStep) (step : UpgradeStep) :
  totalMinutes (steps ++ [step]) = Js.add (totalMinutes steps) (stepMinutes step).
Proof. unfold totalMinutes. now rewrite fold_left_app. Qed.

Lemma totalMinutes_counted (steps : list UpgradeStep) : counted (totalMinutes steps).
Proof.
  induction steps as [|step steps IH] using rev_ind.
  - split; [lia|reflexivity].
  - rewrite totalMinutes_app.
    now apply add_counted; [|apply stepMinutes_counted].
Qed.

(** Below 2^53 the total is rendered as the integer it is. *)
Lemma calculateTotalDuration_rendered (steps : list UpgradeStep) (total : Z) :
  totalMinutes steps = Js.Finite total -> 0 <= total < 2 ^ 53 ->
  calculateTotalDuration steps = rendered_minutes total.
Proof.
  intros Ht Hrange. unfold calculateTotalDuration, rendered_minutes. cbv zeta.
  rewrite Ht. cbn [Js.lt Js.floor_div Js.rem].
  destruct (total <? 60) eqn:Hsmall.
  - now rewrite to_string_small.
  - apply Z.ltb_ge in Hsmall.
    rewrite floor_quotient_small by lia.
    rewrite Z.rem_mod_nonneg by lia.
    assert (Hq : 0 <= total / 60 < 2 ^ 53).
    { split; [apply Z.div_pos; lia|].
      apply Z.div_lt_upper_bound; lia. }
    pose proof (Z.mod_pos_bound total 60 ltac:(lia)) as Hm.
    rewrite !to_string_small by lia. reflexivity.
Qed.

(** ** Estimates written as a number or as a range *)

Lemma digit_splits_without_digit (r : string) :
  starts_without_digit r -> Js.digit_splits r = [].
Proof. destruct r as [|c r]; simpl; [reflexivity|]. now intros ->. Qed.

Lemma digit_splits_longest (d r : string) :
  is_number d -> starts_without_digit r ->
  exists shorter, Js.digit_splits (d ++ r) = (d, r) :: shorter.
Proof.
  intros [Hne Hd] Hr. induction d as [|c d IH]; [congruence|].
  simpl in Hd. apply andb_prop in Hd. destruct Hd as [Hc Hd].
  simpl. rewrite Hc. destruct d as [|c' d'].
  - simpl. rewrite (digit_splits_without_digit r Hr). simpl. eauto.
  - destruct IH as (shorter & ->); [discriminate|assumption|].
    simpl. eauto.
Qed.

Lemma search_at_head {B} (match_at : string -> option B) (s : string) (b : B) :
  match_at s = Some b -> Js.search match_at s = Some b.
Proof. intros H. destruct s; simpl; now rewrite H. Qed.

Lemma range_estimate_groups (lo hi rest : string) :
  is_number lo -> is_number hi ->
  Js.search duration_match_at (lo ++ "-" ++ hi ++ " minutes" ++ rest)
  = Some (lo, Some hi).
Proof.
  intros Hlo Hhi. apply search_at_head. unfold duration_match_at.
  destruct (digit_splits_longest lo ("-" ++ hi ++ " minutes" ++ rest) Hlo)
    as (shorter1 & ->); [reflexivity|].
  destruct (digit_splits_longest hi (" minutes" ++ rest) Hhi)
    as (shorter2 & Hsplit); [reflexivity|].
  cbn [Js.first_match Js.optional_char append Ascii.eqb Bool.eqb].
  cbn [append] in Hsplit. rewrite Hsplit. reflexivity.
Qed.

Lemma single_estimate_groups (n rest : string) :
  is_number n ->
  Js.search duration_match_at (n ++ " minutes" ++ rest) = Some (n, None).
Proof.
  intros Hn. apply search_at_head. unfold duration_match_at.
  destruct (digit_splits_longest n (" minutes" ++ rest) Hn) as (shorter & ->);
    [reflexivity|].
  reflexivity.
Qed.

(** C9, as the code has it.  Appending a step never lowers the total
    number of minutes that [calculateTotalDuration] renders: the total
    is a double that is not negative or is infinite, never [NaN], and
    the total of the longer list is the sum of the total of the
    original list and of the minutes of the added step.  A step whose
    estimate reads [n minutes] contributes [n]; a step whose estimate
    reads [lo-hi minutes] contributes [hi], the second number, which is
    the upper bound when [lo] does not exceed [hi]; a step whose
    estimate names no minutes contributes nothing.  The numbers are
    doubles: a number up to 2^53 is counted as it is, a greater one as
    the double nearest to it.  The planner's own steps count 15, 20 and
    90 minutes. *)
Theorem total_duration_monotonic :
  forall (steps : list UpgradeStep) (step : UpgradeStep),
    counted (totalMinutes steps)
    /\ counted (stepMinutes step)
    /\ totalMinutes (steps ++ [step])
       = Js.add (totalMinutes steps) (stepMinutes step)
    /\ at_most (totalMinutes steps) (totalMinutes (steps ++ [step]))
    /\ Js.lt (totalMinutes (steps ++ [step])) (totalMinutes steps) = false
    /\ (forall total,
           totalMinutes steps = Js.Finite total -> total < 2 ^ 53 ->
           calculateTotalDuration steps = rendered_minutes total)
    /\ (forall n rest,
           is_number n ->
           step_estimatedDuration step = (n ++ " minutes" ++ rest)%string ->
           stepMinutes step = Js.double (Js.digits_value 0 n))
    /\ (forall lo hi rest,
           is_number lo -> is_number hi ->
           step_estimatedDuration step
           = (lo ++ "-" ++ hi ++ " minutes" ++ rest)%string ->
           stepMinutes step = Js.double (Js.digits_value 0 hi)
           /\ (Js.digits_value 0 lo <= Js.digits_value 0 hi ->
               stepMinutes step
               = Js.double (Z.max (Js.digits_value 0 lo) (Js.digits_value 0 hi))))
    /\ (Js.search duration_match_at (step_estimatedDuration step) = None ->
        totalMinutes (steps ++ [step]) = totalMinutes steps)
    /\ (forall n, 0 <= n <= 2 ^ 53 -> Js.double n = Js.Finite n)
    /\ (forall d p o, stepMinutes (verificationStep d p o) = Js.Finite 15)
    /\ (forall op u d p r o, stepMinutes (operatorStep op u d p r o) = Js.Finite 20)
    /\ (forall ps v d p r o, stepMinutes (clusterStep ps v d p r o) = Js.Finite 90).
Proof.
  intros steps step.
  pose proof (totalMinutes_counted steps) as Ht.
  pose proof (stepMinutes_counted step) as Hs.
  destruct (add_counted _ _ Ht Hs) as [_ Hle].
  rewrite totalMinutes_app.
  split; [exact Ht|]. split; [exact Hs|]. split; [reflexivity|].
  split; [exact Hle|]. split; [now apply at_most_not_lt|].
  split.
  { intros total Htotal Hbound.
    apply calculateTotalDuration_rendered; [exact Htotal|].
    rewrite Htotal in Ht. destruct Ht as [Hpos _]. lia. }
  split.
  { intros n rest Hn Hest. unfold stepMinutes.
    rewrite Hest, (single_estimate_groups n rest Hn). cbn [Js.or_string].
    now apply parseInt_number. }
  split.
  { intros lo hi rest Hlo Hhi Hest. unfold stepMinutes.
    rewrite Hest, (range_estimate_groups lo hi rest Hlo Hhi).
    assert (Hgroup : Js.or_string (Some hi) lo = hi).
    { destruct Hhi as [Hne _]. destruct hi; [congruence|reflexivity]. }
    rewrite Hgroup, (parseInt_number hi Hhi). split; [reflexivity|].
    intros Hle'. now rewrite Z.max_r. }
  split.
  { intros Hnone. unfold stepMinutes. rewrite Hnone.
    now apply add_zero. }
  split.
  { intros n Hn. apply double_small. rewrite Z.abs_eq; lia. }
  repeat split.
Qed.

(** C9 as stated fails: a step estimated at [20-10 minutes] counts 10
    minutes, the second number of the range and not the larger one, and
    the total of a list is lower with it than with a step estimated at
    [10-20 minutes]; a step estimated at [9007199254740993 minutes]
    counts the nearest double, 9007199254740992 minutes. *)
Lemma reversed_range_counts_second_number :
  stepMinutes (Samples.estimated "20-10 minutes") = Js.Finite 10
  /\ Z.max 20 10 = 20
  /\ totalMinutes [verificationStep "" [] 1; Samples.estimated "20-10 minutes"]
     = Js.Finite 25
  /\ totalMinutes [verificationStep "" [] 1; Samples.estimated "10-20 minutes"]
     = Js.Finite 35
  /\ calculateTotalDuration [Samples.estimated "20-10 minutes"] = "10 minutes"
  /\ stepMinutes (Samples.estimated "9007199254740993 minutes")
     = Js.Finite 9007199254740992.
Proof. repeat split. Qed.

(** ** Shape of the generated paths *)

(** Inversion of a successful [bind]: names the intermediate value
    and the equation that produced it. *)
Tactic Notation "bind_inv" hyp(H) "as" ident(x) ident(E) :=
  lazymatch type of H with
  | bind ?r _ = Ok _ =>
      destruct r as [x|] eqn:E; cbn [bind] in H; [|discriminate H]
  end.

Lemma built_steps_ok ps target st :
  built ps st -> Forall (path_step_ok ps target) (fst st).
Proof.
  induction 1 as [d p|st op u d p r Hst IH Hop Hu]; unfold push; simpl.
  - constructor; [exact I|constructor].
  - apply Forall_app. split; [assumption|].
    constructor; [|constructor]. unfold path_step_ok. simpl.
    exists op, u. simpl. repeat split; auto.
Qed.

Lemma finished_steps_ok ps target st :
  finished ps target st -> Forall (path_step_ok ps target) (fst st).
Proof.
  destruct 1 as [target st Hst|pick st d p r Hst Hne].
  - now apply built_steps_ok.
  - unfold push. simpl. apply Forall_app. split.
    + now apply built_steps_ok.
    + constructor; [|constructor]. unfold path_step_ok. simpl. split; auto.
Qed.

Lemma cluster_push_finished ps pick st d p r :
  built ps st ->
  finished ps (Some pick)
    (if (0 <? List.length (cv_availableUpdates (ps_cluster ps)))%nat
     then push st
            (clusterStep ps (pick (cv_availableUpdates (ps_cluster ps))) d p r)
     else st).
Proof.
  intros Hst.
  destruct (0 <? List.length (cv_availableUpdates (ps_cluster ps)))%nat eqn:Hlen.
  - apply finished_cluster; [assumption|].
    intros Hnil. rewrite Hnil in Hlen. discriminate.
  - now apply finished_operators.
Qed.

(** The upgrade each strategy picks for an operator is one of the
    upgrades listed for it. *)

Lemma findConservativeUpgrade_In op u :
  findConservativeUpgrade op = Ok (Some u) -> In u (op_availableUpgrades op).
Proof.
  unfold findConservativeUpgrade. cbv zeta.
  destruct (List.length (op_availableUpgrades op) =? 0)%nat; [discriminate|].
  destruct (Semver.parse _).
  - intros H. bind_inv H as chosen E. injection H as ->.
    eapply reduce_picks; [|exact E].
    intros a b c Hc. cbv beta zeta in Hc.
    bind_inv Hc as d1 E1. destruct (is_release d1 Semver.Patch).
    + injection Hc as <-. auto.
    + destruct (is_release d1 Semver.Minor).
      * bind_inv Hc as lower E3. destruct lower; injection Hc as <-; auto.
      * injection Hc as <-. auto.
  - intros H. injection H as H.
    exact (nth_error_In (op_availableUpgrades op) 0 H).
Qed.

Lemma latestUpgrade_In op u :
  latestUpgrade op = Ok u -> In u (op_availableUpgrades op).
Proof.
  unfold latestUpgrade. apply reduce_picks.
  intros a b c Hc. cbv beta in Hc. bind_inv Hc as newer E.
  destruct newer; injection Hc as <-; auto.
Qed.

Lemma findBalancedUpgrade_In op u :
  findBalancedUpgrade op = Some u -> In u (op_availableUpgrades op).
Proof.
  unfold findBalancedUpgrade. cbv zeta.
  destruct (List.length (op_availableUpgrades op) =? 0)%nat; [discriminate|].
  destruct (0 <? List.length (filter _ (op_availableUpgrades op)))%nat.
  - intros H. apply nth_error_In in H. apply filter_In in H. tauto.
  - apply nth_error_In.
Qed.

Lemma Some_inj {A} (a b : A) : Some a = Some b -> a = b.
Proof. congruence. Qed.

Lemma Ok_inj {A} (a b : A) : Ok a = Ok b -> a = b.
Proof. congruence. Qed.

Lemma critical_path_built now am ps path :
  generateCriticalIssuePath now am ps = Some path ->
  exists st, finished ps (Some first_update) st /\ path_steps path = fst st.
Proof.
  unfold generateCriticalIssuePath. cbv zeta.
  destruct (List.length (filter _ (ps_operators ps)) =? 0)%nat; [discriminate|].
  intros H. apply Some_inj in H. subst path. cbv beta iota delta [path_steps].
  eexists. split; [|reflexivity].
  apply (cluster_push_finished ps first_update).
  apply fold_left_invariant.
  - intros st op Hin Hst.
    destruct (nth_error (op_availableUpgrades op) 0) as [u|] eqn:Hu; [|assumption].
    apply built_operator; auto.
    + apply filter_In in Hin. tauto.
    + eapply nth_error_In; eauto.
  - apply built_verification.
Qed.

Lemma conservative_path_built now am ps path :
  generateConservativePath now am ps = Ok (Some path) ->
  exists st,
    built ps st /\ path_steps path = fst st /\ List.length (fst st) <> 1%nat.
Proof.
  unfold generateConservativePath. cbv zeta. intros H.
  bind_inv H as st Hloop.
  destruct (List.length (fst st) =? 1)%nat eqn:Hlen; [discriminate|].
  apply Ok_inj, Some_inj in H. subst path. cbv beta iota delta [path_steps].
  exists st. split; [|split; [reflexivity|now apply Nat.eqb_neq]].
  eapply for_each_invariant; [| |exact Hloop].
  - intros st0 op st' Hin Hst Hbody. cbv beta in Hbody.
    bind_inv Hbody as chosen Hfind.
    destruct chosen as [u|]; injection Hbody as <-; [|assumption].
    apply built_operator; auto.
    + apply filter_In in Hin. tauto.
    + now apply findConservativeUpgrade_In.
  - apply built_verification.
Qed.

Lemma aggressive_path_built now am ps path :
  generateAggressivePath now am ps = Ok (Some path) ->
  exists st,
    finished ps (Some last_update) st
    /\ path_steps path = fst st /\ List.length (fst st) <> 1%nat.
Proof.
  unfold generateAggressivePath. cbv zeta. intros H.
  bind_inv H as st Hloop.
  match type of H with
  | (if (List.length (fst ?final) =? 1)%nat then _ else _) = _ =>
      destruct (List.length (fst final) =? 1)%nat eqn:Hlen; [discriminate|];
        exists final
  end.
  apply Ok_inj, Some_inj in H. subst path. cbv beta iota delta [path_steps].
  split; [|split; [reflexivity|now apply Nat.eqb_neq]].
  apply (cluster_push_finished ps last_update).
  eapply for_each_invariant; [| |exact Hloop].
  - intros st0 op st' Hin Hst Hbody. cbv beta in Hbody.
    destruct (0 <? List.length (op_availableUpgrades op))%nat;
      [|injection Hbody as <-; assumption].
    bind_inv Hbody as u Hlatest. injection Hbody as <-.
    apply built_operator; auto.
    now apply latestUpgrade_In.
  - apply built_verification.
Qed.

Lemma balanced_path_built now am ps path :
  generateBalancedPath now am ps = Ok (Some path) ->
  exists st,
    finished ps (Some first_update) st
    /\ path_steps path = fst st /\ List.length (fst st) <> 1%nat.
Proof.
  unfold generateBalancedPath. cbv zeta. intros H.
  bind_inv H as st Hloop.
  match type of H with
  | (if (List.length (fst ?final) =? 1)%nat then _ else _) = _ =>
      destruct (List.length (fst final) =? 1)%nat eqn:Hlen; [discriminate|];
        exists final
  end.
  apply Ok_inj, Some_inj in H. subst path. cbv beta iota delta [path_steps].
  split; [|split; [reflexivity|now apply Nat.eqb_neq]].
  apply (cluster_push_finished ps first_update).
  eapply for_each_invariant; [| |exact Hloop].
  - intros st0 op st' Hin Hst Hbody. cbv beta in Hbody.
    bind_inv Hbody as shouldUpgrade Hshould.
    destruct (shouldUpgrade && (0 <? List.length (op_availableUpgrades op))%nat);
      [|injection Hbody as <-; assumption].
    destruct (findBalancedUpgrade op) as [u|] eqn:Hfind;
      injection Hbody as <-; [|assumption].
    apply built_operator; auto.
    now apply findBalancedUpgrade_In.
  - apply built_verification.
Qed.

(** Every path one of the four strategies returns is a finished step
    list; the paths of the conservative, the aggressive and the balanced
    strategy have more than one step. *)
Lemma critical_path_shape now am ps path :
  generateCriticalIssuePath now am ps = Some path ->
  Forall (path_step_ok ps (Some first_update)) (path_steps path).
Proof.
  intros H. destruct (critical_path_built _ _ _ _ H) as (st & Hst & ->).
  now apply finished_steps_ok.
Qed.

Lemma conservative_path_shape now am ps path :
  generateConservativePath now am ps = Ok (Some path) ->
  Forall (path_step_ok ps None) (path_steps path).
Proof.
  intros H. destruct (conservative_path_built _ _ _ _ H) as (st & Hst & -> & _).
  now apply built_steps_ok.
Qed.

Lemma aggressive_path_shape now am ps path :
  generateAggressivePath now am ps = Ok (Some path) ->
  Forall (path_step_ok ps (Some last_update)) (path_steps path).
Proof.
  intros H. destruct (aggressive_path_built _ _ _ _ H) as (st & Hst & -> & _).
  now apply finished_steps_ok.
Qed.

Lemma balanced_path_shape now am ps path :
  generateBalancedPath now am ps = Ok (Some path) ->
  Forall (path_step_ok ps (Some first_update)) (path_steps path).
Proof.
  intros H. destruct (balanced_path_built _ _ _ _ H) as (st & Hst & -> & _).
  now apply finished_steps_ok.
Qed.

Lemma first_update_head (updates : list string) :
  updates <> [] ->
  exists next later, updates = next :: later /\ first_update updates = Some next.
Proof.
  destruct updates as [|next later]; [congruence|]. intros _.
  exists next, later. split; reflexivity.
Qed.

Lemma last_update_last (updates : list string) :
  updates <> [] ->
  exists earlier latest,
    updates = earlier ++ [latest] /\ last_update updates = Some latest.
Proof.
  intros Hne. destruct (exists_last Hne) as (earlier & latest & ->).
  exists earlier, latest. split; [reflexivity|].
  unfold last_update. rewrite length_app. simpl.
  rewrite nth_error_app2 by lia.
  replace (List.length earlier + 1 - 1 - List.length earlier)%nat with 0%nat by lia.
  reflexivity.
Qed.

Lemma cluster_step_target ps pick path s :
  Forall (path_step_ok ps (Some pick)) (path_steps path) ->
  In s (path_steps path) -> step_type s = Cluster ->
  cv_availableUpdates (ps_cluster ps) <> []
  /\ step_toVersion s = pick (cv_availableUpdates (ps_cluster ps)).
Proof.
  intros Hall Hin Hty. rewrite Forall_forall in Hall.
  specialize (Hall s Hin). unfold path_step_ok in Hall.
  now rewrite Hty in Hall.
Qed.

(** C4. In a generated path, a platform upgrade step of the aggressive
    strategy targets the last entry of the available updates; a
    platform upgrade step of the critical-issues or of the balanced
    strategy targets the first entry. *)
Theorem platform_step_targets :
  forall now am ps,
    (forall path s,
        generateAggressivePath now am ps = Ok (Some path) ->
        In s (path_steps path) -> step_type s = Cluster ->
        exists earlier latest,
          cv_availableUpdates (ps_cluster ps) = earlier ++ [latest]
          /\ step_toVersion s = Some latest)
    /\ (forall path s,
           generateCriticalIssuePath now am ps = Some path ->
           In s (path_steps path) -> step_type s = Cluster ->
           exists next later,
             cv_availableUpdates (ps_cluster ps) = next :: later
             /\ step_toVersion s = Some next)
    /\ (forall path s,
           generateBalancedPath now am ps = Ok (Some path) ->
           In s (path_steps path) -> step_type s = Cluster ->
           exists next later,
             cv_availableUpdates (ps_cluster ps) = next :: later
             /\ step_toVersion s = Some next).
Proof.
  intros now am ps. repeat split.
  - intros path s Hgen Hin Hty.
    apply aggressive_path_shape in Hgen.
    destruct (cluster_step_target _ _ _ _ Hgen Hin Hty) as [Hne Hto].
    destruct (last_update_last _ Hne) as (earlier & latest & Hl & Hlast).
    exists earlier, latest. split; congruence.
  - intros path s Hgen Hin Hty.
    apply critical_path_shape in Hgen.
    destruct (cluster_step_target _ _ _ _ Hgen Hin Hty) as [Hne Hto].
    destruct (first_update_head _ Hne) as (next & later & Hl & Hfirst).
    exists next, later. split; congruence.
  - intros path s Hgen Hin Hty.
    apply balanced_path_shape in Hgen.
    destruct (cluster_step_target _ _ _ _ Hgen Hin Hty) as [Hne Hto].
    destruct (first_update_head _ Hne) as (next & later & Hl & Hfirst).
    exists next, later. split; congruence.
Qed.

(** ** Components without upgrades *)

Lemma generated_operator_steps now am ps path s :
  generated now am ps path ->
  In s (path_steps path) -> step_type s = Operator -> step_from ps s.
Proof.
  intros Hgen Hin Hty.
  assert (Hshape : exists target, Forall (path_step_ok ps target) (path_steps path)).
  { destruct Hgen as [H|[H|[H|H]]].
    - eexists. eapply critical_path_shape; eauto.
    - eexists. eapply conservative_path_shape; eauto.
    - eexists. eapply aggressive_path_shape; eauto.
    - eexists. eapply balanced_path_shape; eauto. }
  destruct Hshape as (target & Hall). rewrite Forall_forall in Hall.
  specialize (Hall s Hin). unfold path_step_ok in Hall.
  now rewrite Hty in Hall.
Qed.

Lemma getOperatorStatus_issues now lookup installation channels updates st :
  LifecycleService.getOperatorStatus now lookup installation channels updates
  = Some st ->
  LifecycleService.detectUpgradeIssues now (op_installation st)
    (op_lifecycleInfo st) (op_currentChannel st) updates
  = Ok (op_issues st).
Proof.
  unfold LifecycleService.getOperatorStatus. cbv zeta.
  destruct (LifecycleService.detectAvailableUpgrades _ _ _ _); [|discriminate].
  destruct (LifecycleService.detectUpgradeIssues _ _ _ _ _) eqn:Hissues;
    [|discriminate].
  intros H. apply Some_inj in H. subst st. exact Hissues.
Qed.

(** C8. A component with no available upgrade gets no operator step in
    any path of the four strategies, whatever issues it carries: every
    operator step of a generated path was built for an operator of the
    snapshot from an upgrade listed for it, so no operator step targets a
    name whose components list no upgrade.  The status the lifecycle
    service builds keeps the issues the detector found, whether or not
    an upgrade is available. *)
Theorem no_step_without_available_upgrade :
  forall now am ps,
    (forall path s,
        generated now am ps path ->
        In s (path_steps path) -> step_type s = Operator -> step_from ps s)
    /\ (forall name,
           (forall op, In op (ps_operators ps) ->
                       inst_name (op_installation op) = name ->
                       op_availableUpgrades op = []) ->
           forall path s,
             generated now am ps path ->
             In s (path_steps path) -> step_type s = Operator ->
             step_target s <> name)
    /\ (forall lookup installation channels updates st,
           LifecycleService.getOperatorStatus now lookup installation channels
             updates = Some st ->
           LifecycleService.detectUpgradeIssues now (op_installation st)
             (op_lifecycleInfo st) (op_currentChannel st) updates
           = Ok (op_issues st)).
Proof.
  intros now am ps. split; [|split].
  - intros path s. apply generated_operator_steps.
  - intros name Hnone path s Hgen Hin Hty Htarget.
    destruct (generated_operator_steps _ _ _ _ _ Hgen Hin Hty)
      as (op & u & Hop & Hu & Hname & _).
    rewrite (Hnone op Hop) in Hu; [contradiction|congruence].
  - intros lookup installation channels updates st.
    apply getOperatorStatus_issues.
Qed.

(** ** Structure of a path *)

Lemma well_numbered_push steps order step :
  well_numbered steps order ->
  step_type (step order) <> Verification ->
  step_order (step order) = order ->
  well_numbered (fst (push (steps, order) step)) (snd (push (steps, order) step)).
Proof.
  intros ((first & rest & -> & Hfirst & Hrest) & Horder & Hnth) Hty Hord.
  unfold push. cbn [fst snd]. split; [|split].
  - exists first, (rest ++ [step order]). split; [reflexivity|].
    split; [assumption|]. apply Forall_app. split; [assumption|].
    constructor; [assumption|constructor].
  - rewrite length_app. simpl List.length in *. lia.
  - intros k s Hk.
    destruct (Nat.lt_ge_cases k (List.length (first :: rest))) as [Hlt|Hge].
    + rewrite nth_error_app1 in Hk by assumption. now apply Hnth.
    + rewrite nth_error_app2 in Hk by assumption.
      destruct (k - List.length (first :: rest))%nat as [|n] eqn:Hk';
        [|destruct n; discriminate Hk].
      injection Hk as <-. rewrite Hord, Horder. simpl List.length in *. lia.
Qed.

Lemma built_well_numbered ps st : built ps st -> well_numbered (fst st) (snd st).
Proof.
  induction 1 as [d p|st op u d p r Hst IH Hop Hu].
  - unfold push. cbn [fst snd app]. split; [|split].
    + eexists. exists []. split; [reflexivity|]. split; [reflexivity|constructor].
    + reflexivity.
    + intros [|[|k]] s Hk; try discriminate Hk. injection Hk as <-. reflexivity.
  - destruct st as [steps order].
    apply (well_numbered_push steps order (operatorStep op u d p r)); auto.
    discriminate.
Qed.

Lemma finished_well_numbered ps target st :
  finished ps target st -> well_numbered (fst st) (snd st).
Proof.
  destruct 1 as [target st Hst|pick st d p r Hst Hne].
  - now apply (built_well_numbered ps).
  - apply built_well_numbered in Hst. destruct st as [steps order].
    apply (well_numbered_push steps order
             (clusterStep ps (pick (cv_availableUpdates (ps_cluster ps))) d p r));
      auto.
    discriminate.
Qed.

Lemma generated_finished now am ps path :
  generated now am ps path ->
  exists target st, finished ps target st /\ path_steps path = fst st.
Proof.
  intros [H|[H|[H|H]]].
  - destruct (critical_path_built _ _ _ _ H) as (st & Hst & Hsteps). eauto.
  - destruct (conservative_path_built _ _ _ _ H) as (st & Hst & Hsteps & _).
    exists None, st. split; [now apply finished_operators|assumption].
  - destruct (aggressive_path_built _ _ _ _ H) as (st & Hst & Hsteps & _). eauto.
  - destruct (balanced_path_built _ _ _ _ H) as (st & Hst & Hsteps & _). eauto.
Qed.

(** Every path of the four strategies starts with the verification
    step, has no other verification step, and numbers its steps 1, 2,
    3, ... in order. *)
Theorem generated_path_structure :
  forall now am ps path,
    generated now am ps path ->
    (exists first rest,
        path_steps path = first :: rest
        /\ step_type first = Verification
        /\ Forall (fun s => step_type s <> Verification) rest)
    /\ (forall k s, nth_error (path_steps path) k = Some s ->
                    step_order s = Z.of_nat k + 1).
Proof.
  intros now am ps path Hgen.
  destruct (generated_finished _ _ _ _ Hgen) as (target & st & Hst & ->).
  destruct (finished_well_numbered _ _ _ Hst) as (Hfirst & _ & Hnth).
  split; assumption.
Qed.

(** A path of the conservative, the aggressive or the balanced strategy
    has a step that is not the verification step. *)
Theorem sibling_strategies_suppress_verification_only_paths :
  forall now am ps path,
    generateConservativePath now am ps = Ok (Some path)
    \/ generateAggressivePath now am ps = Ok (Some path)
    \/ generateBalancedPath now am ps = Ok (Some path) ->
    exists s, In s (path_steps path) /\ step_type s <> Verification.
Proof.
  intros now am ps path Hgen.
  assert (H : exists st, well_numbered (fst st) (snd st)
                         /\ path_steps path = fst st
                         /\ List.length (fst st) <> 1%nat).
  { destruct Hgen as [H|[H|H]].
    - destruct (conservative_path_built _ _ _ _ H) as (st & Hst & Hsteps & Hlen).
      exists st. split; [now apply (built_well_numbered ps)|auto].
    - destruct (aggressive_path_built _ _ _ _ H) as (st & Hst & Hsteps & Hlen).
      exists st. split; [now apply finished_well_numbered in Hst|auto].
    - destruct (balanced_path_built _ _ _ _ H) as (st & Hst & Hsteps & Hlen).
      exists st. split; [now apply finished_well_numbered in Hst|auto]. }
  destruct H as (st & ((first & rest & Heq & _ & Hrest) & _) & -> & Hlen).
  rewrite Heq in *. destruct rest as [|second rest]; [simpl in Hlen; congruence|].
  exists second. split; [right; left; reflexivity|].
  now inversion Hrest.
Qed.

(** The conservative strategy never upgrades the platform. *)
Theorem conservative_path_has_no_platform_step :
  forall now am ps path s,
    generateConservativePath now am ps = Ok (Some path) ->
    In s (path_steps path) -> step_type s <> Cluster.
Proof.
  intros now am ps path s Hgen Hin Hty.
  apply conservative_path_shape in Hgen. rewrite Forall_forall in Hgen.
  specialize (Hgen s Hin). unfold path_step_ok in Hgen.
  now rewrite Hty in Hgen.
Qed.

(** ** Coverage of the critical components *)

Lemma criticalStep_keeps st op s :
  In s (fst st) -> In s (fst (criticalStep st op)).
Proof.
  unfold criticalStep. destruct (nth_error _ 0); [|auto].
  unfold push. simpl. intros H. apply in_or_app. now left.
Qed.

Lemma criticalSteps_keep ops : forall st s,
  In s (fst st) -> In s (fst (fold_left criticalStep ops st)).
Proof.
  induction ops as [|op ops IH]; simpl; intros st s H; [assumption|].
  apply IH. now apply criticalStep_keeps.
Qed.

Lemma criticalSteps_cover ops : forall st op u rest,
  In op ops -> op_availableUpgrades op = u :: rest ->
  exists s,
    In s (fst (fold_left criticalStep ops st))
    /\ step_type s = Operator
    /\ step_target s = inst_name (op_installation op)
    /\ step_toVersion s = Some (up_targetVersion u).
Proof.
  induction ops as [|a ops IH]; simpl; intros st op u rest Hin Hups; [contradiction|].
  destruct Hin as [->|Hin]; [|eauto].
  eexists. split.
  - apply criticalSteps_keep. unfold criticalStep. rewrite Hups. simpl.
    apply in_or_app. right. left. reflexivity.
  - repeat split.
Qed.

(** Every component with a critical issue and at least one listed
    upgrade has an operator step in the critical-issues path, to its
    first listed upgrade. *)
Theorem critical_path_covers_critical_components :
  forall now am ps path op u rest,
    generateCriticalIssuePath now am ps = Some path ->
    In op (ps_operators ps) ->
    has_severity CRITICAL (op_issues op) ->
    op_availableUpgrades op = u :: rest ->
    exists s,
      In s (path_steps path)
      /\ step_type s = Operator
      /\ step_target s = inst_name (op_installation op)
      /\ step_toVersion s = Some (up_targetVersion u).
Proof.
  intros now am ps path op u rest Hgen Hop Hcritical Hups.
  unfold generateCriticalIssuePath in Hgen. cbv zeta in Hgen.
  destruct (List.length (filter _ (ps_operators ps)) =? 0)%nat; [discriminate|].
  apply Some_inj in Hgen. subst path. cbv beta iota delta [path_steps].
  match goal with
  | |- context [fold_left ?body ?ops ?st] =>
      change body with criticalStep;
        destruct (criticalSteps_cover ops st op u rest) as (s & Hin & Hs)
  end.
  - apply filter_In. split; [assumption|]. now apply existsb_has_severity.
  - assumption.
  - exists s. split; [|assumption].
    destruct (0 <? List.length (cv_availableUpdates (ps_cluster ps)))%nat;
      [|assumption].
    unfold push. simpl. apply in_or_app. now left.
Qed.

(** ** No-op paths *)

(** C1, at the snapshot the lifecycle service builds for one
    end-of-life component whose channel offers nothing newer, on a
    platform with no update: the component has a critical issue and no
    upgrade, the critical-issues strategy returns a path, and the only
    step of that path is the verification step. *)
Theorem critical_path_with_verification_only :
  exists st path,
    LifecycleService.getOperatorStatus 0 (Samples.lookup END_OF_LIFE)
      (Samples.installation "z" "z.v1.2.0")
      [Samples.channel "stable" "z.v1.2.0" false] [] = Some st
    /\ map issue_severity (op_issues st) = [CRITICAL]
    /\ op_availableUpgrades st = []
    /\ generateCriticalIssuePath 0 Samples.addMonths
         (LifecycleService.getPlatformStatus 0 (Samples.cluster []) [st])
       = Some path
    /\ map step_type (path_steps path) = [Verification]
    /\ only_verification path.
Proof.
  eexists. eexists. split; [reflexivity|].
  split; [reflexivity|]. split; [reflexivity|].
  split; [reflexivity|]. split; [reflexivity|].
  intros s [<-|[]]. reflexivity.
Qed.

(** ** Conservative selection *)

(** C2, at the snapshot the lifecycle service builds for one component
    at 1.2.0 on a deprecated channel whose current version is 2.0.0:
    the component has one warning and one listed upgrade, and the
    conservative path upgrades it to 2.0.0, a major difference from
    1.2.0. *)
Theorem conservative_path_selects_major :
  exists st path s,
    LifecycleService.getOperatorStatus 0 LifecycleService.getDefaultLifecycleInfo
      (Samples.installation "w" "w.v1.2.0")
      [Samples.channel "stable" "w.v2.0.0" true] [] = Some st
    /\ map issue_severity (op_issues st) = [WARNING]
    /\ map up_targetVersion (op_availableUpgrades st) = ["w.v2.0.0"]
    /\ generateConservativePath 0 Samples.addMonths
         (LifecycleService.getPlatformStatus 0 (Samples.cluster []) [st])
       = Ok (Some path)
    /\ In s (path_steps path)
    /\ step_type s = Operator
    /\ step_fromVersion s = Some "w.v1.2.0"
    /\ step_toVersion s = Some "w.v2.0.0"
    /\ Semver.diff (cleanVersion "w.v1.2.0") (cleanVersion "w.v2.0.0")
       = Ok (Some Semver.Major).
Proof.
  eexists. eexists. eexists. split; [reflexivity|].
  split; [reflexivity|]. split; [reflexivity|]. split; [reflexivity|].
  split; [right; left; reflexivity|].
  repeat split.
Qed.

(** ** Issue detection *)

(** The issues [detectUpgradeIssues] can return, each with the
    condition under which it is returned. *)
Lemma detectUpgradeIssues_cases now installation lifecycleInfo channel updates
    issues i :
  LifecycleService.detectUpgradeIssues now installation lifecycleInfo channel
    updates = Ok issues ->
  In i issues ->
  (i = LifecycleService.staleChannelIssue now installation channel
   /\ chan_deprecated channel = true)
  \/ (i = LifecycleService.maintenanceIssue now installation
      /\ lc_supportPhase lifecycleInfo = MAINTENANCE_SUPPORT)
  \/ (i = LifecycleService.eolIssue now installation
      /\ lc_supportPhase lifecycleInfo = END_OF_LIFE)
  \/ (exists maxOCPVersion nextUpdate later,
         lc_maxOCPVersion lifecycleInfo = Some maxOCPVersion
         /\ updates = nextUpdate :: later
         /\ Semver.valid (LifecycleService.extractVersionFromUpdate nextUpdate) = true
         /\ Semver.valid maxOCPVersion = true
         /\ Semver.gt (LifecycleService.extractVersionFromUpdate nextUpdate)
              maxOCPVersion = Ok true
         /\ i = LifecycleService.versionCeilingIssue now installation
                  (LifecycleService.extractVersionFromUpdate nextUpdate)
                  maxOCPVersion).
Proof.
  unfold LifecycleService.detectUpgradeIssues. cbv zeta.
  set (stale := LifecycleService.staleChannelIssue now installation channel).
  set (maint := LifecycleService.maintenanceIssue now installation).
  set (eol := LifecycleService.eolIssue now installation).
  intros Hrun Hin.
  assert (Hbase :
    forall j,
      In j (let issues := if chan_deprecated channel then [] ++ [stale] else [] in
            let issues :=
              if SupportPhase_eqb (lc_supportPhase lifecycleInfo) MAINTENANCE_SUPPORT
              then issues ++ [maint] else issues in
            if SupportPhase_eqb (lc_supportPhase lifecycleInfo) END_OF_LIFE
            then issues ++ [eol] else issues) ->
      (j = stale /\ chan_deprecated channel = true)
      \/ (j = maint /\ lc_supportPhase lifecycleInfo = MAINTENANCE_SUPPORT)
      \/ (j = eol /\ lc_supportPhase lifecycleInfo = END_OF_LIFE)).
  { intros j. cbv zeta.
    destruct (chan_deprecated channel);
      destruct (lc_supportPhase lifecycleInfo); simpl; intuition auto. }
  cbv zeta in Hbase.
  destruct (lc_maxOCPVersion lifecycleInfo) as [maxOCPVersion|];
    [|apply Ok_inj in Hrun; subst issues; apply Hbase in Hin; tauto].
  destruct updates as [|nextUpdate later];
    [apply Ok_inj in Hrun; subst issues; apply Hbase in Hin; tauto|].
  destruct (Js.truthy_string maxOCPVersion);
    [|apply Ok_inj in Hrun; subst issues; apply Hbase in Hin; tauto].
  destruct (Semver.valid (LifecycleService.extractVersionFromUpdate nextUpdate))
    eqn:Hnext;
    [|apply Ok_inj in Hrun; subst issues; apply Hbase in Hin; tauto].
  destruct (Semver.valid maxOCPVersion) eqn:Hmax;
    [|apply Ok_inj in Hrun; subst issues; apply Hbase in Hin; tauto].
  cbn [andb] in Hrun. bind_inv Hrun as above Hgt.
  destruct above;
    [|apply Ok_inj in Hrun; subst issues; apply Hbase in Hin; tauto].
  apply Ok_inj in Hrun. subst issues.
  apply in_app_or in Hin. destruct Hin as [Hin|[<-|[]]].
  - apply Hbase in Hin. tauto.
  - right. right. right. exists maxOCPVersion, nextUpdate, later.
    repeat split; auto.
Qed.

(** What [detectAvailableUpgrades] lists was compared successfully. *)
Lemma detectAvailableUpgrades_compared now lookup installation channels
    upgrades u :
  LifecycleService.detectAvailableUpgrades now lookup installation channels
  = Ok upgrades ->
  In u upgrades ->
  Semver.valid (cleanVersion (inst_currentVersion installation)) = true
  /\ Semver.valid (cleanVersion (up_targetVersion u)) = true
  /\ Semver.gt (cleanVersion (up_targetVersion u))
       (cleanVersion (inst_currentVersion installation)) = Ok true.
Proof.
  unfold LifecycleService.detectAvailableUpgrades. intros Hrun.
  revert u.
  eapply (for_each_invariant
            (fun ups => forall u, In u ups ->
               Semver.valid (cleanVersion (inst_currentVersion installation)) = true
               /\ Semver.valid (cleanVersion (up_targetVersion u)) = true
               /\ Semver.gt (cleanVersion (up_targetVersion u))
                    (cleanVersion (inst_currentVersion installation)) = Ok true));
    [| |exact Hrun].
  - intros ups channel ups' _ Hups Hbody. cbv beta zeta in Hbody.
    destruct (Semver.valid (cleanVersion (inst_currentVersion installation)))
      eqn:Hcur; [|apply Ok_inj in Hbody; subst ups'; exact Hups].
    destruct (Semver.valid (cleanVersion (chan_currentCSV channel)))
      eqn:Hlatest; [|apply Ok_inj in Hbody; subst ups'; exact Hups].
    cbn [andb] in Hbody. bind_inv Hbody as newer Hgt.
    destruct newer; apply Ok_inj in Hbody; subst ups'; [|exact Hups].
    intros u Hin. apply in_app_or in Hin. destruct Hin as [Hin|[<-|[]]]; auto.
  - intros u [].
Qed.

Lemma findConservativeUpgrade_fallback op :
  Semver.parse (cleanVersion (inst_currentVersion (op_installation op))) = None ->
  findConservativeUpgrade op = Ok (nth_error (op_availableUpgrades op) 0).
Proof.
  intros Hparse. unfold findConservativeUpgrade. cbv zeta. rewrite Hparse.
  destruct (op_availableUpgrades op); reflexivity.
Qed.

(** ** Snapshots assembled by the lifecycle service *)

Lemma valid_construct (version : string) :
  Semver.valid version = true -> exists v, Semver.construct version = Ok v.
Proof.
  unfold Semver.valid, Semver.parse.
  destruct (Semver.construct version); [eauto|discriminate].
Qed.

Lemma compare_returns (a b : string) :
  Semver.valid a = true -> Semver.valid b = true ->
  exists c, Semver.compare a b = Ok c.
Proof.
  intros Ha Hb. unfold Semver.compare.
  destruct (valid_construct a Ha) as (va & ->).
  destruct (valid_construct b Hb) as (vb & ->).
  simpl. eauto.
Qed.

Lemma gt_returns (a b : string) :
  Semver.valid a = true -> Semver.valid b = true ->
  exists r, Semver.gt a b = Ok r.
Proof.
  intros Ha Hb. unfold Semver.gt.
  destruct (compare_returns a b Ha Hb) as (c & ->). simpl. eauto.
Qed.

Lemma lt_returns (a b : string) :
  Semver.valid a = true -> Semver.valid b = true ->
  exists r, Semver.lt a b = Ok r.
Proof.
  intros Ha Hb. unfold Semver.lt.
  destruct (compare_returns a b Ha Hb) as (c & ->). simpl. eauto.
Qed.

Lemma diff_returns (a b : string) :
  Semver.valid a = true -> Semver.valid b = true ->
  exists r, Semver.diff a b = Ok r.
Proof.
  intros Ha Hb. unfold Semver.diff.
  destruct (valid_construct a Ha) as (va & ->).
  destruct (valid_construct b Hb) as (vb & ->).
  simpl. eauto.
Qed.

(** Closes a goal that asks for the value a finished computation
    returns, with or without a loop invariant on that value. *)
Ltac returned :=
  cbn [andb bind];
  first [ eexists; split; [reflexivity|solve [auto]]
        | eexists; reflexivity ].

Lemma valid_iff_construct (version : string) :
  Semver.valid version = true <-> returns (Semver.construct version).
Proof.
  unfold Semver.valid, Semver.parse, returns.
  destruct (Semver.construct version) as [v|e]; split; eauto.
  - intros H. discriminate H.
  - intros (v & H). discriminate H.
Qed.

(** The comparisons of the package return exactly on two valid
    versions, and throw otherwise. *)
Lemma comparisons_return_iff_valid (a b : string) :
  (returns (Semver.gt a b) <-> Semver.valid a = true /\ Semver.valid b = true)
  /\ (returns (Semver.lt a b) <-> Semver.valid a = true /\ Semver.valid b = true)
  /\ (returns (Semver.diff a b) <-> Semver.valid a = true /\ Semver.valid b = true).
Proof.
  rewrite !valid_iff_construct.
  unfold Semver.gt, Semver.lt, Semver.diff, Semver.compare, returns.
  destruct (Semver.construct a) as [va|ea], (Semver.construct b) as [vb|eb];
    cbn [bind];
    (split; [|split]); (split; intros H);
    first [ solve [split; eexists; reflexivity]
          | solve [eexists; reflexivity]
          | solve [destruct H as (r & H); discriminate H]
          | solve [destruct H as [(r & H) _]; discriminate H]
          | solve [destruct H as [_ (r & H)]; discriminate H] ].
Qed.

Lemma detectAvailableUpgrades_returns now lookup installation channels :
  returns (LifecycleService.detectAvailableUpgrades now lookup installation channels).
Proof.
  unfold LifecycleService.detectAvailableUpgrades, returns.
  match goal with
  | |- exists a, for_each ?body ?l ?s = Ok a =>
      destruct (for_each_returns (fun _ => True) body l s) as (ups & Hrun & _);
        [|exact I|exists ups; exact Hrun]
  end.
  intros ups channel _ _. cbv zeta.
  destruct (Semver.valid (cleanVersion (inst_currentVersion installation)))
    eqn:Hcur; [|returned].
  destruct (Semver.valid (cleanVersion (chan_currentCSV channel)))
    eqn:Hlatest; [|returned].
  destruct (gt_returns _ _ Hlatest Hcur) as ([] & Hgt);
    cbn [andb]; rewrite Hgt; returned.
Qed.

Lemma detectUpgradeIssues_returns now installation lifecycleInfo channel updates :
  returns (LifecycleService.detectUpgradeIssues now installation lifecycleInfo
             channel updates).
Proof.
  unfold LifecycleService.detectUpgradeIssues, returns. cbv zeta.
  destruct (lc_maxOCPVersion lifecycleInfo) as [maxOCPVersion|]; [|returned].
  destruct updates as [|nextUpdate later]; [returned|].
  destruct (Js.truthy_string maxOCPVersion); [|returned].
  destruct (Semver.valid (LifecycleService.extractVersionFromUpdate nextUpdate))
    eqn:Hnext; [|returned].
  destruct (Semver.valid maxOCPVersion) eqn:Hmax; [|returned].
  destruct (gt_returns _ _ Hnext Hmax) as ([] & Hgt);
    cbn [andb]; rewrite Hgt; returned.
Qed.

Lemma assembled_compared op u :
  assembled op -> In u (op_availableUpgrades op) ->
  Semver.valid (cleanVersion (inst_currentVersion (op_installation op))) = true
  /\ Semver.valid (cleanVersion (up_targetVersion u)) = true
  /\ Semver.gt (cleanVersion (up_targetVersion u))
       (cleanVersion (inst_currentVersion (op_installation op))) = Ok true.
Proof.
  intros (now & lookup & installation & channels & updates & Hst) Hin.
  unfold LifecycleService.getOperatorStatus in Hst. cbv zeta in Hst.
  destruct (LifecycleService.detectAvailableUpgrades now lookup installation
              channels) as [upgrades|] eqn:Hups; [|discriminate].
  destruct (LifecycleService.detectUpgradeIssues _ _ _ _ _); [|discriminate].
  apply Some_inj in Hst. subst op.
  cbv beta iota delta [op_availableUpgrades op_installation] in *.
  exact (detectAvailableUpgrades_compared _ _ _ _ _ _ Hups Hin).
Qed.

Lemma assembled_comparable op : assembled op -> comparable_upgrades op.
Proof.
  intros Hop u Hin. destruct (assembled_compared op u Hop Hin) as (H1 & H2 & _).
  split; assumption.
Qed.

Lemma latestUpgrade_returns op :
  comparable_upgrades op -> op_availableUpgrades op <> [] ->
  exists u, latestUpgrade op = Ok u.
Proof.
  intros Hcmp Hne. unfold latestUpgrade, reduce.
  destruct (op_availableUpgrades op) as [|first rest] eqn:Hups; [congruence|].
  match goal with
  | |- exists a, for_each ?body ?l ?s = Ok a =>
      destruct (for_each_returns
                  (fun u => Semver.valid (cleanVersion (up_targetVersion u)) = true)
                  body l s) as (u & Hrun & _);
        [| |exists u; exact Hrun]
  end.
  - intros latest current Hin Hlatest.
    assert (Hcur : Semver.valid (cleanVersion (up_targetVersion current)) = true)
      by (apply Hcmp; rewrite Hups; now right).
    destruct (gt_returns _ _ Hcur Hlatest) as ([] & Hgt); rewrite Hgt; returned.
  - apply Hcmp. rewrite Hups. now left.
Qed.

Lemma findConservativeUpgrade_returns op :
  comparable_upgrades op -> exists r, findConservativeUpgrade op = Ok r.
Proof.
  intros Hcmp. unfold findConservativeUpgrade. cbv zeta.
  destruct (List.length (op_availableUpgrades op) =? 0)%nat eqn:Hlen; [returned|].
  destruct (Semver.parse _) eqn:Hparse; [|returned].
  assert (Hcurrent :
    Semver.valid (cleanVersion (inst_currentVersion (op_installation op))) = true)
    by (unfold Semver.valid; now rewrite Hparse).
  unfold reduce.
  destruct (op_availableUpgrades op) as [|first rest] eqn:Hups;
    [discriminate Hlen|].
  match goal with
  | |- exists r, bind (for_each ?body ?l ?s) _ = Ok r =>
      destruct (for_each_returns
                  (fun u => Semver.valid (cleanVersion (up_targetVersion u)) = true)
                  body l s) as (u & Hrun & _);
        [| |rewrite Hrun; returned]
  end.
  - intros closest current Hin Hclosest. cbv beta zeta.
    assert (Hcur : Semver.valid (cleanVersion (up_targetVersion current)) = true)
      by (apply Hcmp; rewrite Hups; now right).
    destruct (diff_returns _ _ Hcurrent Hcur) as (d & Hd). rewrite Hd. cbn [bind].
    destruct (is_release d Semver.Patch); [returned|].
    destruct (is_release d Semver.Minor); [|returned].
    destruct (lt_returns _ _ Hcur Hclosest) as ([] & Hlt); rewrite Hlt; returned.
  - apply Hcmp. rewrite Hups. now left.
Qed.

Lemma isSignificantlyOutdated_returns op :
  exists r, isSignificantlyOutdated op = Ok r.
Proof.
  unfold isSignificantlyOutdated. cbv zeta.
  destruct (List.length (op_availableUpgrades op) =? 0)%nat eqn:Hlen; [returned|].
  destruct (nth_error _ _) as [last|] eqn:Hlast.
  - destruct (Semver.valid (cleanVersion (inst_currentVersion (op_installation op))))
      eqn:Hcur; [|returned].
    destruct (Semver.valid (cleanVersion (up_targetVersion last))) eqn:Hlatest;
      [|returned].
    destruct (diff_returns _ _ Hcur Hlatest) as (d & Hd).
    cbn [negb orb]. rewrite Hd. returned.
  - apply nth_error_None in Hlast. apply Nat.eqb_neq in Hlen. lia.
Qed.

Lemma generateConservativePath_returns now am ps :
  (forall op, In op (ps_operators ps) -> comparable_upgrades op) ->
  returns (generateConservativePath now am ps).
Proof.
  intros Hcmp. unfold generateConservativePath, returns. cbv zeta.
  match goal with
  | |- exists a, bind (for_each ?body ?l ?s) _ = Ok a =>
      destruct (for_each_returns (fun _ => True) body l s) as (st & Hrun & _);
        [|exact I|rewrite Hrun; cbn [bind]]
  end.
  - intros st op Hin _. apply filter_In in Hin. destruct Hin as [Hin _].
    destruct (findConservativeUpgrade_returns op (Hcmp op Hin)) as ([u|] & Hfind);
      rewrite Hfind; returned.
  - destruct (List.length (fst st) =? 1)%nat; returned.
Qed.

Lemma generateAggressivePath_returns now am ps :
  (forall op, In op (ps_operators ps) -> comparable_upgrades op) ->
  returns (generateAggressivePath now am ps).
Proof.
  intros Hcmp. unfold generateAggressivePath, returns. cbv zeta.
  match goal with
  | |- exists a, bind (for_each ?body ?l ?s) _ = Ok a =>
      destruct (for_each_returns (fun _ => True) body l s) as (st & Hrun & _);
        [|exact I|rewrite Hrun; cbn [bind]]
  end.
  - intros st op Hin _.
    destruct (0 <? List.length (op_availableUpgrades op))%nat eqn:Hlen; [|returned].
    destruct (latestUpgrade_returns op (Hcmp op Hin)) as (u & Hlatest).
    + intros Hnil. rewrite Hnil in Hlen. discriminate.
    + rewrite Hlatest. returned.
  - match goal with
    | |- context [(List.length (fst ?final) =? 1)%nat] =>
        destruct (List.length (fst final) =? 1)%nat; returned
    end.
Qed.

Lemma generateBalancedPath_returns now am ps :
  returns (generateBalancedPath now am ps).
Proof.
  unfold generateBalancedPath, returns. cbv zeta.
  match goal with
  | |- exists a, bind (for_each ?body ?l ?s) _ = Ok a =>
      destruct (for_each_returns (fun _ => True) body l s) as (st & Hrun & _);
        [|exact I|rewrite Hrun; cbn [bind]]
  end.
  - intros st op Hin _.
    destruct (0 <? List.length (op_issues op))%nat.
    + cbn [bind andb].
      destruct (0 <? List.length (op_availableUpgrades op))%nat; [|returned].
      destruct (findBalancedUpgrade op); returned.
    + destruct (isSignificantlyOutdated_returns op) as (r & Hr). rewrite Hr.
      cbn [bind].
      destruct (r && (0 <? List.length (op_availableUpgrades op))%nat); [|returned].
      destruct (findBalancedUpgrade op); returned.
  - match goal with
    | |- context [(List.length (fst ?final) =? 1)%nat] =>
        destruct (List.length (fst final) =? 1)%nat; returned
    end.
Qed.

(** On a snapshot whose operator statuses were built by
    [getOperatorStatus], path generation returns. *)
Lemma generateUpgradePaths_returns :
  forall now am ps,
    (forall op, In op (ps_operators ps) -> assembled op) ->
    returns (generateUpgradePaths now am ps).
Proof.
  intros now am ps Hassembled.
  assert (Hcmp : forall op, In op (ps_operators ps) -> comparable_upgrades op)
    by (intros op Hin; apply assembled_comparable; auto).
  unfold generateUpgradePaths, returns. cbv zeta.
  destruct (generateConservativePath_returns now am ps Hcmp) as (c & Hc).
  destruct (generateAggressivePath_returns now am ps Hcmp) as (a & Ha).
  destruct (generateBalancedPath_returns now am ps) as (b & Hb).
  rewrite Hc, Ha, Hb. returned.
Qed.

(** Detection returns on every input, and never fails to build the
    operator status. *)
Lemma detection_returns :
  forall now lookup installation lifecycleInfo channel channels updates,
    returns (LifecycleService.detectAvailableUpgrades now lookup installation
               channels)
    /\ returns (LifecycleService.detectUpgradeIssues now installation
                  lifecycleInfo channel updates)
    /\ exists st,
         LifecycleService.getOperatorStatus now lookup installation channels
           updates = Some st.
Proof.
  intros now lookup installation lifecycleInfo channel channels updates.
  split; [apply detectAvailableUpgrades_returns|].
  split; [apply detectUpgradeIssues_returns|].
  unfold LifecycleService.getOperatorStatus. cbv zeta.
  destruct (detectAvailableUpgrades_returns now lookup installation channels)
    as (ups & Hups).
  rewrite Hups.
  match goal with
  | |- context [LifecycleService.detectUpgradeIssues ?n ?i ?l ?c ?u] =>
      destruct (detectUpgradeIssues_returns n i l c u) as (issues & Hissues);
        rewrite Hissues
  end.
  eexists. reflexivity.
Qed.

(** C3, as the code has it.  The comparisons of the package throw on an
    operand that is not a valid version, and return on two valid ones;
    the code validates before it compares.  Detection returns on every
    input, whatever the version strings: a string that does not clean
    to a valid version yields no listed upgrade and no version-ceiling
    issue, and [getOperatorStatus] builds the status.  On every
    snapshot whose operator statuses were built that way, path
    generation returns. *)
Theorem malformed_versions_never_raise :
  forall now lookup am,
    (forall a b,
        (returns (Semver.gt a b)
         <-> Semver.valid a = true /\ Semver.valid b = true)
        /\ (returns (Semver.lt a b)
            <-> Semver.valid a = true /\ Semver.valid b = true)
        /\ (returns (Semver.diff a b)
            <-> Semver.valid a = true /\ Semver.valid b = true))
    /\ (forall installation lifecycleInfo channel channels updates,
        returns (LifecycleService.detectAvailableUpgrades now lookup installation
                   channels)
        /\ returns (LifecycleService.detectUpgradeIssues now installation
                      lifecycleInfo channel updates)
        /\ exists st,
             LifecycleService.getOperatorStatus now lookup installation channels
               updates = Some st)
    /\ (forall ps,
           (forall op, In op (ps_operators ps) -> assembled op) ->
           returns (generateUpgradePaths now am ps)).
Proof.
  intros now lookup am. split; [|split].
  - apply comparisons_return_iff_valid.
  - intros installation lifecycleInfo channel channels updates.
    apply detection_returns.
  - intros ps. apply generateUpgradePaths_returns.
Qed.

(** C5, as the code has it.  The version-ceiling issue is returned only
    when the component's [maxOCPVersion] and the next available update
    are both valid versions and the update is the greater; the
    lifecycle service lists an upgrade only when the cleaned installed
    version and the cleaned channel version are both valid and the
    channel's is the greater, so that on a snapshot assembled by the
    service every operator step of every path goes to a version that
    was compared with the installed one and found greater; but the
    conservative selection does not skip a component whose installed
    version does not parse: it falls back to the first listed upgrade. *)
Theorem unparsable_versions_policy :
  (forall now installation lifecycleInfo channel updates issues i,
      LifecycleService.detectUpgradeIssues now installation lifecycleInfo channel
        updates = Ok issues ->
      In i issues -> issue_type i = VERSION_CEILING ->
      exists maxOCPVersion nextUpdate later,
        lc_maxOCPVersion lifecycleInfo = Some maxOCPVersion
        /\ updates = nextUpdate :: later
        /\ Semver.valid (LifecycleService.extractVersionFromUpdate nextUpdate) = true
        /\ Semver.valid maxOCPVersion = true
        /\ Semver.gt (LifecycleService.extractVersionFromUpdate nextUpdate)
             maxOCPVersion = Ok true)
  /\ (forall now lookup installation channels upgrades u,
         LifecycleService.detectAvailableUpgrades now lookup installation channels
         = Ok upgrades ->
         In u upgrades ->
         Semver.valid (cleanVersion (inst_currentVersion installation)) = true
         /\ Semver.valid (cleanVersion (up_targetVersion u)) = true
         /\ Semver.gt (cleanVersion (up_targetVersion u))
              (cleanVersion (inst_currentVersion installation)) = Ok true)
  /\ (forall now am ps path s,
         (forall op, In op (ps_operators ps) -> assembled op) ->
         generated now am ps path ->
         In s (path_steps path) -> step_type s = Operator ->
         exists op u,
           In op (ps_operators ps)
           /\ In u (op_availableUpgrades op)
           /\ step_target s = inst_name (op_installation op)
           /\ step_toVersion s = Some (up_targetVersion u)
           /\ Semver.valid (cleanVersion (inst_currentVersion (op_installation op)))
              = true
           /\ Semver.valid (cleanVersion (up_targetVersion u)) = true
           /\ Semver.gt (cleanVersion (up_targetVersion u))
                (cleanVersion (inst_currentVersion (op_installation op)))
              = Ok true)
  /\ (forall op,
         Semver.parse (cleanVersion (inst_currentVersion (op_installation op)))
         = None ->
         findConservativeUpgrade op = Ok (nth_error (op_availableUpgrades op) 0)).
Proof.
  split; [|split; [|split]].
  - intros now installation lifecycleInfo channel updates issues i Hrun Hin Hty.
    destruct (detectUpgradeIssues_cases _ _ _ _ _ _ _ Hrun Hin)
      as [[-> _]|[[-> _]|[[-> _]|H]]]; try discriminate Hty.
    destruct H as (maxOCPVersion & nextUpdate & later & H).
    exists maxOCPVersion, nextUpdate, later. tauto.
  - intros now lookup installation channels upgrades u.
    apply detectAvailableUpgrades_compared.
  - intros now am ps path s Hassembled Hgen Hin Hty.
    destruct (generated_operator_steps _ _ _ _ _ Hgen Hin Hty)
      as (op & u & Hop & Hu & Htarget & _ & Hto & _).
    destruct (assembled_compared op u (Hassembled op Hop) Hu) as (H1 & H2 & H3).
    exists op, u. repeat split; assumption.
  - apply findConservativeUpgrade_fallback.
Qed.

(** C5 as stated fails: a component whose installed version does not
    parse, with a warning and one listed upgrade, is given an upgrade
    step by the conservative strategy. *)
Lemma conservative_upgrade_despite_unparsable_version :
  Semver.valid (cleanVersion "unknown") = false
  /\ exists path s,
       generateConservativePath 0 Samples.addMonths Samples.unparsableCurrent
       = Ok (Some path)
       /\ In s (path_steps path)
       /\ step_type s = Operator
       /\ step_target s = "w"
       /\ step_fromVersion s = Some "unknown"
       /\ step_toVersion s = Some "1.2.5".
Proof.
  split; [reflexivity|].
  eexists. eexists. split; [reflexivity|].
  split; [right; left; reflexivity|].
  repeat split.
Qed.

(** ** A platform status the service does not assemble *)

(** C3 as stated fails: on a platform status with one component that
    lists two upgrades, the second with target version [latest], the
    comparison of the two targets throws, the exception leaves the
    aggressive and the conservative strategy and the path generator,
    and the recommendation request fails. *)
Lemma unparsable_target_raises :
  Semver.gt (cleanVersion "latest") (cleanVersion "1.3.0")
  = Throw (TypeError "Invalid Version: latest")
  /\ generateAggressivePath 0 Samples.addMonths Samples.unparsableTarget
     = Throw (TypeError "Invalid Version: latest")
  /\ generateConservativePath 0 Samples.addMonths Samples.unparsableTarget
     = Throw (TypeError "Invalid Version: latest")
  /\ generateUpgradePaths 0 Samples.addMonths Samples.unparsableTarget
     = Throw (TypeError "Invalid Version: latest")
  /\ getUpgradeRecommendations 0 Samples.addMonths (Ok Samples.unparsableTarget)
     = Throw (Error "Failed to generate upgrade recommendations").
Proof. repeat split. Qed.

(** ** Determinism *)

Lemma critical_path_outline now1 am1 now2 am2 ps :
  option_map path_outline (generateCriticalIssuePath now1 am1 ps)
  = option_map path_outline (generateCriticalIssuePath now2 am2 ps).
Proof.
  unfold generateCriticalIssuePath. cbv zeta.
  destruct (List.length (filter _ (ps_operators ps)) =? 0)%nat; reflexivity.
Qed.

Lemma conservative_path_outline now1 am1 now2 am2 ps :
  result_map (option_map path_outline) (generateConservativePath now1 am1 ps)
  = result_map (option_map path_outline) (generateConservativePath now2 am2 ps).
Proof.
  unfold generateConservativePath. cbv zeta.
  destruct (for_each _ _ _) as [st|e]; cbn [bind]; [|reflexivity].
  destruct (List.length (fst st) =? 1)%nat; reflexivity.
Qed.

Lemma aggressive_path_outline now1 am1 now2 am2 ps :
  result_map (option_map path_outline) (generateAggressivePath now1 am1 ps)
  = result_map (option_map path_outline) (generateAggressivePath now2 am2 ps).
Proof.
  unfold generateAggressivePath. cbv zeta.
  destruct (for_each _ _ _) as [st|e]; cbn [bind]; [|reflexivity].
  match goal with
  | |- context [(List.length (fst ?final) =? 1)%nat] =>
      destruct (List.length (fst final) =? 1)%nat; reflexivity
  end.
Qed.

Lemma balanced_path_outline now1 am1 now2 am2 ps :
  result_map (option_map path_outline) (generateBalancedPath now1 am1 ps)
  = result_map (option_map path_outline) (generateBalancedPath now2 am2 ps).
Proof.
  unfold generateBalancedPath. cbv zeta.
  destruct (for_each _ _ _) as [st|e]; cbn [bind]; [|reflexivity].
  match goal with
  | |- context [(List.length (fst ?final) =? 1)%nat] =>
      destruct (List.length (fst final) =? 1)%nat; reflexivity
  end.
Qed.

Lemma push_path_outline paths1 paths2 p1 p2 :
  map path_outline paths1 = map path_outline paths2 ->
  option_map path_outline p1 = option_map path_outline p2 ->
  map path_outline (push_path paths1 p1) = map path_outline (push_path paths2 p2).
Proof.
  intros Hpaths Hp. destruct p1, p2; simpl in Hp; try discriminate; simpl; auto.
  rewrite !map_app. simpl. congruence.
Qed.

Lemma generateUpgradePaths_outline now1 am1 now2 am2 ps :
  result_map (map path_outline) (generateUpgradePaths now1 am1 ps)
  = result_map (map path_outline) (generateUpgradePaths now2 am2 ps).
Proof.
  unfold generateUpgradePaths. cbv zeta.
  pose proof (critical_path_outline now1 am1 now2 am2 ps) as Hcrit.
  pose proof (conservative_path_outline now1 am1 now2 am2 ps) as Hcons.
  pose proof (aggressive_path_outline now1 am1 now2 am2 ps) as Haggr.
  pose proof (balanced_path_outline now1 am1 now2 am2 ps) as Hbal.
  destruct (generateConservativePath now1 am1 ps) as [c1|],
           (generateConservativePath now2 am2 ps) as [c2|];
    simpl in Hcons; try discriminate Hcons; cbn [bind result_map];
    [|congruence].
  destruct (generateAggressivePath now1 am1 ps) as [a1|],
           (generateAggressivePath now2 am2 ps) as [a2|];
    simpl in Haggr; try discriminate Haggr; cbn [bind result_map];
    [|congruence].
  destruct (generateBalancedPath now1 am1 ps) as [b1|],
           (generateBalancedPath now2 am2 ps) as [b2|];
    simpl in Hbal; try discriminate Hbal; cbn [bind result_map];
    [|congruence].
  apply Ok_inj in Hcons, Haggr, Hbal. f_equal.
  repeat apply push_path_outline; auto.
Qed.

Lemma detectUpgradeIssues_ids now1 now2 installation lifecycleInfo channel updates :
  result_map (map issue_id)
    (LifecycleService.detectUpgradeIssues now1 installation lifecycleInfo channel
       updates)
  = result_map (map issue_id)
      (LifecycleService.detectUpgradeIssues now2 installation lifecycleInfo channel
         updates).
Proof.
  unfold LifecycleService.detectUpgradeIssues. cbv zeta.
  destruct (chan_deprecated channel);
    destruct (SupportPhase_eqb (lc_supportPhase lifecycleInfo) MAINTENANCE_SUPPORT);
    destruct (SupportPhase_eqb (lc_supportPhase lifecycleInfo) END_OF_LIFE);
    destruct (lc_maxOCPVersion lifecycleInfo) as [maxOCPVersion|];
    try reflexivity;
    destruct updates as [|nextUpdate later]; try reflexivity;
    destruct (Js.truthy_string maxOCPVersion); try reflexivity;
    destruct (Semver.valid (LifecycleService.extractVersionFromUpdate nextUpdate)
              && Semver.valid maxOCPVersion); try reflexivity;
    destruct (Semver.gt (LifecycleService.extractVersionFromUpdate nextUpdate)
                maxOCPVersion) as [[]|]; reflexivity.
Qed.

(** C7, as the code has it.  The ids and the step sequences of the
    generated paths do not depend on the clock, nor do the ids of the
    detected issues; the id of an issue is determined by the component
    name together with the kind and the severity of the issue (the two
    lifecycle rules share the kind [lifecycle-expiring] and differ in
    severity and in id). *)
Theorem generation_and_detection_deterministic :
  (forall now1 am1 now2 am2 ps,
      result_map (map path_outline) (generateUpgradePaths now1 am1 ps)
      = result_map (map path_outline) (generateUpgradePaths now2 am2 ps))
  /\ (forall now1 now2 installation lifecycleInfo channel updates,
         result_map (map issue_id)
           (LifecycleService.detectUpgradeIssues now1 installation lifecycleInfo
              channel updates)
         = result_map (map issue_id)
             (LifecycleService.detectUpgradeIssues now2 installation lifecycleInfo
                channel updates))
  /\ (forall now installation lifecycleInfo channel updates issues i,
         LifecycleService.detectUpgradeIssues now installation lifecycleInfo
           channel updates = Ok issues ->
         In i issues ->
         issue_operatorName i = inst_name installation
         /\ exists suffix,
              issue_suffix (issue_type i) (issue_severity i) = Some suffix
              /\ issue_id i = (inst_name installation ++ suffix)%string).
Proof.
  split; [|split].
  - apply generateUpgradePaths_outline.
  - apply detectUpgradeIssues_ids.
  - intros now installation lifecycleInfo channel updates issues i Hrun Hin.
    destruct (detectUpgradeIssues_cases _ _ _ _ _ _ _ Hrun Hin)
      as [[-> _]|[[-> _]|[[-> _]|H]]];
      try (split; [reflexivity|eexists; split; reflexivity]).
    destruct H as (maxOCPVersion & nextUpdate & later & _ & _ & _ & _ & _ & ->).
    split; [reflexivity|eexists; split; reflexivity].
Qed.

(** C7 as stated fails: a component in maintenance support and the same
    component at end of life get issues of the same kind under the same
    name, with different ids. *)
Lemma issue_id_not_from_name_and_kind : ~ ids_from_name_and_kind.
Proof.
  intros (f & Hf).
  pose (installation := Samples.installation "z" "1.2.0").
  pose (channel := Samples.channel "stable" "z.v1.2.0" false).
  assert (Hmaint :
    issue_id (LifecycleService.maintenanceIssue 0 installation)
    = f "z" LIFECYCLE_EXPIRING).
  { apply (Hf 0 installation
              (Samples.lifecycle "z" "1.2.0" MAINTENANCE_SUPPORT None)
              channel [] [LifecycleService.maintenanceIssue 0 installation]);
      [reflexivity|left; reflexivity]. }
  assert (Heol :
    issue_id (LifecycleService.eolIssue 0 installation)
    = f "z" LIFECYCLE_EXPIRING).
  { apply (Hf 0 installation
              (Samples.lifecycle "z" "1.2.0" END_OF_LIFE None)
              channel [] [LifecycleService.eolIssue 0 installation]);
      [reflexivity|left; reflexivity]. }
  rewrite <- Heol in Hmaint. discriminate Hmaint.
Qed.

(** ** Maintenance windows *)

(** C6, at the snapshot the lifecycle service builds, at time 0, for
    one component with a patch upgrade whose maintenance support ends
    one hour later: the support expires in 0 days, an aggressive path
    is generated, and the scheduler emits no window. *)
Theorem no_lifecycle_window_at_zero_days :
  exists st paths aggressive,
    LifecycleService.getOperatorStatus 0 (Samples.expiringLookup 3600000)
      (Samples.installation "x" "x.v1.2.0")
      [Samples.channel "stable" "x.v1.2.5" false] [] = Some st
    /\ ps_supportExpiresIn
         (LifecycleService.getPlatformStatus 0 (Samples.cluster []) [st])
       = Some 0
    /\ generateUpgradePaths 0 Samples.addMonths
         (LifecycleService.getPlatformStatus 0 (Samples.cluster []) [st])
       = Ok paths
    /\ find_path "aggressive-path" paths = Some aggressive
    /\ generateMaintenanceWindows 0
         (LifecycleService.getPlatformStatus 0 (Samples.cluster []) [st]) paths
       = [].
Proof.
  eexists. eexists. eexists. split; [reflexivity|]. split; [reflexivity|].
  split; [reflexivity|]. split; reflexivity.
Qed.

(** ** The lifecycle-driven window *)

(** When the support expiry is defined, not zero and below 90 days, and
    an aggressive path was generated, the scheduler emits the
    high-priority lifecycle window, dated 14 days from now, for that
    path, and its reason names the number of days. *)
Theorem lifecycle_window_for_nonzero_days :
  forall now ps paths days aggressive,
    ps_supportExpiresIn ps = Some days ->
    days <> 0 -> days < 90 ->
    find_path "aggressive-path" paths = Some aggressive ->
    exists w,
      In w (generateMaintenanceWindows now ps paths)
      /\ win_id w = "lifecycle-maintenance"
      /\ win_priority w = High
      /\ win_recommendedDate w = now + 14 * 24 * 60 * 60 * 1000
      /\ win_reason w
         = ("Platform support expires in " ++ Js.number_to_string days ++ " days")%string
      /\ win_upgradePath w = aggressive.
Proof.
  intros now ps paths days aggressive Hdays Hnz Hlt Hpath.
  unfold generateMaintenanceWindows. cbv zeta.
  rewrite Hdays, Hpath. cbn [Js.truthy_opt_number option_map Js.template].
  apply Z.eqb_neq in Hnz. apply Z.ltb_lt in Hlt. rewrite Hnz, Hlt.
  cbn [negb andb].
  eexists. split; [apply in_or_app; right; left; reflexivity|].
  repeat split.
Qed.

(** ** Order of the maintenance windows *)

(** The scheduler emits at most three windows, always in the order
    immediate, regular, lifecycle: the immediate one when the platform
    counts a critical issue and a critical-issues path exists, the
    regular one when a balanced path exists, the lifecycle one when the
    support expiry is a number other than 0 below 90 and an aggressive
    path exists.  The regular window has high priority exactly when the
    platform counts a critical issue. *)
Theorem maintenance_windows_in_fixed_order :
  forall now ps paths,
    map win_id (generateMaintenanceWindows now ps paths)
    = (if (0 <? ps_criticalIssues ps)
          && present (find_path "critical-issues-path" paths)
       then ["immediate-window"] else [])
      ++ (if present (find_path "balanced-path" paths)
          then ["regular-maintenance"] else [])
      ++ (if expires_soon ps && present (find_path "aggressive-path" paths)
          then ["lifecycle-maintenance"] else [])
    /\ forall w,
         In w (generateMaintenanceWindows now ps paths) ->
         win_id w = "regular-maintenance" ->
         win_priority w = (if 0 <? ps_criticalIssues ps then High else Medium).
Proof.
  intros now ps paths. unfold generateMaintenanceWindows, expires_soon. cbv zeta.
  destruct (0 <? ps_criticalIssues ps);
    destruct (find_path "critical-issues-path" paths);
    destruct (find_path "balanced-path" paths);
    destruct (ps_supportExpiresIn ps) as [days|];
    cbn [Js.truthy_opt_number andb present];
    try destruct (negb (days =? 0)); try destruct (days <? 90);
    cbn [andb];
    destruct (find_path "aggressive-path" paths);
    (split; [reflexivity|]);
    cbn [app In]; intros w Hin Hid;
    repeat (destruct Hin as [<-|Hin]; [try reflexivity; discriminate Hid|]);
    contradiction.
Qed.

(** ** Components of the paths *)

Lemma components_push st step :
  components (push st step)
  = components st
    ++ (if StepType_eqb (step_type (step (snd st))) Verification then []
        else [step_target (step (snd st))]).
Proof.
  unfold components, push. cbn [fst].
  rewrite filter_app, map_app. cbn [filter].
  destruct (StepType_eqb (step_type (step (snd st))) Verification); reflexivity.
Qed.

Lemma components_push_operator st op u d p r :
  components (push st (operatorStep op u d p r)) = components st ++ [operator_name op].
Proof. rewrite components_push. reflexivity. Qed.

Lemma components_push_cluster st ps v d p r :
  components (push st (clusterStep ps v d p r))
  = components st ++ ["OpenShift Cluster"].
Proof. rewrite components_push. reflexivity. Qed.

Lemma components_cluster_part st ps v d p r :
  components
    (if (0 <? List.length (cv_availableUpdates (ps_cluster ps)))%nat
     then push st (clusterStep ps v d p r) else st)
  = components st ++ platform_component ps.
Proof.
  unfold platform_component.
  destruct (0 <? List.length (cv_availableUpdates (ps_cluster ps)))%nat.
  - apply components_push_cluster.
  - now rewrite app_nil_r.
Qed.

(** A loop that pushes one operator step for each operator that passes
    a test adds the names of those operators, in order. *)
Lemma for_each_components (body : Steps -> OperatorStatus -> result Steps)
    (test : OperatorStatus -> bool) (ops : list OperatorStatus) :
  (forall st op st', body st op = Ok st' ->
     components st' = components st ++ (if test op then [operator_name op] else [])) ->
  forall st st',
    for_each body ops st = Ok st' ->
    components st' = components st ++ map operator_name (filter test ops).
Proof.
  intros Hbody. induction ops as [|op ops IH]; simpl; intros st st' Hrun.
  - apply Ok_inj in Hrun. subst st'. now rewrite app_nil_r.
  - destruct (body st op) as [st1|] eqn:Hb; cbn [bind] in Hrun; [|discriminate].
    rewrite (IH _ _ Hrun), (Hbody _ _ _ Hb), <- app_assoc.
    destruct (test op); reflexivity.
Qed.

Lemma fold_left_components (body : Steps -> OperatorStatus -> Steps)
    (test : OperatorStatus -> bool) (ops : list OperatorStatus) :
  (forall st op,
     components (body st op)
     = components st ++ (if test op then [operator_name op] else [])) ->
  forall st,
    components (fold_left body ops st)
    = components st ++ map operator_name (filter test ops).
Proof.
  intros Hbody. induction ops as [|op ops IH]; simpl; intros st.
  - now rewrite app_nil_r.
  - rewrite IH, Hbody, <- app_assoc. destruct (test op); reflexivity.
Qed.

Lemma filter_filter {A} (f g : A -> bool) (l : list A) :
  filter f (filter g l) = filter (fun x => g x && f x) l.
Proof.
  induction l as [|a l IH]; simpl; [reflexivity|].
  destruct (g a); simpl; [destruct (f a)|]; now rewrite IH.
Qed.

Lemma has_upgrade_nth op :
  has_upgrade op = match nth_error (op_availableUpgrades op) 0 with
                   | Some _ => true
                   | None => false
                   end.
Proof. unfold has_upgrade. now destruct (op_availableUpgrades op). Qed.

Lemma findConservativeUpgrade_some op o :
  findConservativeUpgrade op = Ok o ->
  has_upgrade op = match o with Some _ => true | None => false end.
Proof.
  unfold findConservativeUpgrade, has_upgrade. cbv zeta.
  destruct (op_availableUpgrades op) as [|first rest] eqn:Hups.
  - simpl. now intros [= <-].
  - cbn [List.length Nat.eqb Nat.ltb Nat.leb].
    destruct (Semver.parse _).
    + intros H. bind_inv H as chosen E. now injection H as <-.
    + simpl. now intros [= <-].
Qed.

Lemma findBalancedUpgrade_some op :
  has_upgrade op = true -> exists u, findBalancedUpgrade op = Some u.
Proof.
  unfold findBalancedUpgrade, has_upgrade. cbv zeta. intros Hlen.
  apply Nat.ltb_lt in Hlen.
  destruct (List.length (op_availableUpgrades op) =? 0)%nat eqn:Hz;
    [apply Nat.eqb_eq in Hz; lia|].
  match goal with
  | |- context [(0 <? List.length ?l)%nat] =>
      destruct (0 <? List.length l)%nat eqn:Hs
  end.
  - apply Nat.ltb_lt in Hs.
    match goal with |- exists u, nth_error ?l ?k = Some u =>
      destruct (nth_error l k) eqn:Hn; [eauto|apply nth_error_None in Hn; lia]
    end.
  - match goal with |- exists u, nth_error ?l ?k = Some u =>
      destruct (nth_error l k) eqn:Hn; [eauto|]
    end.
    apply nth_error_None in Hn.
    pose proof (Nat.div_lt (List.length (op_availableUpgrades op)) 2). lia.
Qed.

Lemma one_verification_start d p :
  one_verification (push ([], 1) (verificationStep d p)).
Proof. reflexivity. Qed.

Lemma one_verification_operator st op u d p r :
  one_verification st -> one_verification (push st (operatorStep op u d p r)).
Proof.
  unfold one_verification. intros H. rewrite components_push_operator.
  unfold push. cbn [fst]. rewrite !length_app, H. simpl. lia.
Qed.

Lemma one_verification_cluster_part st ps v d p r :
  one_verification st ->
  one_verification
    (if (0 <? List.length (cv_availableUpdates (ps_cluster ps)))%nat
     then push st (clusterStep ps v d p r) else st).
Proof.
  intros H. destruct (0 <? List.length (cv_availableUpdates (ps_cluster ps)))%nat;
    [|assumption].
  unfold one_verification in *. rewrite components_push_cluster.
  unfold push. cbn [fst]. rewrite !length_app, H. simpl. lia.
Qed.

Lemma critical_path_components now am ps path :
  generateCriticalIssuePath now am ps = Some path ->
  extractAffectedComponents path = critical_components ps.
Proof.
  unfold generateCriticalIssuePath. cbv zeta.
  destruct (List.length (filter _ (ps_operators ps)) =? 0)%nat; [discriminate|].
  intros H. apply Some_inj in H. subst path.
  unfold extractAffectedComponents. cbv beta iota delta [path_steps].
  match goal with
  | |- map step_target (filter ?f (fst ?st)) = _ => change (components st = critical_components ps)
  end.
  rewrite components_cluster_part.
  rewrite (fold_left_components _ has_upgrade).
  - unfold critical_components, names_of. rewrite filter_filter. reflexivity.
  - intros st op. rewrite has_upgrade_nth.
    destruct (nth_error (op_availableUpgrades op) 0).
    + apply components_push_operator.
    + now rewrite app_nil_r.
Qed.

Lemma path_touching_final (st : Steps) (comps : list string) (path : UpgradePath) r :
  path_steps path = fst st ->
  one_verification st ->
  components st = comps ->
  (if (List.length (fst st) =? 1)%nat then Ok None else Ok (Some path)) = Ok r ->
  path_touching comps r.
Proof.
  unfold one_verification. intros Hsteps Hlen Hcomps H.
  destruct (List.length (fst st) =? 1)%nat eqn:Hone; apply Ok_inj in H; subst r; simpl.
  - apply Nat.eqb_eq in Hone. rewrite Hone in Hlen.
    rewrite <- Hcomps. destruct (components st); [reflexivity|simpl in Hlen; lia].
  - apply Nat.eqb_neq in Hone. unfold extractAffectedComponents. rewrite Hsteps.
    fold (components st). split; [assumption|].
    rewrite <- Hcomps. intros Hnil. rewrite Hnil in Hlen. simpl in Hlen. lia.
Qed.

Lemma conservative_path_components now am ps r :
  generateConservativePath now am ps = Ok r ->
  path_touching (conservative_components ps) r.
Proof.
  unfold generateConservativePath. cbv zeta. intros H.
  bind_inv H as st Hloop.
  refine (path_touching_final st _ _ r _ _ _ H); [reflexivity| |].
  - eapply for_each_invariant; [| |exact Hloop].
    + intros st0 op st' _ Hst Hbody. cbv beta in Hbody.
      bind_inv Hbody as chosen Hfind.
      destruct chosen as [u|]; apply Ok_inj in Hbody; subst st'; [|assumption].
      now apply one_verification_operator.
    + apply one_verification_start.
  - rewrite (fun Hb => for_each_components _ has_upgrade _ Hb _ _ Hloop).
    + unfold conservative_components, names_of. now rewrite filter_filter.
    + intros st0 op st' Hbody. cbv beta in Hbody.
      bind_inv Hbody as chosen Hfind.
      rewrite (findConservativeUpgrade_some _ _ Hfind).
      destruct chosen as [u|]; apply Ok_inj in Hbody; subst st'.
      * apply components_push_operator.
      * now rewrite app_nil_r.
Qed.

Lemma aggressive_path_components now am ps r :
  generateAggressivePath now am ps = Ok r ->
  path_touching (aggressive_components ps) r.
Proof.
  unfold generateAggressivePath. cbv zeta. intros H.
  bind_inv H as st Hloop.
  match type of H with
  | (if (List.length (fst ?final) =? 1)%nat then _ else _) = _ =>
      refine (path_touching_final final _ _ r _ _ _ H); [reflexivity| |]
  end.
  - apply one_verification_cluster_part.
    eapply for_each_invariant; [| |exact Hloop].
    + intros st0 op st' _ Hst Hbody. cbv beta in Hbody.
      destruct (0 <? List.length (op_availableUpgrades op))%nat;
        [|apply Ok_inj in Hbody; subst st'; assumption].
      bind_inv Hbody as u Hlatest. apply Ok_inj in Hbody; subst st'.
      now apply one_verification_operator.
    + apply one_verification_start.
  - rewrite components_cluster_part.
    rewrite (fun Hb => for_each_components _ has_upgrade _ Hb _ _ Hloop); [reflexivity|].
    intros st0 op st' Hbody. cbv beta in Hbody. unfold has_upgrade.
    destruct (0 <? List.length (op_availableUpgrades op))%nat.
    + bind_inv Hbody as u Hlatest. apply Ok_inj in Hbody; subst st'.
      apply components_push_operator.
    + apply Ok_inj in Hbody; subst st'. now rewrite app_nil_r.
Qed.

Lemma balanced_should_upgrade op b :
  (if (0 <? List.length (op_issues op))%nat then Ok true
   else isSignificantlyOutdated op) = Ok b ->
  b = has_issue op || outdated op.
Proof.
  unfold has_issue, outdated.
  destruct (0 <? List.length (op_issues op))%nat.
  - now intros [= <-].
  - intros ->. reflexivity.
Qed.

Lemma balanced_path_components now am ps r :
  generateBalancedPath now am ps = Ok r ->
  path_touching (balanced_components ps) r.
Proof.
  unfold generateBalancedPath. cbv zeta. intros H.
  bind_inv H as st Hloop.
  match type of H with
  | (if (List.length (fst ?final) =? 1)%nat then _ else _) = _ =>
      refine (path_touching_final final _ _ r _ _ _ H); [reflexivity| |]
  end.
  - apply one_verification_cluster_part.
    eapply for_each_invariant; [| |exact Hloop].
    + intros st0 op st' _ Hst Hbody. cbv beta in Hbody.
      bind_inv Hbody as should Hshould.
      destruct (should && (0 <? List.length (op_availableUpgrades op))%nat);
        [|apply Ok_inj in Hbody; subst st'; assumption].
      destruct (findBalancedUpgrade op);
        apply Ok_inj in Hbody; subst st'; [|assumption].
      now apply one_verification_operator.
    + apply one_verification_start.
  - rewrite components_cluster_part.
    rewrite (fun Hb =>
               for_each_components _
                 (fun op => (has_issue op || outdated op) && has_upgrade op)
                 _ Hb _ _ Hloop); [reflexivity|].
    intros st0 op st' Hbody. cbv beta in Hbody.
    bind_inv Hbody as should Hshould.
    apply balanced_should_upgrade in Hshould. subst should.
    fold (has_upgrade op) in Hbody.
    destruct ((has_issue op || outdated op) && has_upgrade op) eqn:Htest.
    + apply andb_prop in Htest. destruct Htest as [_ Hup].
      destruct (findBalancedUpgrade_some op Hup) as (u & Hu). rewrite Hu in Hbody.
      apply Ok_inj in Hbody; subst st'. apply components_push_operator.
    + apply Ok_inj in Hbody; subst st'. now rewrite app_nil_r.
Qed.

(** The components each strategy touches, in the order of the platform
    status.  The critical-issues path touches the operators with a
    critical issue, the conservative path those with a warning, the
    balanced path those with any issue or significantly outdated, the
    aggressive path all operators, in each case only those with a listed
    upgrade; every path but the conservative one then touches the
    cluster when the cluster has an available update.  The conservative,
    aggressive and balanced paths are produced exactly when they touch a
    component. *)
Theorem strategies_touch_components :
  forall now am ps,
    (forall path,
        generateCriticalIssuePath now am ps = Some path ->
        extractAffectedComponents path
        = names_of (fun op => has_issue_of CRITICAL op && has_upgrade op) ps
          ++ platform_component ps)
    /\ (forall r,
           generateConservativePath now am ps = Ok r ->
           path_touching
             (names_of (fun op => has_issue_of WARNING op && has_upgrade op) ps) r)
    /\ (forall r,
           generateAggressivePath now am ps = Ok r ->
           path_touching (names_of has_upgrade ps ++ platform_component ps) r)
    /\ (forall r,
           generateBalancedPath now am ps = Ok r ->
           path_touching
             (names_of (fun op => (has_issue op || outdated op) && has_upgrade op) ps
              ++ platform_component ps) r).
Proof.
  intros now am ps. split; [|split; [|split]].
  - apply critical_path_components.
  - apply conservative_path_components.
  - apply aggressive_path_components.
  - apply balanced_path_components.
Qed.

(** ** Paths by id, and their nesting *)

Lemma critical_path_id now am ps path :
  generateCriticalIssuePath now am ps = Some path ->
  path_id path = "critical-issues-path".
Proof.
  unfold generateCriticalIssuePath. cbv zeta.
  destruct (List.length (filter _ (ps_operators ps)) =? 0)%nat; [discriminate|].
  intros H. apply Some_inj in H. now subst path.
Qed.

Lemma conservative_path_id now am ps path :
  generateConservativePath now am ps = Ok (Some path) ->
  path_id path = "conservative-path".
Proof.
  unfold generateConservativePath. cbv zeta. intros H.
  bind_inv H as st Hloop.
  destruct (List.length (fst st) =? 1)%nat; [discriminate|].
  apply Ok_inj, Some_inj in H. now subst path.
Qed.

Lemma aggressive_path_id now am ps path :
  generateAggressivePath now am ps = Ok (Some path) ->
  path_id path = "aggressive-path".
Proof.
  unfold generateAggressivePath. cbv zeta. intros H.
  bind_inv H as st Hloop.
  match type of H with
  | (if ?c then _ else _) = _ => destruct c; [discriminate|]
  end.
  apply Ok_inj, Some_inj in H. now subst path.
Qed.

Lemma balanced_path_id now am ps path :
  generateBalancedPath now am ps = Ok (Some path) ->
  path_id path = "balanced-path".
Proof.
  unfold generateBalancedPath. cbv zeta. intros H.
  bind_inv H as st Hloop.
  match type of H with
  | (if ?c then _ else _) = _ => destruct c; [discriminate|]
  end.
  apply Ok_inj, Some_inj in H. now subst path.
Qed.

Lemma generateUpgradePaths_listed now am ps paths :
  generateUpgradePaths now am ps = Ok paths ->
  exists k a b,
    generateConservativePath now am ps = Ok k
    /\ generateAggressivePath now am ps = Ok a
    /\ generateBalancedPath now am ps = Ok b
    /\ paths = listed (generateCriticalIssuePath now am ps) ++ listed k
               ++ listed a ++ listed b.
Proof.
  unfold generateUpgradePaths. cbv zeta. intros H.
  bind_inv H as k Hk. bind_inv H as a Ha. bind_inv H as b Hb.
  apply Ok_inj in H. subst paths. exists k, a, b.
  repeat split.
  destruct (generateCriticalIssuePath now am ps), k, a, b; reflexivity.
Qed.

Lemma generated_ids now am ps paths :
  generateUpgradePaths now am ps = Ok paths ->
  exists c k a b : bool,
    map path_id paths
    = (if c then ["critical-issues-path"] else [])
      ++ (if k then ["conservative-path"] else [])
      ++ (if a then ["aggressive-path"] else [])
      ++ (if b then ["balanced-path"] else [])
    /\ find_path "critical-issues-path" paths = generateCriticalIssuePath now am ps
    /\ Ok (find_path "conservative-path" paths) = generateConservativePath now am ps
    /\ Ok (find_path "aggressive-path" paths) = generateAggressivePath now am ps
    /\ Ok (find_path "balanced-path" paths) = generateBalancedPath now am ps.
Proof.
  intros H. destruct (generateUpgradePaths_listed _ _ _ _ H)
    as (k & a & b & Hk & Ha & Hb & ->).
  rewrite Hk, Ha, Hb.
  destruct (generateCriticalIssuePath now am ps) as [pc|] eqn:Hc;
    [apply critical_path_id in Hc|];
    (destruct k as [pk|]; [apply conservative_path_id in Hk|]);
    (destruct a as [pa|]; [apply aggressive_path_id in Ha|]);
    (destruct b as [pb|]; [apply balanced_path_id in Hb|]);
    unfold find_path; cbn [listed app map find];
    repeat match goal with H : path_id _ = _ |- _ => rewrite H; clear H end;
    cbn [String.eqb Ascii.eqb Bool.eqb];
    match goal with
    | |- exists c k a b : bool, ?l = _ /\ _ =>
        exists (existsb (String.eqb "critical-issues-path") l),
               (existsb (String.eqb "conservative-path") l),
               (existsb (String.eqb "aggressive-path") l),
               (existsb (String.eqb "balanced-path") l)
    end;
    repeat split.
Qed.

Lemma names_of_incl (f g : OperatorStatus -> bool) ps :
  (forall op, f op = true -> g op = true) ->
  incl (names_of f ps) (names_of g ps).
Proof.
  intros Hfg name Hin. unfold names_of in *.
  apply in_map_iff in Hin. destruct Hin as (op & Hname & Hin).
  apply filter_In in Hin. destruct Hin as [Hin Hf].
  apply in_map_iff. exists op. split; [assumption|].
  apply filter_In. auto.
Qed.

Lemma has_issue_of_has_issue sev op : has_issue_of sev op = true -> has_issue op = true.
Proof.
  unfold has_issue_of, has_issue. destruct (op_issues op); [discriminate|reflexivity].
Qed.

Lemma conservative_in_balanced ps :
  incl (conservative_components ps) (balanced_components ps).
Proof.
  unfold conservative_components, balanced_components.
  apply incl_appl, names_of_incl. intros op H.
  apply andb_prop in H. destruct H as [Hw Hu].
  now rewrite (has_issue_of_has_issue _ _ Hw), Hu.
Qed.

Lemma critical_in_balanced ps :
  incl (critical_components ps) (balanced_components ps).
Proof.
  unfold critical_components, balanced_components.
  apply incl_app; [apply incl_appl|apply incl_appr, incl_refl].
  apply names_of_incl. intros op H.
  apply andb_prop in H. destruct H as [Hw Hu].
  now rewrite (has_issue_of_has_issue _ _ Hw), Hu.
Qed.

Lemma balanced_in_aggressive ps :
  incl (balanced_components ps) (aggressive_components ps).
Proof.
  unfold balanced_components, aggressive_components.
  apply incl_app; [apply incl_appl|apply incl_appr, incl_refl].
  apply names_of_incl. intros op H.
  apply andb_prop in H. tauto.
Qed.

Lemma incl_nonempty {A} (l m : list A) : incl l m -> l <> [] -> m <> [].
Proof.
  intros Hincl Hne ->. destruct l as [|a l]; [congruence|].
  exact (Hincl a (or_introl eq_refl)).
Qed.

(** A strategy whose components are not empty returns a path. *)
Lemma path_touching_some comps r :
  path_touching comps r -> comps <> [] ->
  exists path, r = Some path /\ extractAffectedComponents path = comps.
Proof.
  destruct r as [path|]; simpl.
  - intros [H _] _. eauto.
  - congruence.
Qed.

Lemma path_touching_components comps path :
  path_touching comps (Some path) ->
  extractAffectedComponents path = comps /\ comps <> [].
Proof. trivial. Qed.

(** The paths are listed in one fixed order under four distinct ids,
    and the look-up by id the window scheduler uses finds the path of
    the strategy. *)
Theorem recommended_paths_by_id :
  forall now am ps paths,
    generateUpgradePaths now am ps = Ok paths ->
    (exists c k a b : bool,
        map path_id paths
        = (if c then ["critical-issues-path"] else [])
          ++ (if k then ["conservative-path"] else [])
          ++ (if a then ["aggressive-path"] else [])
          ++ (if b then ["balanced-path"] else []))
    /\ find_path "critical-issues-path" paths = generateCriticalIssuePath now am ps
    /\ Ok (find_path "conservative-path" paths) = generateConservativePath now am ps
    /\ Ok (find_path "aggressive-path" paths) = generateAggressivePath now am ps
    /\ Ok (find_path "balanced-path" paths) = generateBalancedPath now am ps.
Proof.
  intros now am ps paths H.
  destruct (generated_ids _ _ _ _ H) as (c & k & a & b & Hids & Hfind).
  split; [exists c, k, a, b; exact Hids|exact Hfind].
Qed.

(** The strategies are nested: whenever the conservative path is
    recommended, so is the balanced one, and it touches every component
    the conservative path touches; the same holds from a critical-issues
    path that touches a component to the balanced path, and from the
    balanced path to the aggressive one. *)
Theorem strategies_are_nested :
  forall now am ps paths,
    generateUpgradePaths now am ps = Ok paths ->
    (forall conservative,
        find_path "conservative-path" paths = Some conservative ->
        exists balanced,
          find_path "balanced-path" paths = Some balanced
          /\ incl (extractAffectedComponents conservative)
                  (extractAffectedComponents balanced))
    /\ (forall critical,
           find_path "critical-issues-path" paths = Some critical ->
           extractAffectedComponents critical <> [] ->
           exists balanced,
             find_path "balanced-path" paths = Some balanced
             /\ incl (extractAffectedComponents critical)
                     (extractAffectedComponents balanced))
    /\ (forall balanced,
           find_path "balanced-path" paths = Some balanced ->
           exists aggressive,
             find_path "aggressive-path" paths = Some aggressive
             /\ incl (extractAffectedComponents balanced)
                     (extractAffectedComponents aggressive)).
Proof.
  intros now am ps paths H.
  destruct (generated_ids _ _ _ _ H) as (_ & _ & _ & _ & _ & Hc & Hk & Ha & Hb).
  symmetry in Hk, Ha, Hb.
  apply conservative_path_components in Hk.
  apply aggressive_path_components in Ha.
  apply balanced_path_components in Hb.
  split; [|split].
  - intros conservative Hfind. rewrite Hfind in Hk.
    destruct Hk as [Hcomp Hne].
    pose proof (conservative_in_balanced ps) as Hincl.
    destruct (path_touching_some _ _ Hb (incl_nonempty _ _ Hincl Hne))
      as (balanced & -> & Hbal).
    exists balanced. split; [reflexivity|]. now rewrite Hcomp, Hbal.
  - intros critical Hfind Hne. rewrite Hfind in Hc. symmetry in Hc.
    apply critical_path_components in Hc.
    pose proof (critical_in_balanced ps) as Hincl.
    rewrite Hc in Hne.
    destruct (path_touching_some _ _ Hb (incl_nonempty _ _ Hincl Hne))
      as (balanced & -> & Hbal).
    exists balanced. split; [reflexivity|]. now rewrite Hc, Hbal.
  - intros balanced Hfind. rewrite Hfind in Hb.
    destruct Hb as [Hcomp Hne].
    pose proof (balanced_in_aggressive ps) as Hincl.
    destruct (path_touching_some _ _ Ha (incl_nonempty _ _ Hincl Hne))
      as (aggressive & -> & Hagg).
    exists aggressive. split; [reflexivity|]. now rewrite Hcomp, Hagg.
Qed.

(** ** Estimate of a generated path *)

Lemma count_type_app ty steps step :
  count_type ty (steps ++ [step])
  = count_type ty steps + (if StepType_eqb (step_type step) ty then 1 else 0).
Proof.
  unfold count_type. rewrite filter_app, length_app. cbn [filter].
  destruct (StepType_eqb (step_type step) ty); simpl; lia.
Qed.

Lemma count_type_bound ty (steps : list UpgradeStep) :
  0 <= count_type ty steps <= Z.of_nat (List.length steps).
Proof.
  unfold count_type.
  pose proof (filter_length_le (fun s => StepType_eqb (step_type s) ty) steps).
  lia.
Qed.

Lemma array_app {A} (l : list A) (a : A) : array (l ++ [a]) -> array l.
Proof. unfold array. rewrite length_app. cbn [List.length]. lia. Qed.

(** The sum of two numbers of minutes that stays below 2^53 is exact. *)
Lemma add_exact (x y : Z) :
  0 <= x -> 0 <= y -> x + y <= 2 ^ 53 ->
  Js.add (Js.Finite x) (Js.Finite y) = Js.Finite (x + y).
Proof.
  intros Hx Hy Hsum. cbn [Js.add]. apply double_small. rewrite Z.abs_eq; lia.
Qed.

Lemma built_minutes ps st :
  built ps st -> array (fst st) ->
  totalMinutes (fst st) = Js.Finite (15 + 20 * count_type Operator (fst st))
  /\ count_type Cluster (fst st) = 0.
Proof.
  induction 1 as [d p|st op u d p r Hst IH Hop Hu]; intros Harray.
  - split; reflexivity.
  - unfold push in *. cbn [fst] in *.
    destruct (IH (array_app _ _ Harray)) as [IHm IHc].
    rewrite totalMinutes_app, !count_type_app, IHm, IHc.
    split; [|reflexivity].
    change (stepMinutes (operatorStep op u d p r (snd st))) with (Js.Finite 20).
    pose proof (count_type_bound Operator (fst st)) as Hcount.
    unfold array in Harray. rewrite length_app in Harray.
    cbn [List.length] in Harray.
    rewrite add_exact by lia.
    cbn [step_type operatorStep StepType_eqb]. f_equal. lia.
Qed.

Lemma finished_minutes ps target st :
  finished ps target st -> array (fst st) ->
  totalMinutes (fst st)
  = Js.Finite
      (15 + 20 * count_type Operator (fst st) + 90 * count_type Cluster (fst st))
  /\ 0 <= count_type Cluster (fst st) <= 1.
Proof.
  destruct 1 as [target st Hst|pick st d p r Hst Hne]; intros Harray.
  - destruct (built_minutes ps st Hst Harray) as [Hm Hc].
    rewrite Hm, Hc. split; [f_equal|]; lia.
  - unfold push in *. cbn [fst] in *.
    destruct (built_minutes ps st Hst (array_app _ _ Harray)) as [Hm Hc].
    rewrite totalMinutes_app, !count_type_app, Hm, Hc.
    match goal with
    | |- context [stepMinutes ?s] => change (stepMinutes s) with (Js.Finite 90)
    end.
    pose proof (count_type_bound Operator (fst st)) as Hcount.
    unfold array in Harray. rewrite length_app in Harray.
    cbn [List.length] in Harray.
    rewrite add_exact by lia.
    cbn [step_type clusterStep StepType_eqb].
    split; [f_equal|]; lia.
Qed.

Lemma generated_duration now am ps path :
  generated now am ps path ->
  path_estimatedDuration path = calculateTotalDuration (path_steps path).
Proof.
  intros [H|[H|[H|H]]].
  - unfold generateCriticalIssuePath in H. cbv zeta in H.
    destruct (List.length (filter _ (ps_operators ps)) =? 0)%nat; [discriminate|].
    apply Some_inj in H. now subst path.
  - unfold generateConservativePath in H. cbv zeta in H.
    bind_inv H as st Hloop.
    destruct (List.length (fst st) =? 1)%nat; [discriminate|].
    apply Ok_inj, Some_inj in H. now subst path.
  - unfold generateAggressivePath in H. cbv zeta in H.
    bind_inv H as st Hloop.
    match type of H with
    | (if ?c then _ else _) = _ => destruct c; [discriminate|]
    end.
    apply Ok_inj, Some_inj in H. now subst path.
  - unfold generateBalancedPath in H. cbv zeta in H.
    bind_inv H as st Hloop.
    match type of H with
    | (if ?c then _ else _) = _ => destruct c; [discriminate|]
    end.
    apply Ok_inj, Some_inj in H. now subst path.
Qed.

(** The estimate of a generated path: 15 minutes for the verification
    step, 20 for each operator step and 90 for the platform step, of
    which there is at most one; the estimated duration of the path
    renders that number of minutes.  The steps are a JavaScript array,
    of fewer than 2^32 elements, so that the sum is exact. *)
Theorem estimated_duration_of_generated_path :
  forall now am ps path,
    generated now am ps path ->
    array (path_steps path) ->
    let operators := count_type Operator (path_steps path) in
    let platform := count_type Cluster (path_steps path) in
    totalMinutes (path_steps path)
    = Js.Finite (15 + 20 * operators + 90 * platform)
    /\ path_estimatedDuration path
       = rendered_minutes (15 + 20 * operators + 90 * platform)
    /\ 0 <= platform <= 1.
Proof.
  intros now am ps path Hgen Harray. cbv zeta.
  rewrite (generated_duration _ _ _ _ Hgen).
  destruct (generated_finished _ _ _ _ Hgen) as (target & st & Hst & Hsteps).
  rewrite Hsteps in *.
  destruct (finished_minutes _ _ _ Hst Harray) as [Hm Hc].
  split; [exact Hm|]. split; [|exact Hc].
  apply calculateTotalDuration_rendered; [exact Hm|].
  pose proof (count_type_bound Operator (fst st)) as Hcount.
  unfold array in Harray. lia.
Qed.

(** ** Balanced selection *)

Lemma nth_error_last_filter {A} (f : A -> bool) (l : list A) (a : A) :
  nth_error (filter f l) (List.length (filter f l) - 1) = Some a ->
  f a = true
  /\ exists before after,
       l = before ++ a :: after /\ forallb (fun x => negb (f x)) after = true.
Proof.
  induction l as [|x l IH] using rev_ind; [discriminate|].
  rewrite filter_app. cbn [filter]. destruct (f x) eqn:Hx.
  - rewrite length_app. simpl List.length.
    rewrite nth_error_app2 by lia.
    replace (List.length (filter f l) + 1 - 1 - List.length (filter f l))%nat
      with 0%nat by lia.
    intros [= <-]. split; [assumption|]. exists l, []. split; reflexivity.
  - rewrite app_nil_r. intros H. destruct (IH H) as (Ha & before & after & -> & Hafter).
    split; [assumption|]. exists before, (after ++ [x]).
    split; [now rewrite <- app_assoc|].
    rewrite forallb_app, Hafter. simpl. now rewrite Hx.
Qed.

(** [findBalancedUpgrade] returns nothing only for an operator without
    listed upgrades; otherwise it returns the last listed upgrade on a
    channel whose name contains [stable] or [recommended], or, when no
    listed upgrade is on such a channel, the one in the middle of the
    list. *)
Theorem balanced_upgrade_prefers_stable_channels :
  forall op,
    (findBalancedUpgrade op = None <-> op_availableUpgrades op = [])
    /\ forall u,
         findBalancedUpgrade op = Some u ->
         In u (op_availableUpgrades op)
         /\ ((exists s, In s (op_availableUpgrades op) /\ on_stable_channel s = true) ->
             on_stable_channel u = true
             /\ exists before after,
                  op_availableUpgrades op = before ++ u :: after
                  /\ forallb (fun x => negb (on_stable_channel x)) after = true)
         /\ ((forall s, In s (op_availableUpgrades op) -> on_stable_channel s = false) ->
             nth_error (op_availableUpgrades op)
               (List.length (op_availableUpgrades op) / 2) = Some u).
Proof.
  intros op. split.
  - split.
    + intros Hnone. destruct (has_upgrade op) eqn:Hup.
      * destruct (findBalancedUpgrade_some op Hup) as (u & Hu). congruence.
      * unfold has_upgrade in Hup. destruct (op_availableUpgrades op);
          [reflexivity|discriminate].
    + unfold findBalancedUpgrade. now intros ->.
  - intros u Hfind. split; [now apply findBalancedUpgrade_In|].
    unfold findBalancedUpgrade in Hfind. cbv zeta in Hfind.
    destruct (List.length (op_availableUpgrades op) =? 0)%nat; [discriminate|].
    fold on_stable_channel in Hfind.
    change (fun u0 => Js.includes (up_channel u0) "stable"
                      || Js.includes (up_channel u0) "recommended")
      with on_stable_channel in Hfind.
    destruct (0 <? List.length (filter on_stable_channel (op_availableUpgrades op)))%nat
      eqn:Hstable.
    + split.
      * intros _. now apply nth_error_last_filter.
      * intros Hnone. apply Nat.ltb_lt in Hstable.
        destruct (filter on_stable_channel (op_availableUpgrades op)) as [|s l] eqn:Hf;
          [simpl in Hstable; lia|].
        assert (Hin : In s (filter on_stable_channel (op_availableUpgrades op)))
          by (rewrite Hf; now left).
        apply filter_In in Hin. destruct Hin as [Hin Hs].
        rewrite (Hnone s Hin) in Hs. discriminate.
    + split; [|intros _; exact Hfind].
      intros (s & Hin & Hs). apply Nat.ltb_ge in Hstable.
      assert (Hin' : In s (filter on_stable_channel (op_availableUpgrades op)))
        by (apply filter_In; auto).
      destruct (filter on_stable_channel (op_availableUpgrades op));
        [contradiction|simpl in Hstable; lia].
Qed.

(** ** Facts about strings *)

Lemma append_assoc (a b c : string) : ((a ++ b) ++ c = a ++ (b ++ c))%string.
Proof. induction a as [|x a IH]; simpl; [reflexivity|now rewrite IH]. Qed.

Lemma append_nil_r (a : string) : (a ++ "")%string = a.
Proof. induction a as [|x a IH]; simpl; [reflexivity|now rewrite IH]. Qed.

Lemma length_append (a b : string) :
  String.length (a ++ b) = (String.length a + String.length b)%nat.
Proof. induction a as [|x a IH]; simpl; [reflexivity|now rewrite IH]. Qed.

Lemma digits_only_no_space (d : string) : digits_only d = true -> no_space d = true.
Proof.
  induction d as [|c d IH]; simpl; [reflexivity|]. intros H.
  apply andb_prop in H. destruct H as [Hc Hd].
  now rewrite (digit_not_space c Hc), IH.
Qed.

Lemma no_space_app (a b : string) :
  no_space (a ++ b) = no_space a && no_space b.
Proof.
  induction a as [|c a IH]; simpl; [reflexivity|]. now rewrite IH, andb_assoc.
Qed.

Lemma rtrim_no_space (s : string) : no_space s = true -> Semver.rtrim s = s.
Proof.
  induction s as [|c s IH]; simpl; [reflexivity|]. intros H.
  apply andb_prop in H. destruct H as [Hc Hs].
  apply negb_true_iff in Hc. now rewrite Hc, IH.
Qed.

Lemma skip_spaces_no_space (s : string) : no_space s = true -> Js.skip_spaces s = s.
Proof.
  destruct s as [|c s]; simpl; [reflexivity|]. intros H.
  apply andb_prop in H. destruct H as [Hc Hs].
  apply negb_true_iff in Hc. now rewrite Hc.
Qed.

Lemma skip_spaces_spec (s : string) :
  exists ws, s = (ws ++ Js.skip_spaces s)%string.
Proof.
  induction s as [|c s IH]; simpl; [now exists ""|].
  destruct (Js.is_space c).
  - destruct IH as (ws & Hws). exists (String c ws). simpl. now rewrite <- Hws.
  - now exists "".
Qed.

Lemma rtrim_spec (s : string) :
  exists ws, s = (Semver.rtrim s ++ ws)%string /\ all_spaces ws = true.
Proof.
  induction s as [|c s IH]; simpl; [now exists ""|].
  destruct IH as (ws & Hws & Hspaces).
  destruct (Js.is_space c) eqn:Hc; simpl.
  - destruct (String.eqb (Semver.rtrim s) "") eqn:He.
    + apply String.eqb_eq in He. rewrite He in Hws. simpl in Hws. subst s.
      exists (String c ws). simpl. now rewrite Hc.
    + exists ws. simpl. now rewrite <- Hws.
  - exists ws. simpl. now rewrite <- Hws.
Qed.

Lemma all_spaces_without_digit (ws : string) :
  all_spaces ws = true -> starts_without_digit ws.
Proof.
  destruct ws as [|c ws]; simpl; [trivial|]. intros H.
  apply andb_prop in H. destruct H as [Hc _].
  destruct (Js.is_digit c) eqn:Hd; [|reflexivity].
  rewrite (digit_not_space c Hd) in Hc. discriminate.
Qed.

Lemma starts_without_digit_app (r ws : string) :
  starts_without_digit r -> starts_without_digit ws ->
  starts_without_digit (r ++ ws).
Proof. destruct r; simpl; auto. Qed.

(** ** Runs of digits *)

Lemma span_digits_spec (s d r : string) :
  Semver.span_digits s = (d, r) ->
  s = (d ++ r)%string /\ digits_only d = true /\ starts_without_digit r.
Proof.
  revert d r. induction s as [|c s IH]; simpl; intros d r H.
  - injection H as <- <-. repeat split.
  - destruct (Js.is_digit c) eqn:Hc.
    + destruct (Semver.span_digits s) as [d' r'] eqn:Hs.
      injection H as <- <-. destruct (IH _ _ eq_refl) as (-> & Hd & Hr).
      cbn [digits_only append]. rewrite Hc. repeat split; assumption.
    + injection H as <- <-. cbn [digits_only append starts_without_digit].
      repeat split. assumption.
Qed.

Lemma span_digits_app (d r : string) :
  digits_only d = true -> starts_without_digit r ->
  Semver.span_digits (d ++ r) = (d, r).
Proof.
  intros Hd Hr. induction d as [|c d IH]; cbn [append Semver.span_digits].
  - destruct r as [|c r]; [reflexivity|]. cbn [starts_without_digit] in Hr.
    cbn [Semver.span_digits]. now rewrite Hr.
  - cbn [digits_only] in Hd. apply andb_prop in Hd. destruct Hd as [Hc Hd].
    now rewrite Hc, (IH Hd).
Qed.

Lemma numeric_ok_nonempty (d : string) : Semver.numeric_ok d = true -> d <> "".
Proof. destruct d; [discriminate|discriminate]. Qed.

Lemma numeric_identifier_inv (s r : string) (n : Z) :
  Semver.numeric_identifier s = Some (n, r) ->
  exists d,
    s = (d ++ r)%string /\ is_number d /\ Semver.numeric_ok d = true
    /\ n = Js.digits_value 0 d /\ starts_without_digit r.
Proof.
  unfold Semver.numeric_identifier.
  destruct (Semver.span_digits s) as [d r'] eqn:Hspan.
  destruct (Semver.numeric_ok d) eqn:Hok; [|discriminate].
  intros [= <- <-]. destruct (span_digits_spec _ _ _ Hspan) as (Hs & Hd & Hr).
  exists d. repeat split; auto. now apply numeric_ok_nonempty.
Qed.

Lemma numeric_identifier_app (d r : string) :
  digits_only d = true -> starts_without_digit r ->
  Semver.numeric_identifier (d ++ r)
  = if Semver.numeric_ok d then Some (Js.digits_value 0 d, r) else None.
Proof.
  intros Hd Hr. unfold Semver.numeric_identifier.
  now rewrite (span_digits_app d r Hd Hr).
Qed.

Lemma expect_inv (c : ascii) (s r : string) :
  Semver.expect c s = Some r -> s = String c r.
Proof.
  destruct s as [|c' s]; simpl; [discriminate|].
  destruct (Ascii.eqb c c') eqn:He; [|discriminate].
  apply Ascii.eqb_eq in He. now intros [= <-]; subst.
Qed.

Lemma digit_not_v (c : ascii) : Js.is_digit c = true -> Ascii.eqb "v" c = false.
Proof.
  intros H. destruct (Ascii.eqb "v" c) eqn:He; [|reflexivity].
  apply Ascii.eqb_eq in He. subst c. discriminate H.
Qed.

Lemma space_not_v (c : ascii) : Js.is_space c = true -> Ascii.eqb "v" c = false.
Proof.
  intros H. destruct (Ascii.eqb "v" c) eqn:He; [|reflexivity].
  apply Ascii.eqb_eq in He. subst c. discriminate H.
Qed.

Lemma space_not_digit (c : ascii) : Js.is_space c = true -> Js.is_digit c = false.
Proof.
  intros H. destruct (Js.is_digit c) eqn:Hd; [|reflexivity].
  rewrite (digit_not_space c Hd) in H. discriminate.
Qed.

(** ** The strict pattern of the package *)

Lemma strip_v_spec (t : string) :
  exists pre,
    (pre = "" \/ pre = "v")
    /\ t = (pre ++ match t with
                   | String "v" s' => s'
                   | _ => t
                   end)%string.
Proof.
  destruct t as [|c t]; [exists ""; split; [now left|reflexivity]|].
  destruct c as [[] [] [] [] [] [] [] []];
    first [ exists "v"; split; [now right|reflexivity]
          | exists ""; split; [now left|reflexivity] ].
Qed.

Lemma strip_v_digit (c : ascii) (t : string) :
  Js.is_digit c = true ->
  match String c t with
  | String "v" s' => s'
  | _ => String c t
  end = String c t.
Proof.
  intros H. destruct c as [[] [] [] [] [] [] [] []]; try reflexivity.
  discriminate H.
Qed.

Lemma dotted_app (a b c rest : string) :
  (a ++ String "." (b ++ String "." (c ++ rest)))%string
  = (dotted a b c ++ rest)%string.
Proof.
  unfold dotted. rewrite !append_assoc. cbn [append].
  rewrite ?append_assoc. reflexivity.
Qed.

Lemma match_full_inv (t : string) (sv : Semver.SemVer) :
  Semver.match_full t = Some sv ->
  exists pre a b c tail,
    t = (pre ++ dotted a b c ++ tail)%string
    /\ (pre = "" \/ pre = "v")
    /\ is_number a /\ is_number b /\ is_number c
    /\ Semver.numeric_ok a = true /\ Semver.numeric_ok b = true
    /\ Semver.numeric_ok c = true
    /\ starts_without_digit tail
    /\ Semver.major sv = Js.digits_value 0 a
    /\ Semver.minor sv = Js.digits_value 0 b
    /\ Semver.patch sv = Js.digits_value 0 c.
Proof.
  unfold Semver.match_full.
  destruct (strip_v_spec t) as (pre & Hpre & Ht).
  set (s := match t with String "v" s' => s' | _ => t end) in *. clearbody s.
  destruct (Semver.numeric_identifier s) as [[ma s1]|] eqn:Ha; [|discriminate].
  destruct (Semver.expect "." s1) as [s2|] eqn:Hd1; [|discriminate].
  destruct (Semver.numeric_identifier s2) as [[mi s3]|] eqn:Hb; [|discriminate].
  destruct (Semver.expect "." s3) as [s4|] eqn:Hd2; [|discriminate].
  destruct (Semver.numeric_identifier s4) as [[pa s5]|] eqn:Hc; [|discriminate].
  destruct (Semver.parse_tail s5) as [ids|]; [|discriminate].
  intros [= <-].
  apply numeric_identifier_inv in Ha. destruct Ha as (a & -> & Hna & Hoa & -> & _).
  apply numeric_identifier_inv in Hb. destruct Hb as (b & -> & Hnb & Hob & -> & _).
  apply numeric_identifier_inv in Hc. destruct Hc as (c & -> & Hnc & Hoc & -> & Htail).
  apply expect_inv in Hd1. apply expect_inv in Hd2. subst s1 s3.
  exists pre, a, b, c, s5. cbn [Semver.major Semver.minor Semver.patch].
  rewrite <- dotted_app.
  split; [exact Ht|]. split; [exact Hpre|].
  repeat (split; [assumption|]). repeat split.
Qed.

Lemma match_full_dotted (a b c : string) :
  is_number a -> is_number b -> is_number c ->
  Semver.match_full (dotted a b c)
  = if Semver.numeric_ok a && Semver.numeric_ok b && Semver.numeric_ok c
    then Some (Semver.mkSemVer (Js.digits_value 0 a) (Js.digits_value 0 b)
                 (Js.digits_value 0 c) [])
    else None.
Proof.
  intros [Hna Hda] [Hnb Hdb] [Hnc Hdc]. unfold Semver.match_full, dotted.
  destruct a as [|x a]; [congruence|].
  assert (Hx : Js.is_digit x = true)
    by (cbn [digits_only] in Hda; apply andb_prop in Hda; tauto).
  cbv zeta.
  match goal with
  | |- context [Semver.numeric_identifier ?s] =>
      assert (Hs : s = (String x a ++ String "." (b ++ String "." c))%string)
        by exact (strip_v_digit x _ Hx);
        rewrite Hs; clear Hs
  end.
  rewrite (numeric_identifier_app _ _ Hda) by reflexivity.
  destruct (Semver.numeric_ok (String x a)); [|reflexivity].
  cbn [Semver.expect Ascii.eqb Bool.eqb andb].
  rewrite (numeric_identifier_app _ _ Hdb) by reflexivity.
  destruct (Semver.numeric_ok b); [|reflexivity].
  cbn [Semver.expect Ascii.eqb Bool.eqb andb].
  rewrite <- (append_nil_r c) at 1.
  rewrite (numeric_identifier_app _ _ Hdc) by exact I.
  destruct (Semver.numeric_ok c); reflexivity.
Qed.

Lemma dotted_no_space (a b c : string) :
  is_number a -> is_number b -> is_number c -> no_space (dotted a b c) = true.
Proof.
  intros [_ Ha] [_ Hb] [_ Hc]. unfold dotted.
  rewrite !no_space_app.
  rewrite (digits_only_no_space a Ha), (digits_only_no_space b Hb),
    (digits_only_no_space c Hc).
  reflexivity.
Qed.

Lemma trim_dotted (a b c : string) :
  is_number a -> is_number b -> is_number c ->
  Semver.trim (dotted a b c) = dotted a b c.
Proof.
  intros Ha Hb Hc. unfold Semver.trim.
  pose proof (dotted_no_space a b c Ha Hb Hc) as Hns.
  now rewrite (skip_spaces_no_space _ Hns), (rtrim_no_space _ Hns).
Qed.

(** [new SemVer] on a dotted triple. *)
Lemma construct_dotted (a b c : string) (sv : Semver.SemVer) :
  is_number a -> is_number b -> is_number c ->
  Semver.construct (dotted a b c) = Ok sv ->
  sv = Semver.mkSemVer (Js.digits_value 0 a) (Js.digits_value 0 b)
         (Js.digits_value 0 c) []
  /\ Semver.numeric_ok a = true /\ Semver.numeric_ok b = true
  /\ Semver.numeric_ok c = true.
Proof.
  intros Ha Hb Hc. unfold Semver.construct.
  destruct (Semver.MAX_LENGTH <? String.length (dotted a b c))%nat; [discriminate|].
  rewrite (trim_dotted a b c Ha Hb Hc), (match_full_dotted a b c Ha Hb Hc).
  destruct (Semver.numeric_ok a); [|discriminate].
  destruct (Semver.numeric_ok b); [|discriminate].
  destruct (Semver.numeric_ok c); [|discriminate].
  cbn [andb Semver.major Semver.minor Semver.patch].
  destruct (Semver.MAX_SAFE_INTEGER <? Js.digits_value 0 a); [discriminate|].
  destruct (Semver.MAX_SAFE_INTEGER <? Js.digits_value 0 b); [discriminate|].
  destruct (Semver.MAX_SAFE_INTEGER <? Js.digits_value 0 c); [discriminate|].
  intros [= <-]. repeat split.
Qed.

(** ** The version pattern of the services *)

Lemma version_match_at_shape (t g : string) :
  version_match_at t = Some g ->
  exists a b c, is_number a /\ is_number b /\ is_number c /\ g = dotted a b c.
Proof.
  unfold version_match_at. intros H.
  apply first_match_some in H. destruct H as (s1 & _ & H).
  apply first_match_some in H. destruct H as ([a s2] & Ha & H).
  destruct (Js.literal "." s2) as [s3|]; [|discriminate].
  apply first_match_some in H. destruct H as ([b s4] & Hb & H).
  destruct (Js.literal "." s4) as [s5|]; [|discriminate].
  apply first_match_some in H. destruct H as ([c s6] & Hc & H).
  injection H as <-.
  exists a, b, c. repeat split; try reflexivity;
    eapply digit_splits_number; eauto.
Qed.

Lemma version_match_rest (a b c rest : string) :
  is_number a -> is_number b -> is_number c -> starts_without_digit rest ->
  Js.first_match (Js.digit_splits (dotted a b c ++ rest))
    (fun '(a, s2) =>
       match Js.literal "." s2 with
       | None => None
       | Some s3 =>
           Js.first_match (Js.digit_splits s3)
             (fun '(b, s4) =>
                match Js.literal "." s4 with
                | None => None
                | Some s5 =>
                    Js.first_match (Js.digit_splits s5)
                      (fun '(c, _) => Some (a ++ "." ++ b ++ "." ++ c)%string)
                end)
       end)
  = Some (dotted a b c).
Proof.
  intros Ha Hb Hc Hrest. rewrite <- dotted_app.
  destruct (digit_splits_longest a (String "." (b ++ String "." (c ++ rest))) Ha)
    as (sh1 & ->); [reflexivity|].
  cbn [Js.first_match Js.literal Ascii.eqb Bool.eqb].
  destruct (digit_splits_longest b (String "." (c ++ rest)) Hb)
    as (sh2 & ->); [reflexivity|].
  cbn [Js.first_match Js.literal Ascii.eqb Bool.eqb].
  destruct (digit_splits_longest c rest Hc Hrest) as (sh3 & ->).
  reflexivity.
Qed.

Lemma version_match_at_dotted (pre a b c rest : string) :
  pre = "" \/ pre = "v" ->
  is_number a -> is_number b -> is_number c -> starts_without_digit rest ->
  version_match_at (pre ++ dotted a b c ++ rest) = Some (dotted a b c).
Proof.
  intros Hpre Ha Hb Hc Hrest.
  pose proof (version_match_rest a b c rest Ha Hb Hc Hrest) as Hm.
  destruct Hpre as [-> | ->].
  - change ("" ++ dotted a b c ++ rest)%string with (dotted a b c ++ rest)%string.
    unfold version_match_at.
    assert (Hopt : Js.optional_char "v" (dotted a b c ++ rest)
                   = [(dotted a b c ++ rest)%string]).
    { destruct Ha as [Hne Hd]. destruct a as [|x a]; [congruence|].
      cbn [digits_only] in Hd. apply andb_prop in Hd. destruct Hd as [Hx _].
      unfold dotted. cbn [append Js.optional_char].
      now rewrite (digit_not_v x Hx). }
    rewrite Hopt. unfold Js.first_match at 1. now rewrite Hm.
  - change ("v" ++ dotted a b c ++ rest)%string
      with (String "v" (dotted a b c ++ rest)).
    unfold version_match_at.
    change (Js.optional_char "v" (String "v" (dotted a b c ++ rest)))
      with [(dotted a b c ++ rest)%string; String "v" (dotted a b c ++ rest)].
    unfold Js.first_match at 1. now rewrite Hm.
Qed.

Lemma version_match_at_space (c : ascii) (s : string) :
  Js.is_space c = true -> version_match_at (String c s) = None.
Proof.
  intros Hc. unfold version_match_at. cbn [Js.optional_char].
  rewrite (space_not_v c Hc). cbn [Js.first_match Js.digit_splits].
  now rewrite (space_not_digit c Hc).
Qed.

Lemma search_skip_spaces (s : string) :
  Js.search version_match_at s = Js.search version_match_at (Js.skip_spaces s).
Proof.
  induction s as [|c s IH]; [reflexivity|].
  cbn [Js.skip_spaces]. destruct (Js.is_space c) eqn:Hc; [|reflexivity].
  cbn [Js.search]. now rewrite (version_match_at_space c s Hc).
Qed.

(** The cleaning of a version the package accepts. *)
Lemma cleanVersion_of_valid (v : string) (sv : Semver.SemVer) :
  Semver.construct v = Ok sv ->
  exists a b c,
    is_number a /\ is_number b /\ is_number c
    /\ cleanVersion v = dotted a b c
    /\ Semver.numeric_ok a = true /\ Semver.numeric_ok b = true
    /\ Semver.numeric_ok c = true
    /\ Semver.major sv = Js.digits_value 0 a
    /\ Semver.minor sv = Js.digits_value 0 b
    /\ Semver.patch sv = Js.digits_value 0 c
    /\ (String.length (dotted a b c) <= String.length v)%nat
    /\ Js.digits_value 0 a <= Semver.MAX_SAFE_INTEGER
    /\ Js.digits_value 0 b <= Semver.MAX_SAFE_INTEGER
    /\ Js.digits_value 0 c <= Semver.MAX_SAFE_INTEGER.
Proof.
  unfold Semver.construct.
  destruct (Semver.MAX_LENGTH <? String.length v)%nat; [discriminate|].
  destruct (Semver.match_full (Semver.trim v)) as [sv'|] eqn:Hfull; [|discriminate].
  destruct (Semver.MAX_SAFE_INTEGER <? Semver.major sv') eqn:Hma; [discriminate|].
  destruct (Semver.MAX_SAFE_INTEGER <? Semver.minor sv') eqn:Hmi; [discriminate|].
  destruct (Semver.MAX_SAFE_INTEGER <? Semver.patch sv') eqn:Hpa; [discriminate|].
  intros [= <-].
  apply match_full_inv in Hfull.
  destruct Hfull as (pre & a & b & c & tail & Htrim & Hpre & Ha & Hb & Hc
                     & Hoa & Hob & Hoc & Htail & Hmajor & Hminor & Hpatch).
  unfold Semver.trim in Htrim.
  destruct (rtrim_spec (Js.skip_spaces v)) as (ws2 & Hskip & Hws2).
  destruct (skip_spaces_spec v) as (ws1 & Hv).
  rewrite Htrim in Hskip. rewrite !append_assoc in Hskip.
  exists a, b, c. do 3 (split; [assumption|]).
  split; [|do 6 (split; [assumption|]); split; [|split; [|split]]].
  - unfold cleanVersion. rewrite search_skip_spaces, Hskip.
    rewrite (search_at_head _ _ (dotted a b c)); [reflexivity|].
    apply version_match_at_dotted; auto.
    apply starts_without_digit_app; [assumption|].
    now apply all_spaces_without_digit.
  - rewrite Hv, Hskip. rewrite !length_append. lia.
  - rewrite <- Hmajor. now apply Z.ltb_ge.
  - rewrite <- Hminor. now apply Z.ltb_ge.
  - rewrite <- Hpatch. now apply Z.ltb_ge.
Qed.

Lemma parse_construct (v : string) (sv : Semver.SemVer) :
  Semver.parse v = Some sv <-> Semver.construct v = Ok sv.
Proof.
  unfold Semver.parse. destruct (Semver.construct v); split; congruence.
Qed.

Lemma cleanVersion_shape (v : string) :
  cleanVersion v = v
  \/ exists a b c,
       is_number a /\ is_number b /\ is_number c /\ cleanVersion v = dotted a b c.
Proof.
  unfold cleanVersion.
  destruct (Js.search version_match_at v) as [g|] eqn:Hs; [right|now left].
  apply search_some in Hs. destruct Hs as (t & Ht).
  apply version_match_at_shape in Ht. destruct Ht as (a & b & c & Ha & Hb & Hc & ->).
  exists a, b, c. auto.
Qed.

Lemma cleanVersion_dotted (a b c : string) :
  is_number a -> is_number b -> is_number c ->
  cleanVersion (dotted a b c) = dotted a b c.
Proof.
  intros Ha Hb Hc. unfold cleanVersion.
  rewrite (search_at_head _ _ (dotted a b c)); [reflexivity|].
  rewrite <- (append_nil_r (dotted a b c)) at 1.
  apply (version_match_at_dotted "" a b c ""); auto. exact I.
Qed.

Lemma cleanVersion_plain (v : string) (sv : Semver.SemVer) :
  Semver.parse (cleanVersion v) = Some sv -> Semver.prerelease sv = [].
Proof.
  intros Hparse.
  assert (Hd : exists a b c,
             is_number a /\ is_number b /\ is_number c
             /\ cleanVersion v = dotted a b c).
  { destruct (cleanVersion_shape v) as [Hsame|H]; [|exact H].
    rewrite Hsame in Hparse. apply parse_construct in Hparse.
    destruct (cleanVersion_of_valid v sv Hparse)
      as (a & b & c & Ha & Hb & Hc & Hclean & _).
    exists a, b, c. auto. }
  destruct Hd as (a & b & c & Ha & Hb & Hc & Hclean).
  rewrite Hclean in Hparse. apply parse_construct in Hparse.
  destruct (construct_dotted a b c sv Ha Hb Hc Hparse) as [-> _]. reflexivity.
Qed.

Lemma cleanVersion_main (v : string) (sv : Semver.SemVer) :
  Semver.parse v = Some sv ->
  Semver.parse (cleanVersion v)
  = Some (Semver.mkSemVer (Semver.major sv) (Semver.minor sv) (Semver.patch sv) []).
Proof.
  intros Hparse. apply parse_construct in Hparse.
  destruct (cleanVersion_of_valid v sv Hparse)
    as (a & b & c & Ha & Hb & Hc & Hclean & Hoa & Hob & Hoc & Hma & Hmi & Hpa
        & Hlen & Hla & Hlb & Hlc).
  assert (Hv : (Semver.MAX_LENGTH <? String.length v)%nat = false).
  { unfold Semver.construct in Hparse.
    destruct (Semver.MAX_LENGTH <? String.length v)%nat; [discriminate|reflexivity]. }
  apply Nat.ltb_ge in Hv.
  rewrite Hclean. apply parse_construct. unfold Semver.construct.
  assert (Hshort : (Semver.MAX_LENGTH <? String.length (dotted a b c))%nat = false)
    by (apply Nat.ltb_ge; lia).
  rewrite Hshort, (trim_dotted a b c Ha Hb Hc), (match_full_dotted a b c Ha Hb Hc).
  rewrite Hoa, Hob, Hoc. cbn [andb Semver.major Semver.minor Semver.patch].
  apply Z.ltb_ge in Hla, Hlb, Hlc. rewrite Hla, Hlb, Hlc.
  now rewrite Hma, Hmi, Hpa.
Qed.

(** [cleanVersion] returns its argument or a dotted triple of numbers,
    and cleaning a cleaned version changes nothing.  Cleaning keeps the
    three numbers of every version the package accepts and drops its
    prerelease and build tags, so that a cleaned version the package
    accepts carries no prerelease tag. *)
Theorem cleanVersion_normalises :
  forall v,
    (cleanVersion v = v
     \/ exists a b c,
          is_number a /\ is_number b /\ is_number c
          /\ cleanVersion v = (a ++ "." ++ b ++ "." ++ c)%string)
    /\ cleanVersion (cleanVersion v) = cleanVersion v
    /\ (forall sv,
           Semver.parse v = Some sv ->
           Semver.parse (cleanVersion v)
           = Some (Semver.mkSemVer (Semver.major sv) (Semver.minor sv)
                     (Semver.patch sv) []))
    /\ (forall sv,
           Semver.parse (cleanVersion v) = Some sv -> Semver.prerelease sv = []).
Proof.
  intros v. split; [apply cleanVersion_shape|]. split; [|split].
  - destruct (cleanVersion_shape v) as [Hsame|(a & b & c & Ha & Hb & Hc & Hclean)].
    + now rewrite Hsame.
    + rewrite Hclean. now apply cleanVersion_dotted.
  - apply cleanVersion_main.
  - apply cleanVersion_plain.
Qed.

(** ** Comparisons of cleaned versions *)

Lemma valid_cleaned (v : string) :
  Semver.valid (cleanVersion v) = true ->
  exists sv,
    Semver.construct (cleanVersion v) = Ok sv
    /\ Semver.prerelease sv = []
    /\ version_key (cleanVersion v)
       = (Semver.major sv, Semver.minor sv, Semver.patch sv).
Proof.
  unfold Semver.valid, version_key.
  destruct (Semver.parse (cleanVersion v)) as [sv|] eqn:Hparse; [|discriminate].
  intros _. exists sv. split; [now apply parse_construct|].
  split; [now apply (cleanVersion_plain v)|reflexivity].
Qed.

Lemma compareSemVer_plain (x y : Semver.SemVer) :
  Semver.prerelease x = [] -> Semver.prerelease y = [] ->
  Semver.compareSemVer x y = Semver.compareMain x y.
Proof.
  intros Hx Hy. unfold Semver.compareSemVer, Semver.comparePre.
  rewrite Hx, Hy. now destruct (Semver.compareMain x y).
Qed.

Lemma compareMain_cases (x y : Semver.SemVer) :
  let kx := (Semver.major x, Semver.minor x, Semver.patch x) in
  let ky := (Semver.major y, Semver.minor y, Semver.patch y) in
  match Semver.compareMain x y with
  | Lt => key_ltb kx ky = true /\ key_ltb ky kx = false /\ key_diff kx ky <> None
  | Eq => kx = ky
  | Gt => key_ltb ky kx = true /\ key_ltb kx ky = false /\ key_diff kx ky <> None
  end.
Proof.
  cbv zeta. unfold Semver.compareMain, key_ltb, key_diff.
  destruct x as [a b c px], y as [a' b' c' py].
  cbn [Semver.major Semver.minor Semver.patch].
  destruct (Z.compare_spec a a') as [Ha|Ha|Ha];
    [destruct (Z.compare_spec b b') as [Hb|Hb|Hb];
     [destruct (Z.compare_spec c c') as [Hc|Hc|Hc]| |] | |];
    repeat match goal with
           | |- context [?p <? ?q] =>
               let H := fresh in destruct (Z.ltb_spec p q) as [H|H]
           | |- context [?p =? ?q] =>
               let H := fresh in destruct (Z.eqb_spec p q) as [H|H]
           end;
    cbn [orb andb negb]; try lia; try (repeat split; congruence).
Qed.

Lemma gt_cleaned (x y : string) :
  Semver.valid (cleanVersion x) = true -> Semver.valid (cleanVersion y) = true ->
  Semver.gt (cleanVersion x) (cleanVersion y)
  = Ok (key_ltb (version_key (cleanVersion y)) (version_key (cleanVersion x))).
Proof.
  intros Hx Hy.
  destruct (valid_cleaned x Hx) as (sx & Hcx & Hpx & ->).
  destruct (valid_cleaned y Hy) as (sy & Hcy & Hpy & ->).
  unfold Semver.gt, Semver.compare. rewrite Hcx, Hcy. cbn [bind].
  rewrite (compareSemVer_plain sx sy Hpx Hpy).
  pose proof (compareMain_cases sx sy) as H. cbv zeta in H.
  destruct (Semver.compareMain sx sy).
  - rewrite H. f_equal. unfold key_ltb.
    rewrite !Z.ltb_irrefl, !Z.eqb_refl. reflexivity.
  - destruct H as (_ & -> & _). reflexivity.
  - destruct H as (-> & _). reflexivity.
Qed.

Lemma lt_cleaned (x y : string) :
  Semver.valid (cleanVersion x) = true -> Semver.valid (cleanVersion y) = true ->
  Semver.lt (cleanVersion x) (cleanVersion y)
  = Ok (key_ltb (version_key (cleanVersion x)) (version_key (cleanVersion y))).
Proof.
  intros Hx Hy.
  destruct (valid_cleaned x Hx) as (sx & Hcx & Hpx & ->).
  destruct (valid_cleaned y Hy) as (sy & Hcy & Hpy & ->).
  unfold Semver.lt, Semver.compare. rewrite Hcx, Hcy. cbn [bind].
  rewrite (compareSemVer_plain sx sy Hpx Hpy).
  pose proof (compareMain_cases sx sy) as H. cbv zeta in H.
  destruct (Semver.compareMain sx sy).
  - rewrite H. f_equal. unfold key_ltb.
    rewrite !Z.ltb_irrefl, !Z.eqb_refl. reflexivity.
  - destruct H as (-> & _). reflexivity.
  - destruct H as (_ & -> & _). reflexivity.
Qed.

Lemma diff_cleaned (x y : string) :
  Semver.valid (cleanVersion x) = true -> Semver.valid (cleanVersion y) = true ->
  Semver.diff (cleanVersion x) (cleanVersion y)
  = Ok (key_diff (version_key (cleanVersion x)) (version_key (cleanVersion y))).
Proof.
  intros Hx Hy.
  destruct (valid_cleaned x Hx) as (sx & Hcx & Hpx & ->).
  destruct (valid_cleaned y Hy) as (sy & Hcy & Hpy & ->).
  unfold Semver.diff. rewrite Hcx, Hcy. cbn [bind]. f_equal.
  unfold Semver.diffSemVer. rewrite (compareSemVer_plain sx sy Hpx Hpy).
  pose proof (compareMain_cases sx sy) as H. cbv zeta in H.
  assert (Hnp : forall b : bool,
            Semver.has_pre (if b then sx else sy) = false
            /\ Semver.has_pre (if b then sy else sx) = false).
  { intros []; unfold Semver.has_pre; rewrite Hpx, Hpy; split; reflexivity. }
  destruct (Semver.compareMain sx sy).
  - rewrite H. unfold key_diff. now rewrite !Z.eqb_refl.
  - destruct (Hnp false) as [-> ->]. cbn [andb negb].
    destruct H as (_ & _ & Hd). unfold key_diff in *.
    destruct (negb (Semver.major sx =? Semver.major sy)); [reflexivity|].
    destruct (negb (Semver.minor sx =? Semver.minor sy)); [reflexivity|].
    destruct (negb (Semver.patch sx =? Semver.patch sy)); [reflexivity|].
    congruence.
  - destruct (Hnp true) as [-> ->]. cbn [andb negb].
    destruct H as (_ & _ & Hd). unfold key_diff in *.
    destruct (negb (Semver.major sx =? Semver.major sy)); [reflexivity|].
    destruct (negb (Semver.minor sx =? Semver.minor sy)); [reflexivity|].
    destruct (negb (Semver.patch sx =? Semver.patch sy)); [reflexivity|].
    congruence.
Qed.

(** ** The order of versions *)

Lemma key_ltb_lt (k k' : Z * Z * Z) : key_ltb k k' = true <-> key_lt k k'.
Proof.
  destruct k as [[a b] c], k' as [[a' b'] c']. unfold key_ltb, key_lt.
  rewrite !orb_true_iff, !andb_true_iff, !orb_true_iff, !andb_true_iff.
  rewrite !Z.ltb_lt, !Z.eqb_eq. reflexivity.
Qed.

Lemma key_ltb_ge (k k' : Z * Z * Z) : key_ltb k k' = false <-> ~ key_lt k k'.
Proof.
  rewrite <- key_ltb_lt. destruct (key_ltb k k'); split; congruence.
Qed.

Lemma key_diff_cases (k k' : Z * Z * Z) :
  let '(a, b, c) := k in
  let '(a', b', c') := k' in
  (key_diff k k' = Some Semver.Major <-> a <> a')
  /\ (key_diff k k' = Some Semver.Minor <-> a = a' /\ b <> b')
  /\ (key_diff k k' = Some Semver.Patch <-> a = a' /\ b = b' /\ c <> c').
Proof.
  destruct k as [[a b] c], k' as [[a' b'] c']. unfold key_diff.
  destruct (Z.eqb_spec a a'), (Z.eqb_spec b b'), (Z.eqb_spec c c');
    cbn [negb]; repeat split; intros; try congruence; try tauto; try lia.
Qed.

Lemma is_release_eq (d : option Semver.ReleaseType) (r : Semver.ReleaseType) :
  (r = Semver.Patch \/ r = Semver.Minor \/ r = Semver.Major) ->
  is_release d r = true <-> d = Some r.
Proof.
  intros [-> | [-> | ->]]; destruct d as [[]|]; simpl; split; congruence.
Qed.

(** ** The greatest listed upgrade *)

Lemma latest_loop (rest : list AvailableUpgrade) :
  forall first r,
    (forall x, In x (first :: rest) ->
               Semver.valid (cleanVersion (up_targetVersion x)) = true) ->
    for_each
      (fun latest current =>
         newer <- Semver.gt (cleanVersion (up_targetVersion current))
                            (cleanVersion (up_targetVersion latest)) ;;
         Ok (if (newer : bool) then current else latest))
      rest first = Ok r ->
    forall x, In x (first :: rest) -> ~ key_lt (target_key r) (target_key x).
Proof.
  induction rest as [|y rest IH]; intros first r Hvalid Hrun x Hin.
  - apply Ok_inj in Hrun. subst r. destruct Hin as [<-|[]].
    unfold key_lt. destruct (target_key first) as [[a b] c]. lia.
  - cbn [for_each] in Hrun.
    rewrite (gt_cleaned (up_targetVersion y) (up_targetVersion first)) in Hrun
      by (apply Hvalid; simpl; auto).
    cbn [bind] in Hrun. fold (target_key first) (target_key y) in Hrun.
    destruct (key_ltb (target_key first) (target_key y)) eqn:Hnewer.
    + apply key_ltb_lt in Hnewer.
      assert (Hy : ~ key_lt (target_key r) (target_key y)).
      { apply (IH y r); [|exact Hrun|now left].
        intros z Hz. apply Hvalid. simpl in *. tauto. }
      destruct Hin as [<-|[<-|Hin]]; [|exact Hy|].
      * unfold key_lt in *.
        destruct (target_key first) as [[a b] c], (target_key y) as [[a' b'] c'],
          (target_key r) as [[a2 b2] c2]. lia.
      * apply (IH y r); [|exact Hrun|now right].
        intros z Hz. apply Hvalid. simpl in *. tauto.
    + apply key_ltb_ge in Hnewer.
      assert (Hf : ~ key_lt (target_key r) (target_key first)).
      { apply (IH first r); [|exact Hrun|now left].
        intros z Hz. apply Hvalid. simpl in *. tauto. }
      destruct Hin as [<-|[<-|Hin]]; [exact Hf| |].
      * unfold key_lt in *.
        destruct (target_key first) as [[a b] c], (target_key y) as [[a' b'] c'],
          (target_key r) as [[a2 b2] c2]. lia.
      * apply (IH first r); [|exact Hrun|now right].
        intros z Hz. apply Hvalid. simpl in *. tauto.
Qed.

Lemma latestUpgrade_greatest op u :
  comparable_upgrades op ->
  latestUpgrade op = Ok u ->
  forall x, In x (op_availableUpgrades op) ->
    Semver.gt (cleanVersion (up_targetVersion x)) (cleanVersion (up_targetVersion u))
    = Ok false.
Proof.
  intros Hcmp Hlatest x Hin.
  pose proof (latestUpgrade_In op u Hlatest) as Hu.
  rewrite gt_cleaned by (apply Hcmp; assumption).
  f_equal. apply key_ltb_ge.
  unfold latestUpgrade, reduce in Hlatest.
  destruct (op_availableUpgrades op) as [|first rest] eqn:Hups; [discriminate|].
  apply (latest_loop rest first u); [|exact Hlatest|exact Hin].
  intros z Hz. apply Hcmp. now rewrite Hups.
Qed.

Lemma step_by_verification ps selected d p :
  Forall (step_by ps selected) (fst (push ([], 1) (verificationStep d p))).
Proof. constructor; [discriminate|constructor]. Qed.

Lemma step_by_operator ps (selected : OperatorStatus -> AvailableUpgrade -> Prop)
    st op u d p r :
  Forall (step_by ps selected) (fst st) ->
  In op (ps_operators ps) -> selected op u ->
  Forall (step_by ps selected) (fst (push st (operatorStep op u d p r))).
Proof.
  intros Hst Hop Hsel. unfold push. cbn [fst]. apply Forall_app. split; [assumption|].
  constructor; [|constructor]. intros _. exists op, u. repeat split; assumption.
Qed.

Lemma step_by_cluster_part ps selected st v d p r :
  Forall (step_by ps selected) (fst st) ->
  Forall (step_by ps selected)
    (fst (if (0 <? List.length (cv_availableUpdates (ps_cluster ps)))%nat
          then push st (clusterStep ps v d p r) else st)).
Proof.
  intros Hst. destruct (0 <? List.length (cv_availableUpdates (ps_cluster ps)))%nat;
    [|assumption].
  unfold push. cbn [fst]. apply Forall_app. split; [assumption|].
  constructor; [discriminate|constructor].
Qed.

Lemma aggressive_steps_by now am ps path :
  generateAggressivePath now am ps = Ok (Some path) ->
  Forall (step_by ps (fun op u => latestUpgrade op = Ok u)) (path_steps path).
Proof.
  unfold generateAggressivePath. cbv zeta. intros H.
  bind_inv H as st Hloop.
  match type of H with
  | (if ?c then _ else _) = _ => destruct c; [discriminate|]
  end.
  apply Ok_inj, Some_inj in H. subst path. cbv beta iota delta [path_steps].
  apply step_by_cluster_part.
  eapply (for_each_invariant
            (fun st => Forall (step_by ps (fun op u => latestUpgrade op = Ok u))
                         (fst st)));
    [| |exact Hloop].
  - intros st0 op st' Hin Hst Hbody. cbv beta in Hbody.
    destruct (0 <? List.length (op_availableUpgrades op))%nat;
      [|apply Ok_inj in Hbody; subst st'; assumption].
    bind_inv Hbody as u Hlatest. apply Ok_inj in Hbody. subst st'.
    now apply step_by_operator.
  - apply step_by_verification.
Qed.

(** Every operator step of the aggressive path goes to a listed upgrade
    that no listed upgrade of the operator exceeds. *)
Theorem aggressive_path_takes_greatest_upgrade :
  forall now am ps path s,
    (forall op, In op (ps_operators ps) -> comparable_upgrades op) ->
    generateAggressivePath now am ps = Ok (Some path) ->
    In s (path_steps path) -> step_type s = Operator ->
    exists op u,
      In op (ps_operators ps)
      /\ In u (op_availableUpgrades op)
      /\ step_target s = inst_name (op_installation op)
      /\ step_toVersion s = Some (up_targetVersion u)
      /\ step_channel s = Some (up_channel u)
      /\ forall x, In x (op_availableUpgrades op) ->
           Semver.gt (cleanVersion (up_targetVersion x))
             (cleanVersion (up_targetVersion u)) = Ok false.
Proof.
  intros now am ps path s Hcmp Hgen Hin Hty.
  apply aggressive_steps_by in Hgen. rewrite Forall_forall in Hgen.
  destruct (Hgen s Hin Hty) as (op & u & Hop & Hlatest & Htarget & _ & Hto & Hch).
  exists op, u. repeat split; try assumption.
  - now apply latestUpgrade_In.
  - now apply latestUpgrade_greatest; [apply Hcmp|].
Qed.

(** ** The conservative choice *)

Lemma key_lt_irrefl (k : Z * Z * Z) : ~ key_lt k k.
Proof. destruct k as [[a b] c]. unfold key_lt. lia. Qed.

Lemma key_lt_chain (kx ky kc : Z * Z * Z) :
  ~ key_lt kx kc -> key_lt ky kc -> ~ key_lt kx ky.
Proof.
  destruct kx as [[a b] c], ky as [[a' b'] c'], kc as [[a2 b2] c2].
  unfold key_lt. lia.
Qed.

Lemma level_total (k0 k : Z * Z * Z) :
  key_lt k0 k ->
  key_diff k0 k = Some Semver.Patch \/ key_diff k0 k = Some Semver.Minor
  \/ key_diff k0 k = Some Semver.Major.
Proof.
  destruct k0 as [[a b] c], k as [[a' b'] c']. unfold key_lt, key_diff.
  destruct (Z.eqb_spec a a'), (Z.eqb_spec b b'), (Z.eqb_spec c c');
    cbn [negb]; auto. lia.
Qed.

Lemma minor_above_patch (k0 ky kc : Z * Z * Z) :
  key_lt k0 ky -> key_lt k0 kc ->
  key_diff k0 ky = Some Semver.Minor -> key_diff k0 kc = Some Semver.Patch ->
  ~ key_lt ky kc.
Proof.
  pose proof (key_diff_cases k0 ky) as Hy. pose proof (key_diff_cases k0 kc) as Hc.
  destruct k0 as [[a b] c], ky as [[a' b'] c'], kc as [[a2 b2] c2].
  destruct Hy as (_ & Hy & _), Hc as (_ & _ & Hc). unfold key_lt.
  intros H1 H2 Hm Hp. apply Hy in Hm. apply Hc in Hp. lia.
Qed.

Lemma minor_below_major (k0 ky kc : Z * Z * Z) :
  key_lt k0 ky -> key_lt k0 kc ->
  key_diff k0 ky = Some Semver.Minor -> key_diff k0 kc = Some Semver.Major ->
  key_lt ky kc.
Proof.
  pose proof (key_diff_cases k0 ky) as Hy. pose proof (key_diff_cases k0 kc) as Hc.
  destruct k0 as [[a b] c], ky as [[a' b'] c'], kc as [[a2 b2] c2].
  destruct Hy as (_ & Hy & _), Hc as (Hc & _). unfold key_lt.
  intros H1 H2 Hm Hp. apply Hy in Hm. apply Hc in Hp. lia.
Qed.

Lemma conservative_invariant_start k0 (first : AvailableUpgrade) :
  conservative_invariant k0 [first] first.
Proof.
  split; [|split].
  - intros (x & [<-|[]] & H). exact H.
  - intros (x & [<-|[]] & H). congruence.
  - intros _ x [<-|[]] _. apply key_lt_irrefl.
Qed.

Lemma conservative_invariant_step k0 seen closest current :
  (forall x, In x (current :: closest :: seen) -> key_lt k0 (target_key x)) ->
  conservative_invariant k0 seen closest ->
  conservative_invariant k0 (seen ++ [current]) (conservative_next k0 closest current).
Proof.
  intros Habove (P1 & P2 & P3).
  assert (Hcur : key_lt k0 (target_key current)) by (apply Habove; simpl; auto).
  assert (Hclo : key_lt k0 (target_key closest)) by (apply Habove; simpl; auto).
  unfold conservative_next.
  destruct (level_total _ _ Hcur) as [Hl|[Hl|Hl]]; fold (level k0 current) in Hl;
    rewrite Hl.
  - (* patch *)
    split; [|split].
    + intros _. exact Hl.
    + intros _. congruence.
    + congruence.
  - (* minor *)
    destruct (key_ltb (target_key current) (target_key closest)) eqn:Hlt.
    + apply key_ltb_lt in Hlt.
      assert (Hnp : level k0 closest <> Some Semver.Patch).
      { intros Hp. exact (minor_above_patch _ _ _ Hcur Hclo Hl Hp Hlt). }
      split; [|split].
      * intros (x & Hin & Hx). apply in_app_or in Hin.
        destruct Hin as [Hin|[<-|[]]]; [|congruence].
        exfalso. apply Hnp, P1. eauto.
      * intros _. congruence.
      * intros _ x Hin Hx. apply in_app_or in Hin.
        destruct Hin as [Hin|[<-|[]]]; [|apply key_lt_irrefl].
        destruct (level_total _ _ Hclo) as [Hc|[Hc|Hc]]; fold (level k0 closest) in Hc.
        -- congruence.
        -- apply (key_lt_chain _ _ (target_key closest)); [|exact Hlt].
           now apply P3.
        -- exfalso. apply P2; eauto.
    + apply key_ltb_ge in Hlt.
      split; [|split].
      * intros (x & Hin & Hx). apply in_app_or in Hin.
        destruct Hin as [Hin|[<-|[]]]; [|congruence].
        apply P1. eauto.
      * intros _ Hmaj. apply Hlt.
        exact (minor_below_major _ _ _ Hcur Hclo Hl Hmaj).
      * intros Hc x Hin Hx. apply in_app_or in Hin.
        destruct Hin as [Hin|[<-|[]]]; [now apply P3|exact Hlt].
  - (* major *)
    split; [|split].
    + intros (x & Hin & Hx). apply in_app_or in Hin.
      destruct Hin as [Hin|[<-|[]]]; [|congruence].
      apply P1. eauto.
    + intros (x & Hin & Hx). apply in_app_or in Hin.
      destruct Hin as [Hin|[<-|[]]]; [|congruence].
      apply P2. eauto.
    + intros Hc x Hin Hx. apply in_app_or in Hin.
      destruct Hin as [Hin|[<-|[]]]; [now apply P3|congruence].
Qed.

Lemma conservative_next_In k0 seen closest current :
  In closest seen -> In (conservative_next k0 closest current) (seen ++ [current]).
Proof.
  intros Hin. unfold conservative_next. apply in_or_app.
  destruct (level k0 current) as [[]|]; simpl; auto.
  destruct (key_ltb (target_key current) (target_key closest)); simpl; auto.
Qed.

Lemma conservative_fold k0 (rest : list AvailableUpgrade) :
  forall seen closest,
    (forall x, In x (seen ++ rest) -> key_lt k0 (target_key x)) ->
    In closest seen ->
    conservative_invariant k0 seen closest ->
    conservative_invariant k0 (seen ++ rest)
      (fold_left (conservative_next k0) rest closest).
Proof.
  induction rest as [|current rest IH]; intros seen closest Habove Hin Hinv.
  - now rewrite app_nil_r.
  - cbn [fold_left].
    replace (seen ++ current :: rest) with ((seen ++ [current]) ++ rest) in *
      by (now rewrite <- app_assoc).
    apply IH.
    + exact Habove.
    + now apply conservative_next_In.
    + apply conservative_invariant_step; [|exact Hinv].
      intros x [<-|[<-|Hx]]; apply Habove; apply in_or_app; left; apply in_or_app;
        simpl; auto.
Qed.

Lemma conservative_callback op closest current :
  Semver.valid (cleanVersion (inst_currentVersion (op_installation op))) = true ->
  Semver.valid (cleanVersion (up_targetVersion closest)) = true ->
  Semver.valid (cleanVersion (up_targetVersion current)) = true ->
  (let currentVersion := cleanVersion (inst_currentVersion (op_installation op)) in
   let closestVersion := cleanVersion (up_targetVersion closest) in
   let currentTargetVersion := cleanVersion (up_targetVersion current) in
   d1 <- Semver.diff currentVersion currentTargetVersion ;;
   if is_release d1 Semver.Patch then Ok current
   else
     d2 <- Semver.diff currentVersion currentTargetVersion ;;
     if is_release d2 Semver.Minor
     then
       lower <- Semver.lt currentTargetVersion closestVersion ;;
       if (lower : bool) then Ok current else Ok closest
     else Ok closest)
  = Ok (conservative_next (installed_key op) closest current).
Proof.
  intros Hcur Hclosest Hcurrent. cbv zeta.
  rewrite (diff_cleaned _ _ Hcur Hcurrent), (lt_cleaned _ _ Hcurrent Hclosest).
  cbn [bind]. unfold conservative_next, level.
  fold (installed_key op) (target_key current) (target_key closest).
  destruct (key_diff (installed_key op) (target_key current)) as [[]|];
    cbn [is_release]; try reflexivity.
  destruct (key_ltb (target_key current) (target_key closest)); reflexivity.
Qed.

Lemma conservative_reduce op (rest : list AvailableUpgrade) :
  forall closest,
    Semver.valid (cleanVersion (inst_currentVersion (op_installation op))) = true ->
    (forall x, In x (closest :: rest) ->
               Semver.valid (cleanVersion (up_targetVersion x)) = true) ->
    for_each
      (fun closest current =>
         d1 <- Semver.diff (cleanVersion (inst_currentVersion (op_installation op)))
                 (cleanVersion (up_targetVersion current)) ;;
         if is_release d1 Semver.Patch then Ok current
         else
           d2 <- Semver.diff (cleanVersion (inst_currentVersion (op_installation op)))
                   (cleanVersion (up_targetVersion current)) ;;
           if is_release d2 Semver.Minor
           then
             lower <- Semver.lt (cleanVersion (up_targetVersion current))
                        (cleanVersion (up_targetVersion closest)) ;;
             if (lower : bool) then Ok current else Ok closest
           else Ok closest)
      rest closest
    = Ok (fold_left (conservative_next (installed_key op)) rest closest).
Proof.
  induction rest as [|current rest IH]; intros closest Hcur Hvalid; [reflexivity|].
  cbn [for_each fold_left].
  pose proof (conservative_callback op closest current Hcur) as Hcb.
  cbv zeta in Hcb. cbv zeta. rewrite Hcb by (apply Hvalid; simpl; auto).
  cbn [bind]. apply IH; [assumption|].
  intros x [<-|Hx].
  - unfold conservative_next.
    destruct (level _ current) as [[]|]; try (apply Hvalid; simpl; now auto).
    destruct (key_ltb _ _); apply Hvalid; simpl; auto.
  - apply Hvalid. simpl. auto.
Qed.

Lemma findConservativeUpgrade_fold op u :
  comparable_upgrades op ->
  findConservativeUpgrade op = Ok (Some u) ->
  exists first rest,
    op_availableUpgrades op = first :: rest
    /\ u = fold_left (conservative_next (installed_key op)) rest first.
Proof.
  intros Hcmp. unfold findConservativeUpgrade. cbv zeta.
  destruct (op_availableUpgrades op) as [|first rest] eqn:Hups; [discriminate|].
  cbn [List.length Nat.eqb].
  assert (Hcur : Semver.valid
                   (cleanVersion (inst_currentVersion (op_installation op))) = true).
  { apply (Hcmp first). rewrite Hups. now left. }
  unfold Semver.valid in Hcur.
  destruct (Semver.parse _) eqn:Hparse in Hcur |- *; [|discriminate].
  unfold reduce.
  rewrite (conservative_reduce op rest first).
  - cbn [bind]. intros [= <-]. exists first, rest. split; reflexivity.
  - unfold Semver.valid. now rewrite Hparse.
  - intros x Hx. apply Hcmp. now rewrite Hups.
Qed.

(** The conservative choice among upgrades that are all newer than
    the installed version: a patch upgrade whenever one is listed;
    otherwise, whenever a minor upgrade is listed, a minor upgrade that
    no listed minor upgrade is below; a major upgrade only when every
    listed upgrade is a major one. *)
Theorem conservative_choice_by_magnitude :
  forall op u,
    comparable_upgrades op ->
    (forall x, In x (op_availableUpgrades op) ->
               Semver.gt (cleanVersion (up_targetVersion x))
                 (cleanVersion (inst_currentVersion (op_installation op)))
               = Ok true) ->
    findConservativeUpgrade op = Ok (Some u) ->
    let magnitude x :=
      Semver.diff (cleanVersion (inst_currentVersion (op_installation op)))
        (cleanVersion (up_targetVersion x)) in
    ((exists p, In p (op_availableUpgrades op) /\ magnitude p = Ok (Some Semver.Patch)) ->
     magnitude u = Ok (Some Semver.Patch))
    /\ ((exists m, In m (op_availableUpgrades op)
                   /\ magnitude m = Ok (Some Semver.Minor)) ->
        magnitude u = Ok (Some Semver.Patch)
        \/ (magnitude u = Ok (Some Semver.Minor)
            /\ forall m, In m (op_availableUpgrades op) ->
                 magnitude m = Ok (Some Semver.Minor) ->
                 Semver.lt (cleanVersion (up_targetVersion m))
                   (cleanVersion (up_targetVersion u)) = Ok false))
    /\ (magnitude u = Ok (Some Semver.Major) ->
        forall x, In x (op_availableUpgrades op) ->
                  magnitude x = Ok (Some Semver.Major)).
Proof.
  intros op u Hcmp Hnewer Hfind. cbv zeta.
  pose proof (findConservativeUpgrade_In op u Hfind) as Hu.
  destruct (findConservativeUpgrade_fold op u Hcmp Hfind)
    as (first & rest & Hups & Hfold).
  assert (Hmag : forall x, In x (op_availableUpgrades op) ->
            Semver.diff (cleanVersion (inst_currentVersion (op_installation op)))
              (cleanVersion (up_targetVersion x))
            = Ok (level (installed_key op) x)).
  { intros x Hx. destruct (Hcmp x Hx) as [Hc Ht].
    now rewrite (diff_cleaned _ _ Hc Ht). }
  assert (Habove : forall x, In x (op_availableUpgrades op) ->
            key_lt (installed_key op) (target_key x)).
  { intros x Hx. destruct (Hcmp x Hx) as [Hc Ht].
    specialize (Hnewer x Hx). rewrite (gt_cleaned _ _ Ht Hc) in Hnewer.
    apply Ok_inj in Hnewer. now apply key_ltb_lt. }
  assert (Hinv : conservative_invariant (installed_key op)
                   (op_availableUpgrades op) u).
  { rewrite Hups, Hfold.
    apply (conservative_fold (installed_key op) rest [first] first).
    - intros x Hx. apply Habove. now rewrite Hups.
    - now left.
    - apply conservative_invariant_start. }
  destruct Hinv as (P1 & P2 & P3).
  assert (Hlevel : forall x l, In x (op_availableUpgrades op) ->
            (Semver.diff (cleanVersion (inst_currentVersion (op_installation op)))
               (cleanVersion (up_targetVersion x)) = Ok (Some l)
             <-> level (installed_key op) x = Some l)).
  { intros x l Hx. rewrite (Hmag x Hx). split; congruence. }
  split; [|split].
  - intros (p & Hp & Hd). apply Hlevel; [assumption|].
    apply P1. exists p. split; [assumption|]. now apply Hlevel.
  - intros (m & Hm & Hd). apply Hlevel in Hd; [|assumption].
    destruct (level_total _ _ (Habove u Hu)) as [Hl|[Hl|Hl]];
      fold (level (installed_key op) u) in Hl.
    + left. now apply Hlevel.
    + right. split; [now apply Hlevel|].
      intros m' Hm' Hd'. apply Hlevel in Hd'; [|assumption].
      destruct (Hcmp m' Hm') as [_ Htm]. destruct (Hcmp u Hu) as [_ Htu].
      rewrite (lt_cleaned _ _ Htm Htu). f_equal. apply key_ltb_ge.
      now apply P3.
    + exfalso. apply P2; eauto.
  - intros Hmaj x Hx. apply Hlevel in Hmaj; [|assumption].
    apply Hlevel; [assumption|].
    destruct (level_total _ _ (Habove x Hx)) as [Hl|[Hl|Hl]];
      fold (level (installed_key op) x) in Hl; [| |assumption].
    + assert (level (installed_key op) u = Some Semver.Patch) by (apply P1; eauto).
      congruence.
    + exfalso. apply P2; eauto.
Qed.

(** ** Significantly outdated operators *)

Lemma isSignificantlyOutdated_outdated op :
  isSignificantlyOutdated op = Ok (outdated op).
Proof.
  unfold outdated. destruct (isSignificantlyOutdated_returns op) as (r & ->).
  reflexivity.
Qed.

Lemma nth_error_last {A} (l : list A) (a : A) :
  nth_error (l ++ [a]) (List.length (l ++ [a]) - 1) = Some a.
Proof.
  rewrite length_app. simpl List.length.
  rewrite nth_error_app2 by lia.
  replace (List.length l + 1 - 1 - List.length l)%nat with 0%nat by lia.
  reflexivity.
Qed.

Lemma outdated_last op earlier last :
  op_availableUpgrades op = earlier ++ [last] ->
  outdated op
  = Semver.valid (cleanVersion (inst_currentVersion (op_installation op)))
    && Semver.valid (cleanVersion (up_targetVersion last))
    && match key_diff (installed_key op) (target_key last) with
       | Some Semver.Minor | Some Semver.Major => true
       | _ => false
       end.
Proof.
  intros Hups. unfold outdated, isSignificantlyOutdated. cbv zeta.
  rewrite Hups.
  assert (Hlen : (List.length (earlier ++ [last]) =? 0)%nat = false)
    by (apply Nat.eqb_neq; rewrite length_app; simpl; lia).
  rewrite Hlen, nth_error_last.
  destruct (Semver.valid (cleanVersion (inst_currentVersion (op_installation op))))
    eqn:Hcur; [|reflexivity].
  destruct (Semver.valid (cleanVersion (up_targetVersion last))) eqn:Hlast;
    [|reflexivity].
  cbn [negb orb andb]. rewrite (diff_cleaned _ _ Hcur Hlast). cbn [bind].
  reflexivity.
Qed.

Lemma significant_diff (d : option Semver.ReleaseType) :
  match d with
  | Some Semver.Minor | Some Semver.Major => true
  | _ => false
  end = true
  <-> d = Some Semver.Minor \/ d = Some Semver.Major.
Proof.
  destruct d as [[]|]; split; intros H; try discriminate H; auto;
    destruct H as [H|H]; discriminate H.
Qed.

Lemma significant_key (k k' : Z * Z * Z) :
  match key_diff k k' with
  | Some Semver.Minor | Some Semver.Major => true
  | _ => false
  end = true
  <-> let '(a, b, _) := k in
      let '(a', b', _) := k' in
      a <> a' \/ b <> b'.
Proof.
  destruct k as [[a b] c], k' as [[a' b'] c']. unfold key_diff.
  destruct (Z.eqb_spec a a'), (Z.eqb_spec b b'), (Z.eqb_spec c c');
    cbn [negb]; split; intros H; try reflexivity; try discriminate H;
    try tauto.
Qed.

(** [isSignificantlyOutdated] never throws, and looks at the last
    listed upgrade only: it answers [true] exactly when the cleaned
    installed version and the cleaned target version of the last listed
    upgrade are both valid and differ in their major or minor number. *)
Theorem significantly_outdated_by_last_upgrade :
  forall op,
    isSignificantlyOutdated op = Ok (outdated op)
    /\ (op_availableUpgrades op = [] -> outdated op = false)
    /\ forall earlier last,
         op_availableUpgrades op = earlier ++ [last] ->
         (outdated op = true
          <-> Semver.diff (cleanVersion (inst_currentVersion (op_installation op)))
                (cleanVersion (up_targetVersion last)) = Ok (Some Semver.Minor)
              \/ Semver.diff (cleanVersion (inst_currentVersion (op_installation op)))
                   (cleanVersion (up_targetVersion last)) = Ok (Some Semver.Major))
         /\ (outdated op = true
             <-> Semver.valid
                   (cleanVersion (inst_currentVersion (op_installation op))) = true
                 /\ Semver.valid (cleanVersion (up_targetVersion last)) = true
                 /\ let '(major, minor, _) := installed_key op in
                    let '(major', minor', _) := target_key last in
                    major <> major' \/ minor <> minor').
Proof.
  intros op. split; [apply isSignificantlyOutdated_outdated|]. split.
  - intros Hnone. unfold outdated, isSignificantlyOutdated. now rewrite Hnone.
  - intros earlier last Hups. rewrite (outdated_last op earlier last Hups).
    destruct (Semver.valid (cleanVersion (inst_currentVersion (op_installation op))))
      eqn:Hcur.
    + destruct (Semver.valid (cleanVersion (up_targetVersion last))) eqn:Hlast.
      * rewrite (diff_cleaned _ _ Hcur Hlast). cbn [andb]. split.
        -- rewrite significant_diff. unfold installed_key, target_key. split.
           ++ intros [H|H]; [left|right]; now rewrite H.
           ++ intros [H|H]; [left|right]; congruence.
        -- rewrite significant_key.
           destruct (installed_key op) as [[a b] c],
                    (target_key last) as [[a' b'] c'].
           tauto.
      * cbn [andb]. split; split; intros H; try discriminate H.
        -- destruct (comparisons_return_iff_valid
                       (cleanVersion (inst_currentVersion (op_installation op)))
                       (cleanVersion (up_targetVersion last))) as (_ & _ & Hiff).
           assert (Hret : returns
                            (Semver.diff
                               (cleanVersion
                                  (inst_currentVersion (op_installation op)))
                               (cleanVersion (up_targetVersion last))))
             by (destruct H as [H|H]; rewrite H; eexists; reflexivity).
           apply Hiff in Hret. destruct Hret as [_ Hv]. congruence.
        -- destruct H as (_ & Hv & _). discriminate Hv.
    + cbn [andb]. split; split; intros H; try discriminate H.
      * destruct (comparisons_return_iff_valid
                    (cleanVersion (inst_currentVersion (op_installation op)))
                    (cleanVersion (up_targetVersion last))) as (_ & _ & Hiff).
        assert (Hret : returns
                         (Semver.diff
                            (cleanVersion (inst_currentVersion (op_installation op)))
                            (cleanVersion (up_targetVersion last))))
          by (destruct H as [H|H]; rewrite H; eexists; reflexivity).
        apply Hiff in Hret. destruct Hret as [Hv _]. congruence.
      * destruct H as (Hv & _). discriminate Hv.
Qed.

(** ** Counts and health of the platform *)

Lemma fold_left_count {A} (f : A -> nat) (l : list A) :
  forall n : Z,
    fold_left (fun count a => count + Z.of_nat (f a)) l n
    = n + Z.of_nat (list_sum (map f l)).
Proof.
  induction l as [|a l IH]; intros n; simpl; [lia|].
  rewrite IH. lia.
Qed.

Lemma length_flat_map {A B} (f : A -> list B) (l : list A) :
  List.length (flat_map f l) = list_sum (map (fun a => List.length (f a)) l).
Proof.
  induction l as [|a l IH]; simpl; [reflexivity|].
  now rewrite length_app, IH.
Qed.

Lemma filter_flat_map {A B} (p : B -> bool) (f : A -> list B) (l : list A) :
  filter p (flat_map f l) = flat_map (fun a => filter p (f a)) l.
Proof.
  induction l as [|a l IH]; simpl; [reflexivity|].
  now rewrite filter_app, IH.
Qed.

Lemma platform_counts now cluster operators :
  ps_criticalIssues (LifecycleService.getPlatformStatus now cluster operators)
  = Z.of_nat (List.length (filter is_critical (all_issues operators)))
  /\ ps_totalIssues (LifecycleService.getPlatformStatus now cluster operators)
     = Z.of_nat (List.length (all_issues operators)).
Proof.
  unfold LifecycleService.getPlatformStatus, all_issues. cbv zeta.
  cbn [ps_criticalIssues ps_totalIssues].
  rewrite (fold_left_count
             (fun op => List.length
                          (filter (fun i => IssueSeverity_eqb (issue_severity i) CRITICAL)
                             (op_issues op)))).
  rewrite (fold_left_count (fun op => List.length (op_issues op))).
  rewrite filter_flat_map, !length_flat_map. split; reflexivity.
Qed.

Lemma platform_health now cluster operators :
  ps_overallHealth (LifecycleService.getPlatformStatus now cluster operators)
  = if 0 <? Z.of_nat (List.length (filter is_critical (all_issues operators)))
    then Critical
    else if 0 <? Z.of_nat (List.length (all_issues operators)) then Warning
         else Healthy.
Proof.
  destruct (platform_counts now cluster operators) as [Hc Ht].
  unfold LifecycleService.getPlatformStatus in *. cbv zeta in *.
  cbn [ps_overallHealth ps_criticalIssues ps_totalIssues] in *.
  now rewrite Hc, Ht.
Qed.

Lemma critical_issue_somewhere operators :
  (0 < Z.of_nat (List.length (filter is_critical (all_issues operators))))
  <-> exists op, In op operators /\ has_severity CRITICAL (op_issues op).
Proof.
  split.
  - intros H.
    destruct (filter is_critical (all_issues operators)) as [|i l] eqn:Hf;
      [simpl in H; lia|].
    assert (Hin : In i (filter is_critical (all_issues operators)))
      by (rewrite Hf; now left).
    apply filter_In in Hin. destruct Hin as [Hin Hcrit].
    apply in_flat_map in Hin. destruct Hin as (op & Hop & Hi).
    exists op. split; [assumption|]. exists i. split; [assumption|].
    now apply IssueSeverity_eqb_eq.
  - intros (op & Hop & i & Hi & Hsev).
    assert (Hin : In i (filter is_critical (all_issues operators))).
    { apply filter_In. split.
      - apply in_flat_map. eauto.
      - now apply IssueSeverity_eqb_eq. }
    destruct (filter is_critical (all_issues operators)); [contradiction|].
    simpl. lia.
Qed.

Lemma no_issue_anywhere operators :
  Z.of_nat (List.length (all_issues operators)) = 0
  <-> forall op, In op operators -> op_issues op = [].
Proof.
  split.
  - intros H op Hop.
    destruct (op_issues op) as [|i l] eqn:Hi; [reflexivity|].
    assert (Hin : In i (all_issues operators)).
    { apply in_flat_map. exists op. split; [assumption|]. rewrite Hi. now left. }
    destruct (all_issues operators); [contradiction|simpl in H; lia].
  - intros H. unfold all_issues.
    induction operators as [|op ops IH]; [reflexivity|].
    simpl. rewrite (H op) by now left. simpl. apply IH.
    intros op' Hop'. apply H. now right.
Qed.

Lemma platform_aggregates :
  forall now cluster operators,
    let ps := LifecycleService.getPlatformStatus now cluster operators in
    ps_operators ps = operators
    /\ ps_totalIssues ps = Z.of_nat (List.length (all_issues operators))
    /\ ps_criticalIssues ps
       = Z.of_nat (List.length (filter is_critical (all_issues operators)))
    /\ 0 <= ps_criticalIssues ps <= ps_totalIssues ps
    /\ (ps_overallHealth ps = Critical
        <-> exists op, In op operators /\ has_severity CRITICAL (op_issues op))
    /\ (ps_overallHealth ps = Healthy
        <-> forall op, In op operators -> op_issues op = []).
Proof.
  intros now cluster operators. cbv zeta.
  destruct (platform_counts now cluster operators) as [Hc Ht].
  pose proof (platform_health now cluster operators) as Hh.
  pose proof (filter_length_le is_critical (all_issues operators)) as Hle.
  split; [reflexivity|]. split; [exact Ht|]. split; [exact Hc|].
  split; [rewrite Hc, Ht; lia|].
  rewrite Hh, <- critical_issue_somewhere, <- no_issue_anywhere.
  destruct (Z.ltb_spec 0 (Z.of_nat (List.length (filter is_critical
                                                   (all_issues operators)))));
    destruct (Z.ltb_spec 0 (Z.of_nat (List.length (all_issues operators))));
    split; split; intros; try congruence; try lia.
Qed.

(** ** Detected issues *)

Lemma append_inv_head (a b c : string) : (a ++ b = a ++ c)%string -> b = c.
Proof.
  induction a as [|x a IH]; simpl; [trivial|]. intros [= H]. auto.
Qed.

Lemma detected_issue_fields now installation lifecycleInfo channel updates issues i :
  LifecycleService.detectUpgradeIssues now installation lifecycleInfo channel
    updates = Ok issues ->
  In i issues ->
  issue_operatorName i = inst_name installation
  /\ issue_detectedAt i = now
  /\ (issue_severity i = WARNING \/ issue_severity i = CRITICAL)
  /\ (issue_affectsClusterUpgrade i = true <-> issue_severity i = CRITICAL).
Proof.
  intros Hrun Hin.
  destruct (detectUpgradeIssues_cases _ _ _ _ _ _ _ Hrun Hin)
    as [[-> _]|[[-> _]|[[-> _]|(m & n & l & _ & _ & _ & _ & _ & ->)]]];
    cbn; repeat split; auto; discriminate.
Qed.

Lemma assembled_issue_severity op i :
  assembled op -> In i (op_issues op) ->
  issue_severity i = WARNING \/ issue_severity i = CRITICAL.
Proof.
  intros (now & lookup & installation & channels & updates & Hst) Hin.
  apply getOperatorStatus_issues in Hst.
  exact (proj1 (proj2 (proj2 (detected_issue_fields _ _ _ _ _ _ _ Hst Hin)))).
Qed.

Lemma assembled_health op :
  assembled op ->
  (op_healthStatus op = Critical <-> has_severity CRITICAL (op_issues op))
  /\ (op_healthStatus op = Healthy <-> op_issues op = []).
Proof.
  intros Hop. pose proof Hop as (now & lookup & installation & channels & updates & Hst).
  rewrite (getOperatorStatus_health _ _ _ _ _ _ Hst).
  destruct (calculateHealthStatus_cases (op_issues op)) as (Hc & _ & Hh).
  split; [exact Hc|]. rewrite Hh. split.
  - intros [Hnc Hnw]. destruct (op_issues op) as [|i l] eqn:Hi; [reflexivity|].
    exfalso.
    destruct (assembled_issue_severity op i Hop) as [Hs|Hs];
      [rewrite Hi; now left| |].
    + apply Hnw. exists i. split; [now left|assumption].
    + apply Hnc. exists i. split; [now left|assumption].
  - intros ->. split; intros (i & [] & _).
Qed.

Lemma overall_health_worst :
  forall now cluster operators,
    (forall op, In op operators -> assembled op) ->
    let ps := LifecycleService.getPlatformStatus now cluster operators in
    (ps_overallHealth ps = Critical
     <-> exists op, In op operators /\ op_healthStatus op = Critical)
    /\ (ps_overallHealth ps = Healthy
        <-> forall op, In op operators -> op_healthStatus op = Healthy)
    /\ (ps_overallHealth ps = Warning
        <-> (exists op, In op operators /\ op_healthStatus op = Warning)
            /\ forall op, In op operators -> op_healthStatus op <> Critical).
Proof.
  intros now cluster operators Hassembled. cbv zeta.
  pose proof (platform_health now cluster operators) as Hh.
  assert (Hcrit : (0 < Z.of_nat (List.length (filter is_critical
                                                (all_issues operators))))
                  <-> exists op, In op operators /\ op_healthStatus op = Critical).
  { rewrite critical_issue_somewhere. split; intros (op & Hop & H); exists op;
      (split; [assumption|]); now apply (assembled_health op (Hassembled op Hop)). }
  assert (Hnone : Z.of_nat (List.length (all_issues operators)) = 0
                  <-> forall op, In op operators -> op_healthStatus op = Healthy).
  { rewrite no_issue_anywhere. split; intros H op Hop;
      now apply (assembled_health op (Hassembled op Hop)), H. }
  assert (Hcases : forall op, op_healthStatus op = Critical
                              \/ op_healthStatus op = Warning
                              \/ op_healthStatus op = Healthy)
    by (intros op; destruct (op_healthStatus op); auto).
  rewrite Hh.
  destruct (Z.ltb_spec 0 (Z.of_nat (List.length (filter is_critical
                                                   (all_issues operators)))))
    as [Hc|Hc].
  - apply Hcrit in Hc. destruct Hc as (op & Hop & Hc).
    split; [|split]; split; try discriminate; eauto.
    + intros H. rewrite (H op Hop) in Hc. discriminate.
    + intros [_ H]. now apply H in Hc.
  - assert (Hnc : forall op, In op operators -> op_healthStatus op <> Critical).
    { intros op Hop Hx. assert (0 < Z.of_nat (List.length (filter is_critical
                                                 (all_issues operators))))
        by (apply Hcrit; eauto). lia. }
    destruct (Z.ltb_spec 0 (Z.of_nat (List.length (all_issues operators))))
      as [Ht|Ht].
    + assert (Hsome : exists op, In op operators /\ op_healthStatus op = Warning).
      { destruct (all_issues operators) as [|i l] eqn:Hall; [simpl in Ht; lia|].
        assert (Hin : In i (all_issues operators)) by (rewrite Hall; now left).
        apply in_flat_map in Hin. destruct Hin as (op & Hop & Hi).
        exists op. split; [assumption|].
        destruct (Hcases op) as [H|[H|H]]; [now apply Hnc in H|assumption|].
        apply (assembled_health op (Hassembled op Hop)) in H.
        rewrite H in Hi. contradiction. }
      split; [|split]; split; try discriminate; auto.
      * intros (op & Hop & H). now apply Hnc in H.
      * intros H. destruct Hsome as (op & Hop & Hw). rewrite (H op Hop) in Hw.
        discriminate.
    + assert (Hz : Z.of_nat (List.length (all_issues operators)) = 0) by lia.
      pose proof (proj1 Hnone Hz) as Hall.
      split; [|split]; split; try discriminate; auto.
      * intros (op & Hop & H). now apply Hnc in H.
      * intros [(op & Hop & H) _]. rewrite (Hall op Hop) in H. discriminate.
Qed.

(** The platform status counts the issues of all operators and the
    critical ones among them; its overall health is critical exactly
    when an operator has a critical issue and healthy exactly when no
    operator has an issue.  On statuses the service built, it is the
    worst health of an operator. *)
Theorem platform_health_aggregates :
  forall now cluster operators,
    let ps := LifecycleService.getPlatformStatus now cluster operators in
    ps_operators ps = operators
    /\ ps_totalIssues ps = Z.of_nat (List.length (all_issues operators))
    /\ ps_criticalIssues ps
       = Z.of_nat (List.length (filter is_critical (all_issues operators)))
    /\ 0 <= ps_criticalIssues ps <= ps_totalIssues ps
    /\ (ps_overallHealth ps = Critical
        <-> exists op, In op operators /\ has_severity CRITICAL (op_issues op))
    /\ (ps_overallHealth ps = Healthy
        <-> forall op, In op operators -> op_issues op = [])
    /\ ((forall op, In op operators -> assembled op) ->
        (ps_overallHealth ps = Critical
         <-> exists op, In op operators /\ op_healthStatus op = Critical)
        /\ (ps_overallHealth ps = Healthy
            <-> forall op, In op operators -> op_healthStatus op = Healthy)
        /\ (ps_overallHealth ps = Warning
            <-> (exists op, In op operators /\ op_healthStatus op = Warning)
                /\ forall op, In op operators -> op_healthStatus op <> Critical)).
Proof.
  intros now cluster operators. cbv zeta.
  pose proof (platform_aggregates now cluster operators) as H. cbv zeta in H.
  destruct H as (H1 & H2 & H3 & H4 & H5 & H6).
  repeat (split; [assumption|]).
  intros Hassembled. exact (overall_health_worst now cluster operators Hassembled).
Qed.

(** ** The immediate window *)

Lemma critical_path_exists now am ps :
  generateCriticalIssuePath now am ps <> None
  <-> exists op, In op (ps_operators ps) /\ has_severity CRITICAL (op_issues op).
Proof.
  unfold generateCriticalIssuePath. cbv zeta.
  destruct (filter _ (ps_operators ps)) as [|op l] eqn:Hf.
  - cbn [List.length Nat.eqb]. split; [congruence|].
    intros (op & Hop & Hsev). exfalso.
    assert (Hin : In op []).
    { rewrite <- Hf. apply filter_In. split; [assumption|].
      now apply existsb_has_severity. }
    contradiction.
  - cbn [List.length Nat.eqb]. split; [|discriminate]. intros _.
    assert (Hin : In op (op :: l)) by now left.
    rewrite <- Hf in Hin. apply filter_In in Hin. destruct Hin as [Hin Hsev].
    exists op. split; [assumption|]. now apply existsb_has_severity.
Qed.

Lemma immediate_window_listed now ps paths :
  In "immediate-window" (map win_id (generateMaintenanceWindows now ps paths))
  <-> (0 <? ps_criticalIssues ps)
      && present (find_path "critical-issues-path" paths) = true.
Proof.
  unfold generateMaintenanceWindows. cbv zeta.
  destruct (0 <? ps_criticalIssues ps);
    destruct (find_path "critical-issues-path" paths);
    destruct (find_path "balanced-path" paths);
    destruct (ps_supportExpiresIn ps) as [days|];
    cbn [Js.truthy_opt_number andb present];
    try destruct (negb (days =? 0)); try destruct (days <? 90);
    cbn [andb];
    destruct (find_path "aggressive-path" paths);
    cbn [app map win_id In];
    split; intros H; try reflexivity; try discriminate; auto;
    repeat (destruct H as [H|H]; [discriminate H|]); contradiction.
Qed.

(** On a platform status built by [getPlatformStatus], the
    critical-issues path and the immediate window are produced exactly
    when the platform counts a critical issue. *)
Theorem immediate_window_iff_critical_issue :
  forall now cluster operators am paths,
    let ps := LifecycleService.getPlatformStatus now cluster operators in
    generateUpgradePaths now am ps = Ok paths ->
    (0 < ps_criticalIssues ps
     <-> exists op, In op operators /\ has_severity CRITICAL (op_issues op))
    /\ (0 < ps_criticalIssues ps
        <-> present (find_path "critical-issues-path" paths) = true)
    /\ (0 < ps_criticalIssues ps
        <-> In "immediate-window"
              (map win_id (generateMaintenanceWindows now ps paths))).
Proof.
  intros now cluster operators am paths. cbv zeta. intros Hgen.
  destruct (platform_counts now cluster operators) as [Hc _].
  destruct (generated_ids _ _ _ _ Hgen) as (_ & _ & _ & _ & _ & Hfind & _).
  assert (H1 : 0 < ps_criticalIssues
                     (LifecycleService.getPlatformStatus now cluster operators)
               <-> exists op, In op operators /\ has_severity CRITICAL (op_issues op)).
  { rewrite Hc. apply critical_issue_somewhere. }
  assert (H2 : 0 < ps_criticalIssues
                     (LifecycleService.getPlatformStatus now cluster operators)
               <-> present (find_path "critical-issues-path" paths) = true).
  { rewrite H1, Hfind.
    rewrite <- (critical_path_exists now am
                  (LifecycleService.getPlatformStatus now cluster operators)).
    destruct (generateCriticalIssuePath _ _ _); simpl; split; congruence. }
  split; [exact H1|]. split; [exact H2|].
  rewrite immediate_window_listed, andb_true_iff, Z.ltb_lt. tauto.
Qed.

(** ** Support expiry *)

Lemma earliest_least (ds : list Date) :
  forall d,
    In (LifecycleService.earliest d ds) (d :: ds)
    /\ forall x, In x (d :: ds) -> LifecycleService.earliest d ds <= x.
Proof.
  unfold LifecycleService.earliest.
  induction ds as [|y ds IH]; intros d; cbn [fold_left].
  - split; [now left|]. intros x [<-|[]]. lia.
  - destruct (IH (Z.min d y)) as [Hin Hle]. split.
    + destruct Hin as [Hin|Hin]; [|now right; right].
      rewrite <- Hin. destruct (Z.min_spec d y) as [[_ ->]|[_ ->]]; simpl; auto.
    + intros x [<-|[<-|Hx]].
      * specialize (Hle (Z.min d y) (or_introl eq_refl)). lia.
      * specialize (Hle (Z.min d y) (or_introl eq_refl)). lia.
      * apply Hle. now right.
Qed.

Lemma collected_dates (operators : list OperatorStatus) :
  forall dates,
    fold_left
      (fun dates op =>
         match lc_maintenanceSupportEndsAt (op_lifecycleInfo op) with
         | Some d => dates ++ [d]
         | None => dates
         end)
      operators dates
    = dates
      ++ flat_map (fun op => date_of (lc_maintenanceSupportEndsAt (op_lifecycleInfo op)))
           operators.
Proof.
  induction operators as [|op ops IH]; intros dates; simpl.
  - now rewrite app_nil_r.
  - rewrite IH. destruct (lc_maintenanceSupportEndsAt (op_lifecycleInfo op)); simpl.
    + now rewrite <- app_assoc.
    + reflexivity.
Qed.

Lemma calculateSupportExpiry_none now cluster operators :
  maintenance_dates cluster operators = [] ->
  LifecycleService.calculateSupportExpiry now cluster operators = None.
Proof.
  intros Hnone.
  unfold LifecycleService.calculateSupportExpiry. cbv zeta.
  rewrite collected_dates.
  change (match cv_maintenanceSupportEndsAt cluster with
          | Some d => [d]
          | None => []
          end) with (date_of (cv_maintenanceSupportEndsAt cluster)).
  fold (maintenance_dates cluster operators).
  now rewrite Hnone.
Qed.

(** The support expiry is the number of whole days from now to the
    earliest maintenance-support end date of the cluster and its
    operators; it is undefined exactly when there is no such date. *)
Theorem support_expiry_is_earliest_date :
  forall now cluster operators,
    (LifecycleService.calculateSupportExpiry now cluster operators = None
     <-> maintenance_dates cluster operators = [])
    /\ forall days,
         LifecycleService.calculateSupportExpiry now cluster operators = Some days ->
         exists d,
           In d (maintenance_dates cluster operators)
           /\ (forall x, In x (maintenance_dates cluster operators) -> d <= x)
           /\ days = (d - now) / day
           /\ now + days * day <= d < now + (days + 1) * day.
Proof.
  intros now cluster operators.
  unfold LifecycleService.calculateSupportExpiry. cbv zeta.
  rewrite collected_dates.
  change (match cv_maintenanceSupportEndsAt cluster with
          | Some d => [d]
          | None => []
          end) with (date_of (cv_maintenanceSupportEndsAt cluster)).
  fold (maintenance_dates cluster operators).
  destruct (maintenance_dates cluster operators) as [|d ds].
  - split; [tauto|discriminate].
  - split; [split; discriminate|].
    intros days [= <-].
    destruct (earliest_least ds d) as [Hin Hle].
    exists (LifecycleService.earliest d ds).
    split; [exact Hin|]. split; [exact Hle|].
    change (1000 * 60 * 60 * 24) with day.
    split; [reflexivity|].
    assert (Hday : 0 < day) by reflexivity.
    pose proof (Z.div_mod (LifecycleService.earliest d ds - now) day) as Hdm.
    pose proof (Z.mod_pos_bound (LifecycleService.earliest d ds - now) day Hday)
      as Hmod.
    change day with 86400000 in *. lia.
Qed.

(** ** Invariants of issue detection *)

Lemma distinct_suffixes (name a b : string) :
  a <> b -> (name ++ a)%string <> (name ++ b)%string.
Proof. intros Hab H. apply Hab. exact (append_inv_head _ _ _ H). Qed.

Lemma detectUpgradeIssues_ids_distinct now installation lifecycleInfo channel
    updates issues :
  LifecycleService.detectUpgradeIssues now installation lifecycleInfo channel
    updates = Ok issues ->
  NoDup (map issue_id issues) /\ (List.length issues <= 3)%nat.
Proof.
  unfold LifecycleService.detectUpgradeIssues. cbv zeta. intros Hrun.
  assert (Hshape :
    exists (stale lifecycle ceiling : list string),
      map issue_id issues = stale ++ lifecycle ++ ceiling
      /\ (stale = [] \/ stale = [(inst_name installation ++ "-stale-channel")%string])
      /\ (lifecycle = []
          \/ lifecycle = [(inst_name installation ++ "-maintenance")%string]
          \/ lifecycle = [(inst_name installation ++ "-eol")%string])
      /\ (ceiling = []
          \/ ceiling = [(inst_name installation ++ "-version-ceiling")%string])).
  { set (base :=
           let issues : list UpgradeIssue := [] in
           let issues :=
             if chan_deprecated channel
             then issues ++ [LifecycleService.staleChannelIssue now installation channel]
             else issues in
           let issues :=
             if SupportPhase_eqb (lc_supportPhase lifecycleInfo) MAINTENANCE_SUPPORT
             then issues ++ [LifecycleService.maintenanceIssue now installation]
             else issues in
           if SupportPhase_eqb (lc_supportPhase lifecycleInfo) END_OF_LIFE
           then issues ++ [LifecycleService.eolIssue now installation]
           else issues) in *.
    assert (Hbase :
      exists stale lifecycle,
        map issue_id base = stale ++ lifecycle
        /\ (stale = [] \/ stale = [(inst_name installation ++ "-stale-channel")%string])
        /\ (lifecycle = []
            \/ lifecycle = [(inst_name installation ++ "-maintenance")%string]
            \/ lifecycle = [(inst_name installation ++ "-eol")%string])).
    { exists (if chan_deprecated channel
              then [(inst_name installation ++ "-stale-channel")%string] else []),
        (match lc_supportPhase lifecycleInfo with
         | MAINTENANCE_SUPPORT => [(inst_name installation ++ "-maintenance")%string]
         | END_OF_LIFE => [(inst_name installation ++ "-eol")%string]
         | _ => []
         end).
      subst base. cbv zeta.
      destruct (chan_deprecated channel);
        destruct (lc_supportPhase lifecycleInfo); cbn;
        (split; [reflexivity|]);
        (split;
         first [ left; reflexivity | right; left; reflexivity
               | right; right; reflexivity | right; reflexivity ]). }
    clearbody base.
    destruct Hbase as (stale & lifecycle & Hids & Hstale & Hlife).
    assert (Hplain : Ok base = Ok issues ->
              exists stale lifecycle ceiling,
                map issue_id issues = stale ++ lifecycle ++ ceiling
                /\ (stale = []
                    \/ stale = [(inst_name installation ++ "-stale-channel")%string])
                /\ (lifecycle = []
                    \/ lifecycle = [(inst_name installation ++ "-maintenance")%string]
                    \/ lifecycle = [(inst_name installation ++ "-eol")%string])
                /\ (ceiling = []
                    \/ ceiling
                       = [(inst_name installation ++ "-version-ceiling")%string])).
    { intros H. apply Ok_inj in H. subst issues. exists stale, lifecycle, [].
      rewrite app_nil_r. auto. }
    destruct (lc_maxOCPVersion lifecycleInfo) as [maxOCPVersion|]; [|auto].
    destruct updates as [|nextUpdate later]; [auto|].
    destruct (Js.truthy_string maxOCPVersion); [|auto].
    destruct (Semver.valid (LifecycleService.extractVersionFromUpdate nextUpdate)
              && Semver.valid maxOCPVersion); [|auto].
    bind_inv Hrun as above Hgt. destruct above; [|auto].
    apply Ok_inj in Hrun. subst issues.
    exists stale, lifecycle, [(inst_name installation ++ "-version-ceiling")%string].
    rewrite map_app, Hids, <- app_assoc. auto. }
  destruct Hshape as (stale & lifecycle & ceiling & Hids & Hs & Hl & Hc).
  assert (Hlen : List.length issues = List.length (map issue_id issues))
    by now rewrite length_map.
  rewrite Hlen, Hids.
  destruct Hs as [-> | ->], Hl as [-> | [-> | ->]], Hc as [-> | ->];
    cbn [app List.length]; (split; [|lia]);
    repeat (constructor;
            [cbn [In]; intros H;
             repeat (destruct H as [H|H];
                     [apply distinct_suffixes in H; [exact H|discriminate]|]);
             exact H|]);
    constructor.
Qed.

(** What every issue detection returns: at most three issues, with
    pairwise distinct ids, each naming the operator and the time of
    detection, each a warning or critical, and affecting the cluster
    upgrade exactly when critical. *)
Theorem detected_issues_invariants :
  forall now installation lifecycleInfo channel updates issues,
    LifecycleService.detectUpgradeIssues now installation lifecycleInfo channel
      updates = Ok issues ->
    NoDup (map issue_id issues)
    /\ (List.length issues <= 3)%nat
    /\ forall i,
         In i issues ->
         issue_operatorName i = inst_name installation
         /\ issue_detectedAt i = now
         /\ (issue_severity i = WARNING \/ issue_severity i = CRITICAL)
         /\ (issue_affectsClusterUpgrade i = true <-> issue_severity i = CRITICAL).
Proof.
  intros now installation lifecycleInfo channel updates issues Hrun.
  destruct (detectUpgradeIssues_ids_distinct _ _ _ _ _ _ Hrun) as [Hnd Hlen].
  split; [exact Hnd|]. split; [exact Hlen|].
  intros i. now apply (detected_issue_fields _ _ _ _ _ _ _ Hrun).
Qed.

(** ** Upgrades per channel *)

Lemma gt_throws (a b : string) :
  Semver.valid a && Semver.valid b = false ->
  exists e, Semver.gt a b = Throw e.
Proof.
  intros Hv. destruct (Semver.gt a b) as [r|e] eqn:Hgt; [|eauto].
  exfalso. destruct (comparisons_return_iff_valid a b) as [Hiff _].
  destruct (proj1 Hiff (ex_intro _ r Hgt)) as [Ha Hb].
  rewrite Ha, Hb in Hv. discriminate.
Qed.

Lemma detectAvailableUpgrades_loop now lookup installation channels :
  forall upgrades,
    for_each
      (fun upgrades channel =>
         if Semver.valid (cleanVersion (inst_currentVersion installation))
            && Semver.valid (cleanVersion (chan_currentCSV channel))
         then
           newer <- Semver.gt (cleanVersion (chan_currentCSV channel))
                      (cleanVersion (inst_currentVersion installation)) ;;
           if (newer : bool)
           then Ok (upgrades ++ [upgradeTo now lookup installation channel])
           else Ok upgrades
         else Ok upgrades)
      channels upgrades
    = Ok (upgrades
          ++ map (upgradeTo now lookup installation)
               (filter (offers_newer installation) channels)).
Proof.
  induction channels as [|channel channels IH]; intros upgrades.
  - simpl. now rewrite app_nil_r.
  - cbn [for_each filter]. unfold offers_newer at 1.
    destruct (Semver.valid (cleanVersion (inst_currentVersion installation))
              && Semver.valid (cleanVersion (chan_currentCSV channel))) eqn:Hv.
    + apply andb_prop in Hv. destruct Hv as [Hcur Hcsv].
      destruct (gt_returns _ _ Hcsv Hcur) as (newer & Hgt). rewrite Hgt.
      destruct newer; cbn [bind]; rewrite IH; [|reflexivity].
      cbn [map]. now rewrite <- app_assoc.
    + rewrite andb_comm in Hv. destruct (gt_throws _ _ Hv) as (e & ->).
      cbn [bind]. apply IH.
Qed.

Lemma detectAvailableUpgrades_listed now lookup installation channels :
  LifecycleService.detectAvailableUpgrades now lookup installation channels
  = Ok (map (upgradeTo now lookup installation)
          (filter (offers_newer installation) channels)).
Proof.
  unfold LifecycleService.detectAvailableUpgrades. cbv zeta.
  exact (detectAvailableUpgrades_loop now lookup installation channels []).
Qed.

(** [detectAvailableUpgrades] lists one upgrade for each channel of the
    package whose current version is newer than the installed one, in
    the order of the catalog, whichever channel is subscribed. *)
Theorem one_upgrade_per_newer_channel :
  forall now lookup installation channels,
    LifecycleService.detectAvailableUpgrades now lookup installation channels
    = Ok (map (upgradeTo now lookup installation)
            (filter (offers_newer installation) channels)).
Proof.
  intros now lookup installation channels.
  unfold LifecycleService.detectAvailableUpgrades. cbv zeta.
  exact (detectAvailableUpgrades_loop now lookup installation channels []).
Qed.

(** ** The subscribed channel *)

Lemma stale_issue_reported now installation lifecycleInfo channel updates issues :
  LifecycleService.detectUpgradeIssues now installation lifecycleInfo channel
    updates = Ok issues ->
  ((exists i, In i issues /\ issue_type i = STALE_CHANNEL)
   <-> chan_deprecated channel = true).
Proof.
  intros Hrun. split.
  - intros (i & Hin & Hty).
    destruct (detectUpgradeIssues_cases _ _ _ _ _ _ _ Hrun Hin)
      as [[_ H]|[[-> _]|[[-> _]|(m & n & l & _ & _ & _ & _ & _ & ->)]]];
      [exact H|discriminate Hty..].
  - intros Hdep.
    exists (LifecycleService.staleChannelIssue now installation channel).
    split; [|reflexivity].
    unfold LifecycleService.detectUpgradeIssues in Hrun. cbv zeta in Hrun.
    rewrite Hdep in Hrun.
    match type of Hrun with
    | match _ with Some _ => _ | None => Ok ?base end = _ =>
        assert (Hbase : In (LifecycleService.staleChannelIssue now installation channel)
                          base)
    end.
    { destruct (SupportPhase_eqb _ MAINTENANCE_SUPPORT),
        (SupportPhase_eqb _ END_OF_LIFE); cbn; auto. }
    destruct (lc_maxOCPVersion lifecycleInfo) as [maxOCPVersion|];
      [|apply Ok_inj in Hrun; now subst issues].
    destruct updates as [|nextUpdate later];
      [apply Ok_inj in Hrun; now subst issues|].
    destruct (Js.truthy_string maxOCPVersion);
      [|apply Ok_inj in Hrun; now subst issues].
    destruct (Semver.valid _ && Semver.valid maxOCPVersion);
      [|apply Ok_inj in Hrun; now subst issues].
    bind_inv Hrun as above Hgt.
    destruct above; apply Ok_inj in Hrun; subst issues; [|assumption].
    apply in_or_app. now left.
Qed.

(** A stale-channel issue is reported exactly when the first channel
    of the catalog with the subscribed name is deprecated; when the
    catalog lists no channel of that name, the status carries a
    stand-in channel that is not deprecated. *)
Theorem stale_channel_needs_listed_channel :
  forall now lookup installation channels updates st,
    LifecycleService.getOperatorStatus now lookup installation channels updates
    = Some st ->
    ((exists i, In i (op_issues st) /\ issue_type i = STALE_CHANNEL)
     <-> exists c, subscribed installation channels = Some c
                   /\ chan_deprecated c = true)
    /\ (forall c, subscribed installation channels = Some c ->
                  op_currentChannel st = c)
    /\ (subscribed installation channels = None ->
        chan_name (op_currentChannel st) = inst_currentChannel installation
        /\ chan_currentCSV (op_currentChannel st) = inst_currentVersion installation
        /\ chan_deprecated (op_currentChannel st) = false).
Proof.
  intros now lookup installation channels updates st Hst.
  pose proof (getOperatorStatus_issues _ _ _ _ _ _ Hst) as Hissues.
  apply stale_issue_reported in Hissues. rewrite Hissues. clear Hissues.
  unfold LifecycleService.getOperatorStatus in Hst. cbv zeta in Hst.
  destruct (LifecycleService.detectAvailableUpgrades _ _ _ _); [|discriminate].
  destruct (LifecycleService.detectUpgradeIssues _ _ _ _ _); [|discriminate].
  apply Some_inj in Hst. subst st. cbv beta iota delta [op_currentChannel].
  fold (subscribed installation channels).
  destruct (subscribed installation channels) as [c|].
  - split; [|split].
    + split; [eauto|]. now intros (c' & [= <-] & H).
    + now intros c' [= <-].
    + discriminate.
  - split; [|split].
    + split; [discriminate|]. now intros (c' & [=] & _).
    + discriminate.
    + intros _. repeat split.
Qed.

(** ** Splitting and trimming *)

Lemma split_cons (sep : ascii) (s : string) :
  exists piece rest, Semver.split sep s = piece :: rest.
Proof.
  induction s as [|c s IH]; simpl; [eauto|].
  destruct (Ascii.eqb c sep); [eauto|].
  destruct IH as (piece & rest & ->). eauto.
Qed.

Lemma split_join (sep : ascii) (s : string) :
  join (String sep "") (Semver.split sep s) = s.
Proof.
  induction s as [|c s IH]; [reflexivity|].
  cbn [Semver.split].
  destruct (split_cons sep s) as (piece & rest & Hs). rewrite Hs in *.
  destruct (Ascii.eqb c sep) eqn:Hc.
  - apply Ascii.eqb_eq in Hc. subst c.
    change (join (String sep "") ("" :: piece :: rest))
      with ("" ++ String sep "" ++ join (String sep "") (piece :: rest))%string.
    now rewrite IH.
  - destruct rest as [|next rest].
    + cbn [join] in *. now rewrite IH.
    + change (join (String sep "") (String c piece :: next :: rest))
        with (String c (piece ++ String sep "" ++ join (String sep "") (next :: rest)))%string.
      change (join (String sep "") (piece :: next :: rest))
        with (piece ++ String sep "" ++ join (String sep "") (next :: rest))%string
        in IH.
      now rewrite IH.
Qed.

Lemma split_pieces (sep : ascii) (s piece : string) :
  In piece (Semver.split sep s) -> has_char sep piece = false.
Proof.
  revert piece. induction s as [|c s IH]; intros piece; cbn [Semver.split].
  - intros [<-|[]]. reflexivity.
  - destruct (Ascii.eqb c sep) eqn:Hc.
    + intros [<-|Hin]; [reflexivity|auto].
    + destruct (split_cons sep s) as (first & rest & Hs). rewrite Hs in *.
      intros [<-|Hin].
      * cbn [has_char]. rewrite Hc. apply IH. now left.
      * apply IH. now right.
Qed.

Lemma rtrim_idempotent (s : string) : Semver.rtrim (Semver.rtrim s) = Semver.rtrim s.
Proof.
  induction s as [|c s IH]; [reflexivity|]. cbn [Semver.rtrim].
  destruct (Js.is_space c && String.eqb (Semver.rtrim s) "") eqn:Hc; [reflexivity|].
  cbn [Semver.rtrim]. now rewrite IH, Hc.
Qed.

Lemma skip_spaces_rtrim (s : string) :
  Js.skip_spaces (Semver.rtrim (Js.skip_spaces s)) = Semver.rtrim (Js.skip_spaces s).
Proof.
  induction s as [|c s IH]; [reflexivity|]. cbn [Js.skip_spaces].
  destruct (Js.is_space c) eqn:Hc; [exact IH|].
  cbn [Semver.rtrim]. rewrite Hc. cbn [andb Js.skip_spaces]. now rewrite Hc.
Qed.

Lemma trim_idempotent (s : string) : Semver.trim (Semver.trim s) = Semver.trim s.
Proof.
  unfold Semver.trim. now rewrite skip_spaces_rtrim, rtrim_idempotent.
Qed.

Lemma has_char_skip_spaces (c : ascii) (s : string) :
  has_char c (Js.skip_spaces s) = true -> has_char c s = true.
Proof.
  induction s as [|x s IH]; [trivial|]. cbn [Js.skip_spaces has_char].
  destruct (Js.is_space x); [|trivial].
  intros H. rewrite (IH H). apply orb_true_r.
Qed.

Lemma has_char_rtrim (c : ascii) (s : string) :
  has_char c (Semver.rtrim s) = true -> has_char c s = true.
Proof.
  induction s as [|x s IH]; [trivial|]. cbn [Semver.rtrim has_char].
  destruct (Js.is_space x && String.eqb (Semver.rtrim s) ""); [discriminate|].
  cbn [has_char]. intros H. apply orb_prop in H. destruct H as [->|H]; [reflexivity|].
  rewrite (IH H). apply orb_true_r.
Qed.

Lemma has_char_trim (c : ascii) (s : string) :
  has_char c s = false -> has_char c (Semver.trim s) = false.
Proof.
  intros H. destruct (has_char c (Semver.trim s)) eqn:Ht; [|reflexivity].
  unfold Semver.trim in Ht. apply has_char_rtrim, has_char_skip_spaces in Ht.
  congruence.
Qed.

(** The OpenShift versions of a channel are the comma-separated pieces
    of the annotation, each without surrounding white space; there is
    at least one, and none when the annotation is missing or empty. *)
Theorem ocp_versions_are_trimmed_pieces :
  forall channel,
    let annotation :=
      OLMClient.property "com.redhat.openshift.versions"
        match OLMClient.chain (OLMClient.mc_currentCSVDesc channel)
                OLMClient.desc_annotations with
        | Some annotations => annotations
        | None => []
        end in
    (OLMClient.extractOCPVersionsFromChannel channel = None
     <-> annotation = None \/ annotation = Some "")
    /\ forall versions,
         OLMClient.extractOCPVersionsFromChannel channel = Some versions ->
         exists pieces,
           annotation = Some (join "," pieces)
           /\ versions = map Semver.trim pieces
           /\ versions <> []
           /\ forall v, In v versions ->
                Semver.trim v = v /\ has_char "," v = false.
Proof.
  intros channel. cbv zeta. unfold OLMClient.extractOCPVersionsFromChannel. cbv zeta.
  destruct (OLMClient.property _ _) as [annotation|].
  - destruct annotation as [|c tail] eqn:Ha.
    + cbn. split; [split; auto|discriminate].
    + rewrite <- Ha. assert (Ht : Js.truthy_string annotation = true) by now subst.
      rewrite Ht. split.
      * split; [discriminate|]. intros [H|H]; [discriminate|].
        subst. discriminate.
      * intros versions [= <-]. exists (Semver.split "," annotation).
        split; [now rewrite split_join|]. split; [reflexivity|]. split.
        -- destruct (split_cons "," annotation) as (p & r & ->). discriminate.
        -- intros v Hin. apply in_map_iff in Hin. destruct Hin as (p & <- & Hp).
           split; [apply trim_idempotent|].
           apply has_char_trim. now apply (split_pieces "," annotation).
  - split; [split; auto|discriminate].
Qed.

(** ** Channels of the catalog *)

Lemma mapChannel_deprecated (channel : OLMClient.ManifestChannel) :
  (chan_deprecated (OLMClient.mapChannel channel) = true
   <-> exists message,
         chan_deprecationMessage (OLMClient.mapChannel channel) = Some message
         /\ message <> "")
  /\ (chan_deprecated (OLMClient.mapChannel channel) = true ->
      forall now installation,
        Some (issue_description
                (LifecycleService.staleChannelIssue now installation
                   (OLMClient.mapChannel channel)))
        = chan_deprecationMessage (OLMClient.mapChannel channel)).
Proof.
  unfold OLMClient.mapChannel, LifecycleService.staleChannelIssue.
  cbn [chan_deprecated chan_deprecationMessage issue_description].
  destruct (OLMClient.chain _ _) as [message|]; cbn [Js.or_string].
  - unfold Js.truthy_string.
    destruct (String.eqb_spec message ""); cbn [negb]; split.
    + split; [discriminate|]. intros (m & [= <-] & H). contradiction.
    + discriminate.
    + split; [eauto|reflexivity].
    + reflexivity.
  - split; [|discriminate].
    split; [discriminate|]. intros (m & [=] & _).
Qed.

(** A channel the client maps is deprecated exactly when the catalog
    gives a deprecation message that is not empty, and the stale-channel
    issue of such a channel carries that message; a package manifest
    that is not found gives no channel. *)
Theorem deprecated_channels_carry_their_message :
  forall packageName catalogSource catalogNamespace response channels,
    OLMClient.getOperatorChannels packageName catalogSource catalogNamespace
      response = Ok channels ->
    (forall statusCode,
        response = OLMClient.Rejected statusCode ->
        statusCode = Some 404 /\ channels = [])
    /\ forall c,
         In c channels ->
         (chan_deprecated c = true
          <-> exists message,
                chan_deprecationMessage c = Some message /\ message <> "")
         /\ (chan_deprecated c = true ->
             forall now installation,
               Some (issue_description
                       (LifecycleService.staleChannelIssue now installation c))
               = chan_deprecationMessage c).
Proof.
  intros packageName catalogSource catalogNamespace response channels Hrun. split.
  - intros statusCode ->. cbn in Hrun.
    destruct statusCode as [code|]; cbn in Hrun; [|discriminate].
    destruct (Z.eqb_spec code 404); [|discriminate].
    apply Ok_inj in Hrun. subst. auto.
  - intros c Hin. destruct response as [pkg|statusCode]; cbn in Hrun.
    + apply Ok_inj in Hrun. subst channels.
      apply in_map_iff in Hin. destruct Hin as (channel & <- & _).
      apply mapChannel_deprecated.
    + destruct (OLMClient.notFound statusCode); [|discriminate].
      apply Ok_inj in Hrun. subst channels. contradiction.
Qed.

(** ** Subscriptions without a resolved version *)

Lemma no_upgrade_without_installed_version now lookup installation channels :
  Semver.valid (cleanVersion (inst_currentVersion installation)) = false ->
  LifecycleService.detectAvailableUpgrades now lookup installation channels = Ok [].
Proof.
  intros Hinvalid. rewrite detectAvailableUpgrades_listed.
  replace (filter (offers_newer installation) channels) with (@nil OperatorChannel);
    [reflexivity|].
  symmetry. induction channels as [|c channels IH]; [reflexivity|].
  cbn [filter]. rewrite IH. unfold offers_newer.
  destruct (gt_throws (cleanVersion (chan_currentCSV c))
              (cleanVersion (inst_currentVersion installation))) as (e & ->);
    [|reflexivity].
  rewrite Hinvalid. apply andb_false_r.
Qed.

(** A subscription whose status names no current CSV is installed at
    version [unknown], and no upgrade is listed for it, whatever the
    catalog offers. *)
Theorem unresolved_subscription_has_no_upgrade :
  forall parseDate sub,
    Js.or_string (OLMClient.chain (OLMClient.sub_status sub)
                    OLMClient.status_currentCSV) "" = "" ->
    inst_currentVersion (OLMClient.mapSubscriptionToInstallation parseDate sub)
    = "unknown"
    /\ forall now lookup channels,
         LifecycleService.detectAvailableUpgrades now lookup
           (OLMClient.mapSubscriptionToInstallation parseDate sub) channels
         = Ok [].
Proof.
  intros parseDate sub Hmissing.
  assert (Hversion :
    inst_currentVersion (OLMClient.mapSubscriptionToInstallation parseDate sub)
    = "unknown").
  { unfold OLMClient.mapSubscriptionToInstallation. cbn [inst_currentVersion].
    destruct (OLMClient.chain _ _) as [csv|]; [|reflexivity].
    cbn [Js.or_string] in *. destruct (Js.truthy_string csv) eqn:Ht; [|reflexivity].
    subst csv. discriminate Ht. }
  split; [exact Hversion|].
  intros now lookup channels. apply no_upgrade_without_installed_version.
  rewrite Hversion. reflexivity.
Qed.

(** ** The cluster version *)

Lemma or_string_nonempty (o : option string) (default : string) :
  default <> "" -> Js.or_string o default <> "".
Proof.
  intros Hd. destruct o as [s|]; unfold Js.or_string, Js.truthy_string;
    [|assumption].
  destruct (String.eqb_spec s ""); cbn [negb]; assumption.
Qed.

Lemma or_string_twice (o : option string) (default : string) :
  Js.or_string o (Js.or_string o default) = Js.or_string o default.
Proof.
  destruct o as [s|]; unfold Js.or_string; [|reflexivity].
  destruct (Js.truthy_string s); reflexivity.
Qed.

Lemma unversioned_dec (u : LifecycleService.Update) : unversioned u \/ ~ unversioned u.
Proof.
  destruct u as [s|version]; cbn [unversioned]; [now right|].
  destruct (string_dec (Js.or_string version "") ""); [now left|now right].
Qed.

Lemma versionOrUpdate_unversioned (u : LifecycleService.Update) :
  unversioned u ->
  LifecycleRequests.versionOrUpdate u = u
  /\ LifecycleService.extractVersionFromUpdate u = "".
Proof.
  destruct u as [s|[version|]]; cbn [unversioned]; [contradiction| |].
  - unfold Js.or_string. cbn [LifecycleRequests.versionOrUpdate
      LifecycleService.extractVersionFromUpdate]. unfold Js.or_string.
    destruct (Js.truthy_string version) eqn:Htruthy; [|now split].
    intros ->. discriminate Htruthy.
  - now split.
Qed.

Lemma versionOrUpdate_versioned (u : LifecycleService.Update) :
  ~ unversioned u ->
  LifecycleRequests.versionOrUpdate u
  = LifecycleService.UpdateString (LifecycleService.extractVersionFromUpdate u).
Proof.
  destruct u as [s|[version|]]; cbn [unversioned]; [reflexivity| |].
  - cbn [LifecycleRequests.versionOrUpdate
      LifecycleService.extractVersionFromUpdate]. unfold Js.or_string.
    destruct (Js.truthy_string version); [reflexivity|]. intros H. now destruct H.
  - intros H. now destruct H.
Qed.

Lemma update_strings_none (updates : list LifecycleService.Update) :
  update_strings (map LifecycleRequests.versionOrUpdate updates) = None
  <-> exists u, In u updates /\ unversioned u.
Proof.
  induction updates as [|u updates IH]; cbn [map update_strings].
  - split; [discriminate|]. intros (u & [] & _).
  - destruct (unversioned_dec u) as [Hu|Hu].
    + destruct (versionOrUpdate_unversioned u Hu) as [-> _].
      destruct u as [s|version]; [contradiction|].
      split; [|reflexivity]. intros _. exists (LifecycleService.UpdateObject version).
      split; [now left|exact Hu].
    + rewrite (versionOrUpdate_versioned u Hu).
      destruct (update_strings (map LifecycleRequests.versionOrUpdate updates))
        as [strings|]; cbn [option_map].
      * split; [discriminate|]. intros (v & [<-|Hin] & Hv); [contradiction|].
        assert (H : Some strings = None) by (apply IH; eauto).
        discriminate H.
      * split; [|reflexivity]. intros _.
        destruct (proj1 IH eq_refl) as (v & Hin & Hv). exists v.
        split; [now right|exact Hv].
Qed.

Lemma update_strings_extracted (updates : list LifecycleService.Update) strings :
  update_strings (map LifecycleRequests.versionOrUpdate updates) = Some strings ->
  strings = map LifecycleService.extractVersionFromUpdate updates.
Proof.
  revert strings. induction updates as [|u updates IH]; intros strings;
    cbn [map update_strings].
  - now intros [= <-].
  - destruct (unversioned_dec u) as [Hu|Hu].
    + destruct (versionOrUpdate_unversioned u Hu) as [-> _].
      destruct u as [s|version]; [contradiction|discriminate].
    + rewrite (versionOrUpdate_versioned u Hu).
      destruct (update_strings (map LifecycleRequests.versionOrUpdate updates))
        as [rest|]; cbn [option_map]; [|discriminate].
      intros [= <-]. now rewrite (IH rest eq_refl).
Qed.

(** The cluster version the service maps: the desired version is the
    current version, neither the version nor the channel is empty, the
    channel decides on extended update support, and there is no support
    date.  An available update that has a version is replaced by its
    version, the string the issue detection extracts from it; an update
    object without a version stays the object it is, where the issue
    detection reads the empty string.  The result is the
    [ClusterVersion] its type declares exactly when no available update
    is such an object, and its available updates are then the versions
    the issue detection extracts from the same updates. *)
Theorem mapped_cluster_version :
  forall data,
    let mapped := LifecycleRequests.mapToClusterVersion data in
    let updates := LifecycleRequests.availableUpdates data in
    LifecycleRequests.mcv_desiredVersion mapped
    = LifecycleRequests.mcv_currentVersion mapped
    /\ LifecycleRequests.mcv_currentVersion mapped <> ""
    /\ LifecycleRequests.mcv_channel mapped <> ""
    /\ LifecycleRequests.mcv_isEUS mapped
       = Js.includes (LifecycleRequests.mcv_channel mapped) "eus"
    /\ LifecycleRequests.mcv_maintenanceSupportEndsAt mapped = None
    /\ LifecycleRequests.mcv_availableUpdates mapped
       = map LifecycleRequests.versionOrUpdate updates
    /\ (forall u,
           (unversioned u ->
            LifecycleRequests.versionOrUpdate u = u
            /\ LifecycleService.extractVersionFromUpdate u = "")
           /\ (~ unversioned u ->
               LifecycleRequests.versionOrUpdate u
               = LifecycleService.UpdateString
                   (LifecycleService.extractVersionFromUpdate u)))
    /\ (asClusterVersion mapped = None
        <-> exists u, In u updates /\ unversioned u)
    /\ forall cluster,
         asClusterVersion mapped = Some cluster ->
         cv_availableUpdates cluster
         = map LifecycleService.extractVersionFromUpdate updates
         /\ nth_error (cv_availableUpdates cluster) 0
            = option_map LifecycleService.extractVersionFromUpdate
                (nth_error updates 0)
         /\ cv_desiredVersion cluster = cv_currentVersion cluster
         /\ cv_isEUS cluster = Js.includes (cv_channel cluster) "eus"
         /\ cv_maintenanceSupportEndsAt cluster = None.
Proof.
  intros data. cbv zeta.
  assert (Hupdates :
    LifecycleRequests.mcv_availableUpdates
      (LifecycleRequests.mapToClusterVersion data)
    = map LifecycleRequests.versionOrUpdate
        (LifecycleRequests.availableUpdates data)).
  { unfold LifecycleRequests.mapToClusterVersion,
      LifecycleRequests.availableUpdates. cbv zeta.
    cbn [LifecycleRequests.mcv_availableUpdates].
    now destruct (OLMClient.chain _ LifecycleRequests.cvs_availableUpdates). }
  split; [apply or_string_twice|].
  split; [apply or_string_nonempty; discriminate|].
  split; [apply or_string_nonempty; discriminate|].
  split; [reflexivity|]. split; [reflexivity|]. split; [exact Hupdates|].
  split.
  { intros u. split; [apply versionOrUpdate_unversioned
                     |apply versionOrUpdate_versioned]. }
  unfold asClusterVersion. rewrite Hupdates. split.
  - rewrite <- update_strings_none.
    destruct (update_strings _); cbn [option_map]; split; congruence.
  - intros cluster.
    destruct (update_strings _) as [strings|] eqn:Hstrings; cbn [option_map];
      [|discriminate].
    intros [= <-]. cbn [cv_availableUpdates cv_desiredVersion cv_currentVersion
                        cv_isEUS cv_channel cv_maintenanceSupportEndsAt].
    apply update_strings_extracted in Hstrings. subst strings.
    split; [reflexivity|].
    split; [now destruct (LifecycleRequests.availableUpdates data)|].
    split; [apply or_string_twice|]. split; reflexivity.
Qed.

(** ** The lifecycle cache *)

Lemma get_set_same key value entries :
  LifecycleCache.get key (LifecycleCache.set key value entries) = Some value.
Proof.
  unfold LifecycleCache.get.
  induction entries as [|[k v] entries IH]; cbn [LifecycleCache.set find fst].
  - now rewrite String.eqb_refl.
  - destruct (String.eqb k key) eqn:Hk; cbn [find fst].
    + now rewrite String.eqb_refl.
    + now rewrite Hk.
Qed.

Lemma get_set_other key key' value entries :
  key' <> key ->
  LifecycleCache.get key' (LifecycleCache.set key value entries)
  = LifecycleCache.get key' entries.
Proof.
  intros Hne. unfold LifecycleCache.get.
  assert (Hkey : String.eqb key key' = false)
    by (apply String.eqb_neq; congruence).
  induction entries as [|[k v] entries IH]; cbn [LifecycleCache.set find fst].
  - now rewrite Hkey.
  - destruct (String.eqb k key) eqn:Hk; cbn [find fst].
    + apply String.eqb_eq in Hk. subst k. now rewrite Hkey.
    + destruct (String.eqb k key'); [reflexivity|exact IH].
Qed.

Lemma cache_key_injective (name name' version version' : string) :
  has_char ":" name = false -> has_char ":" name' = false ->
  (name ++ ":" ++ version)%string = (name' ++ ":" ++ version')%string ->
  name = name' /\ version = version'.
Proof.
  revert name'. induction name as [|c name IH]; intros [|c' name'] Hn Hn' Heq;
    cbn [append has_char] in *.
  - injection Heq as <-. auto.
  - injection Heq as <- _. discriminate Hn'.
  - injection Heq as -> _. discriminate Hn.
  - injection Heq as <- Heq.
    apply orb_false_iff in Hn, Hn'. destruct Hn as [_ Hn], Hn' as [_ Hn'].
    destruct (IH name' Hn Hn' Heq) as [-> ->]. auto.
Qed.

Lemma getOperatorLifecycleInfo_cases now name version state :
  (exists cached,
      LifecycleCache.get (name ++ ":" ++ version)
        (LifecycleCache.lifecycleCache state) = Some cached
      /\ LifecycleCache.getOperatorLifecycleInfo now name version state
         = (cached, state))
  \/ LifecycleCache.getOperatorLifecycleInfo now name version state
     = (LifecycleService.getDefaultLifecycleInfo name version,
        {| LifecycleCache.lifecycleCache :=
             LifecycleCache.set (name ++ ":" ++ version)
               (LifecycleService.getDefaultLifecycleInfo name version)
               (LifecycleCache.lifecycleCache state);
           LifecycleCache.lastCacheUpdate := now |}).
Proof.
  unfold LifecycleCache.getOperatorLifecycleInfo,
    LifecycleCache.fetchLifecycleInfoFromAPI. cbv zeta.
  destruct (LifecycleCache.get _ _) as [cached|]; [|now right].
  destruct (now - LifecycleCache.lastCacheUpdate state <? LifecycleCache.cacheExpiry);
    [left; eauto|now right].
Qed.

(** The cache never changes an answer for a name without a colon:
    from a state in which every entry is the default record of its key,
    [getOperatorLifecycleInfo] returns what [getDefaultLifecycleInfo]
    returns, whatever the time and the age of the entry, and leaves such
    a state.  Whatever the name, the answer is a default record.  The
    key joins name and version with a colon, so a name with a colon can
    be answered with the record of another operator. *)
Theorem lifecycle_cache_is_transparent :
  coherent LifecycleCache.initial
  /\ (forall now name version state,
         has_char ":" name = false ->
         coherent state ->
         fst (LifecycleCache.getOperatorLifecycleInfo now name version state)
         = LifecycleService.getDefaultLifecycleInfo name version
         /\ coherent
              (snd (LifecycleCache.getOperatorLifecycleInfo now name version state)))
  /\ (forall now name version state,
         defaults_only state ->
         default_info
           (fst (LifecycleCache.getOperatorLifecycleInfo now name version state))
         /\ defaults_only
              (snd (LifecycleCache.getOperatorLifecycleInfo now name version state)))
  /\ lc_operatorName
       (fst (LifecycleCache.getOperatorLifecycleInfo 0 "a" "b:c"
               (snd (LifecycleCache.getOperatorLifecycleInfo 0 "a:b" "c"
                       LifecycleCache.initial))))
     = "a:b".
Proof.
  split; [|split; [|split]].
  - intros name version info _ H. discriminate H.
  - intros now name version state Hname Hstate.
    destruct (getOperatorLifecycleInfo_cases now name version state)
      as [(cached & Hget & ->)| ->]; cbn [fst snd].
    + split; [|exact Hstate]. now apply Hstate.
    + split; [reflexivity|].
      intros name' version' info Hname' Hget.
      cbn [LifecycleCache.lifecycleCache] in Hget.
      destruct (String.eqb_spec (name' ++ ":" ++ version') (name ++ ":" ++ version))
        as [Hkey|Hkey].
      * rewrite Hkey, get_set_same in Hget. injection Hget as <-.
        destruct (cache_key_injective _ _ _ _ Hname' Hname Hkey) as [-> ->].
        reflexivity.
      * rewrite get_set_other in Hget by exact Hkey. now apply Hstate.
  - intros now name version state Hstate.
    destruct (getOperatorLifecycleInfo_cases now name version state)
      as [(cached & Hget & ->)| ->]; cbn [fst snd].
    + split; [|exact Hstate]. now apply (Hstate _ _ Hget).
    + split; [now exists name, version|].
      intros key info Hget. cbn [LifecycleCache.lifecycleCache] in Hget.
      destruct (String.eqb_spec key (name ++ ":" ++ version)) as [Hkey|Hkey].
      * rewrite Hkey, get_set_same in Hget. injection Hget as <-.
        now exists name, version.
      * rewrite get_set_other in Hget by exact Hkey. now apply (Hstate _ _ Hget).
  - reflexivity.
Qed.

(** ** The lifecycle metadata as the service provides it *)

Lemma default_info_fields info :
  default_info info ->
  lc_supportPhase info = FULL_SUPPORT
  /\ lc_lifecycleModel info <> MODEL_UNKNOWN
  /\ lc_fullSupportEndsAt info = None
  /\ lc_maintenanceSupportEndsAt info = None
  /\ lc_eolAt info = None
  /\ lc_minOCPVersion info = None
  /\ lc_maxOCPVersion info = None.
Proof.
  intros (name & version & ->). unfold LifecycleService.getDefaultLifecycleInfo.
  cbv zeta. cbn [lc_supportPhase lc_lifecycleModel lc_fullSupportEndsAt
                 lc_maintenanceSupportEndsAt lc_eolAt lc_minOCPVersion
                 lc_maxOCPVersion].
  repeat split.
  destruct (existsb _ LifecycleService.platformAlignedOperators); [discriminate|].
  destruct (existsb _ LifecycleService.rollingReleaseOperators); discriminate.
Qed.

Lemma default_issues now installation lifecycleInfo channel updates :
  default_info lifecycleInfo ->
  LifecycleService.detectUpgradeIssues now installation lifecycleInfo channel updates
  = Ok (if chan_deprecated channel
        then [LifecycleService.staleChannelIssue now installation channel]
        else []).
Proof.
  intros Hinfo.
  destruct (default_info_fields _ Hinfo) as (Hphase & _ & _ & _ & _ & _ & Hmax).
  unfold LifecycleService.detectUpgradeIssues. cbv zeta.
  rewrite Hphase, Hmax. cbn [SupportPhase_eqb].
  now destruct (chan_deprecated channel).
Qed.

Lemma assembled_with_default lookup op :
  provides_defaults lookup -> assembled_with lookup op ->
  default_info (op_lifecycleInfo op)
  /\ (forall i, In i (op_issues op) ->
                issue_type i = STALE_CHANNEL /\ issue_severity i = WARNING)
  /\ (List.length (op_issues op) <= 1)%nat
  /\ op_healthStatus op <> Critical.
Proof.
  intros Hlookup (now & installation & channels & updates & Hst).
  unfold LifecycleService.getOperatorStatus in Hst. cbv zeta in Hst.
  destruct (LifecycleService.detectAvailableUpgrades _ _ _ _); [|discriminate].
  rewrite (default_issues _ _ _ _ _ (Hlookup _ _)) in Hst.
  apply Some_inj in Hst. subst op.
  cbn [op_lifecycleInfo op_issues op_healthStatus].
  split; [apply Hlookup|].
  match goal with
  | |- context [chan_deprecated ?c] => destruct (chan_deprecated c)
  end; cbn.
  - split; [intros i [<-|[]]; split; reflexivity|]. split; [lia|discriminate].
  - split; [intros i []|]. split; [lia|discriminate].
Qed.

Lemma no_maintenance_dates cluster operators lookup :
  provides_defaults lookup ->
  cv_maintenanceSupportEndsAt cluster = None ->
  (forall op, In op operators -> assembled_with lookup op) ->
  maintenance_dates cluster operators = [].
Proof.
  intros Hlookup Hcluster Hops. unfold maintenance_dates. rewrite Hcluster.
  cbn [date_of app].
  induction operators as [|op ops IH]; [reflexivity|]. cbn [flat_map].
  destruct (assembled_with_default lookup op Hlookup (Hops op (or_introl eq_refl)))
    as (Hinfo & _).
  destruct (default_info_fields _ Hinfo) as (_ & _ & _ & -> & _).
  cbn [date_of app]. apply IH. intros op' Hin. apply Hops. now right.
Qed.

(** With lifecycle metadata as the service provides it, the only issue
    ever detected is the stale-channel warning: no operator and no
    platform status is critical, no support expiry is known, the
    critical-issues path is never generated, and the only window ever
    recommended is the regular one, at medium priority. *)
Theorem placeholder_metadata_never_critical :
  forall lookup,
    provides_defaults lookup ->
    (forall op,
        assembled_with lookup op ->
        (forall i, In i (op_issues op) ->
                   issue_type i = STALE_CHANNEL /\ issue_severity i = WARNING)
        /\ (List.length (op_issues op) <= 1)%nat
        /\ op_healthStatus op <> Critical
        /\ lc_supportPhase (op_lifecycleInfo op) = FULL_SUPPORT
        /\ lc_maxOCPVersion (op_lifecycleInfo op) = None)
    /\ forall now am cluster operators paths,
         cv_maintenanceSupportEndsAt cluster = None ->
         (forall op, In op operators -> assembled_with lookup op) ->
         let ps := LifecycleService.getPlatformStatus now cluster operators in
         ps_criticalIssues ps = 0
         /\ ps_overallHealth ps <> Critical
         /\ ps_supportExpiresIn ps = None
         /\ generateCriticalIssuePath now am ps = None
         /\ (generateUpgradePaths now am ps = Ok paths ->
             forall w, In w (generateMaintenanceWindows now ps paths) ->
                       win_id w = "regular-maintenance" /\ win_priority w = Medium).
Proof.
  intros lookup Hlookup. split.
  - intros op Hop.
    destruct (assembled_with_default lookup op Hlookup Hop)
      as (Hinfo & Hissues & Hlen & Hhealth).
    destruct (default_info_fields _ Hinfo) as (Hphase & _ & _ & _ & _ & _ & Hmax).
    auto.
  - intros now am cluster operators paths Hcluster Hops. cbv zeta.
    assert (Hnone : ~ exists op, In op operators
                                 /\ has_severity CRITICAL (op_issues op)).
    { intros (op & Hop & i & Hi & Hsev).
      destruct (assembled_with_default lookup op Hlookup (Hops op Hop))
        as (_ & Hissues & _).
      destruct (Hissues i Hi) as [_ Hw]. congruence. }
    destruct (platform_counts now cluster operators) as [Hc _].
    assert (Hzero : ps_criticalIssues
                      (LifecycleService.getPlatformStatus now cluster operators) = 0).
    { rewrite Hc.
      destruct (Z.eq_dec (Z.of_nat (List.length (filter is_critical
                                                   (all_issues operators)))) 0)
        as [Hz|Hz]; [exact Hz|].
      exfalso. apply Hnone. apply critical_issue_somewhere. lia. }
    assert (Hexpiry : ps_supportExpiresIn
                        (LifecycleService.getPlatformStatus now cluster operators)
                      = None).
    { cbn [LifecycleService.getPlatformStatus ps_supportExpiresIn].
      apply calculateSupportExpiry_none.
      now apply (no_maintenance_dates cluster operators lookup). }
    split; [exact Hzero|]. split; [|split; [exact Hexpiry|split]].
    + rewrite (platform_health now cluster operators).
      rewrite Hc in Hzero. rewrite Hzero. cbn.
      destruct (0 <? _); discriminate.
    + destruct (generateCriticalIssuePath now am _) eqn:Hpath; [|reflexivity].
      exfalso. apply Hnone.
      apply (critical_path_exists now am
               (LifecycleService.getPlatformStatus now cluster operators)).
      congruence.
    + intros _ w Hin.
      unfold generateMaintenanceWindows in Hin. cbv zeta in Hin.
      rewrite Hzero, Hexpiry in Hin. cbn [Z.ltb Z.compare Js.truthy_opt_number andb]
        in Hin.
      destruct (find_path "balanced-path" paths); cbn [app In] in Hin.
      * destruct Hin as [<-|[]]. split; reflexivity.
      * contradiction.
Qed.

(** ** The operator status request *)

Lemma requested_status_assembled now parseDate lookup subscriptionOf
    packageManifestOf clusterVersion name namespace st :
  LifecycleRequests.getOperatorStatus now parseDate lookup subscriptionOf
    packageManifestOf clusterVersion name namespace = Some st ->
  assembled st.
Proof.
  unfold LifecycleRequests.getOperatorStatus.
  destruct (OLMClient.getOperatorSubscription _ _ _ _) as [[installation|]|];
    [|discriminate..].
  destruct (OLMClient.getOperatorChannels _ _ _ _) as [channels|]; [|discriminate].
  destruct (OLMClient.getClusterVersion clusterVersion) as [data|]; [|discriminate].
  intros H. exists now, lookup, installation, channels,
    (LifecycleRequests.availableUpdates data). exact H.
Qed.

Lemma notFound_iff (statusCode : option Z) :
  OLMClient.notFound statusCode = true <-> statusCode = Some 404.
Proof.
  destruct statusCode as [code|]; cbn; [|split; discriminate].
  rewrite Z.eqb_eq. split; congruence.
Qed.

Lemma operator_status_fields now lookup installation channels updates st :
  LifecycleService.getOperatorStatus now lookup installation channels updates
  = Some st ->
  op_installation st = installation /\ op_availableChannels st = channels.
Proof.
  unfold LifecycleService.getOperatorStatus. cbv zeta.
  destruct (LifecycleService.detectAvailableUpgrades _ _ _ _); [|discriminate].
  destruct (LifecycleService.detectUpgradeIssues _ _ _ _ _); [|discriminate].
  intros H. apply Some_inj in H. subst st. split; reflexivity.
Qed.

Lemma request_on_subscription now parseDate lookup subscriptionOf
    packageManifestOf clusterVersion name namespace sub :
  subscriptionOf name namespace = OLMClient.Body sub ->
  LifecycleRequests.getOperatorStatus now parseDate lookup subscriptionOf
    packageManifestOf clusterVersion name namespace
  = match OLMClient.getOperatorChannels (OLMClient.sub_name sub)
            (inst_catalogSource
               (OLMClient.mapSubscriptionToInstallation parseDate sub))
            (inst_catalogNamespace
               (OLMClient.mapSubscriptionToInstallation parseDate sub))
            (manifest_of parseDate packageManifestOf sub) with
    | Throw _ => None
    | Ok channels =>
        match clusterVersion with
        | OLMClient.Body data =>
            LifecycleService.getOperatorStatus now lookup
              (OLMClient.mapSubscriptionToInstallation parseDate sub) channels
              (LifecycleRequests.availableUpdates data)
        | OLMClient.Rejected _ => None
        end
    end.
Proof.
  intros Hsub. unfold LifecycleRequests.getOperatorStatus, manifest_of.
  rewrite Hsub. cbn [OLMClient.getOperatorSubscription].
  cbn [OLMClient.mapSubscriptionToInstallation inst_name].
  destruct (OLMClient.getOperatorChannels _ _ _ _); [|reflexivity].
  now destruct clusterVersion.
Qed.

Lemma Body_inj {A} (x y : A) : OLMClient.Body x = OLMClient.Body y -> x = y.
Proof. now intros [= ->]. Qed.

Lemma status_built now lookup installation channels updates :
  exists st,
    LifecycleService.getOperatorStatus now lookup installation channels updates
    = Some st.
Proof.
  destruct (detection_returns now lookup installation
              (lookup (inst_name installation) (inst_currentVersion installation))
              (Samples.channel "" "" false) channels updates) as (_ & _ & H).
  exact H.
Qed.

(** The status of an operator is built exactly when its subscription
    and the cluster version are fetched and the package manifest is
    fetched or not found; any other failure of a fetch gives [null], and
    nothing else does.  The package manifest asked for is the one under
    the name of the subscription: no other manifest has any influence.
    A status that is built is built by the lifecycle service from the
    mapped subscription; without a package manifest it has no channel
    and no upgrade. *)
Theorem operator_status_request :
  forall now parseDate lookup subscriptionOf packageManifestOf clusterVersion
         name namespace,
    let request :=
      LifecycleRequests.getOperatorStatus now parseDate lookup subscriptionOf
        packageManifestOf clusterVersion name namespace in
    ((exists st, request = Some st)
     <-> exists sub data,
           subscriptionOf name namespace = OLMClient.Body sub
           /\ clusterVersion = OLMClient.Body data
           /\ forall statusCode,
                manifest_of parseDate packageManifestOf sub
                = OLMClient.Rejected statusCode ->
                statusCode = Some 404)
    /\ (forall sub st,
           subscriptionOf name namespace = OLMClient.Body sub ->
           request = Some st ->
           assembled st
           /\ op_installation st
              = OLMClient.mapSubscriptionToInstallation parseDate sub
           /\ (forall statusCode,
                  manifest_of parseDate packageManifestOf sub
                  = OLMClient.Rejected statusCode ->
                  op_availableChannels st = [] /\ op_availableUpgrades st = []))
    /\ forall sub otherManifestOf,
         subscriptionOf name namespace = OLMClient.Body sub ->
         manifest_of parseDate otherManifestOf sub
         = manifest_of parseDate packageManifestOf sub ->
         LifecycleRequests.getOperatorStatus now parseDate lookup subscriptionOf
           otherManifestOf clusterVersion name namespace
         = request.
Proof.
  intros now parseDate lookup subscriptionOf packageManifestOf clusterVersion
    name namespace. cbv zeta.
  split; [|split].
  - split.
    + intros (st & Hst).
      destruct (subscriptionOf name namespace) as [sub|code] eqn:Hsub.
      * rewrite (request_on_subscription _ _ _ _ _ _ _ _ _ Hsub) in Hst.
        exists sub.
        destruct (manifest_of parseDate packageManifestOf sub) as [pkg|code]
          eqn:Hpkg; cbn [OLMClient.getOperatorChannels] in Hst.
        -- destruct clusterVersion as [data|code]; [|discriminate Hst].
           exists data. split; [reflexivity|]. split; [reflexivity|].
           intros statusCode H. discriminate H.
        -- destruct (OLMClient.notFound code) eqn:Hnf; [|discriminate Hst].
           destruct clusterVersion as [data|code']; [|discriminate Hst].
           exists data. split; [reflexivity|]. split; [reflexivity|].
           intros statusCode H. injection H as <-. now apply notFound_iff.
      * unfold LifecycleRequests.getOperatorStatus in Hst. rewrite Hsub in Hst.
        cbn [OLMClient.getOperatorSubscription] in Hst.
        destruct (OLMClient.notFound code); discriminate Hst.
    + intros (sub & data & Hsub & -> & Hpkg).
      rewrite (request_on_subscription _ _ _ _ _ _ _ _ _ Hsub).
      destruct (manifest_of parseDate packageManifestOf sub) as [pkg|code];
        cbn [OLMClient.getOperatorChannels].
      * apply status_built.
      * rewrite (proj2 (notFound_iff code) (Hpkg code eq_refl)).
        apply status_built.
  - intros sub st Hsub Hst.
    rewrite (request_on_subscription _ _ _ _ _ _ _ _ _ Hsub) in Hst.
    destruct (OLMClient.getOperatorChannels _ _ _ _) as [channels|] eqn:Hchannels;
      [|discriminate Hst].
    destruct clusterVersion as [data|code]; [|discriminate Hst].
    destruct (operator_status_fields _ _ _ _ _ _ Hst) as [Hinst Hchan].
    split.
    { exists now, lookup, (OLMClient.mapSubscriptionToInstallation parseDate sub),
        channels, (LifecycleRequests.availableUpdates data). exact Hst. }
    split; [exact Hinst|].
    intros statusCode Hrejected. rewrite Hrejected in Hchannels.
    cbn [OLMClient.getOperatorChannels] in Hchannels.
    destruct (OLMClient.notFound statusCode); [|discriminate Hchannels].
    apply Ok_inj in Hchannels. subst channels.
    split; [exact Hchan|].
    unfold LifecycleService.getOperatorStatus in Hst. cbv zeta in Hst.
    change (LifecycleService.detectAvailableUpgrades now lookup
              (OLMClient.mapSubscriptionToInstallation parseDate sub) [])
      with (@Ok (list AvailableUpgrade) []) in Hst.
    destruct (LifecycleService.detectUpgradeIssues _ _ _ _ _); [|discriminate Hst].
    apply Some_inj in Hst. now subst st.
  - intros sub otherManifestOf Hsub Hsame.
    rewrite !(request_on_subscription _ _ _ _ _ _ _ _ _ Hsub).
    now rewrite Hsame.
Qed.

(** ** Concrete instances

    The theorems above that carry hypotheses, applied at concrete
    inputs on which the hypotheses hold. *)

Lemma operator_health_follows_issue_severity_witness :
  exists st,
    LifecycleService.getOperatorStatus 0 (Samples.lookup END_OF_LIFE)
      (Samples.installation "z" "1.2.0")
      [Samples.channel "stable" "z.v1.2.0" true] [] = Some st
    /\ op_healthStatus st = Critical
    /\ has_severity CRITICAL (op_issues st).
Proof.
  eexists. split; [reflexivity|].
  pose proof (operator_health_follows_issue_severity 0 (Samples.lookup END_OF_LIFE)
                (Samples.installation "z" "1.2.0")
                [Samples.channel "stable" "z.v1.2.0" true] [] _ eq_refl)
    as [Hcritical _].
  split; [reflexivity|].
  apply Hcritical. reflexivity.
Defined.

Lemma platform_step_targets_witness :
  exists path s,
    generateAggressivePath 0 Samples.addMonths Samples.blockedByCeiling
    = Ok (Some path)
    /\ In s (path_steps path)
    /\ step_type s = Cluster
    /\ step_toVersion s = Some "4.16.5"
    /\ exists earlier latest,
         cv_availableUpdates (ps_cluster Samples.blockedByCeiling)
         = earlier ++ [latest]
         /\ step_toVersion s = Some latest.
Proof.
  eexists. eexists. split; [reflexivity|].
  split; [right; right; left; reflexivity|].
  split; [reflexivity|]. split; [reflexivity|].
  apply (proj1 (platform_step_targets 0 Samples.addMonths Samples.blockedByCeiling)
           _ _ eq_refl).
  - right. right. left. reflexivity.
  - reflexivity.
Defined.

Lemma no_step_without_available_upgrade_witness :
  exists path,
    generated 0 Samples.addMonths Samples.oneWithoutUpgrade path
    /\ path_id path = "critical-issues-path"
    /\ forall s, In s (path_steps path) -> step_type s = Operator ->
                 step_target s <> "z".
Proof.
  eexists. split; [left; reflexivity|]. split; [reflexivity|].
  intros s Hin Hty.
  eapply (proj1 (proj2 (no_step_without_available_upgrade 0 Samples.addMonths
                          Samples.oneWithoutUpgrade))
            "z"); [| |exact Hin|exact Hty].
  - intros op [<-|[<-|[]]]; simpl; [reflexivity|discriminate].
  - left. reflexivity.
Defined.

Lemma generated_path_structure_witness :
  exists path,
    generateCriticalIssuePath 0 Samples.addMonths Samples.blockedByCeiling
    = Some path
    /\ map step_order (path_steps path) = [1; 2; 3]
    /\ forall k s, nth_error (path_steps path) k = Some s ->
                   step_order s = Z.of_nat k + 1.
Proof.
  eexists. split; [reflexivity|]. split; [reflexivity|].
  apply (generated_path_structure 0 Samples.addMonths Samples.blockedByCeiling).
  left. reflexivity.
Defined.

Lemma sibling_strategies_suppress_verification_only_paths_witness :
  exists path,
    generateAggressivePath 0 Samples.addMonths (Samples.patchAvailable None)
    = Ok (Some path)
    /\ exists s, In s (path_steps path) /\ step_type s <> Verification.
Proof.
  eexists. split; [reflexivity|].
  apply (sibling_strategies_suppress_verification_only_paths 0 Samples.addMonths
           (Samples.patchAvailable None)).
  right. left. reflexivity.
Defined.

Lemma conservative_path_has_no_platform_step_witness :
  exists path,
    generateConservativePath 0 Samples.addMonths Samples.oneWithoutUpgrade
    = Ok (Some path)
    /\ forall s, In s (path_steps path) -> step_type s <> Cluster.
Proof.
  eexists. split; [reflexivity|].
  intros s.
  apply (conservative_path_has_no_platform_step 0 Samples.addMonths
           Samples.oneWithoutUpgrade).
  reflexivity.
Defined.

Lemma critical_path_covers_critical_components_witness :
  exists path s,
    generateCriticalIssuePath 0 Samples.addMonths Samples.blockedByCeiling
    = Some path
    /\ In s (path_steps path)
    /\ step_type s = Operator
    /\ step_target s = "y"
    /\ step_toVersion s = Some "2.0.0".
Proof.
  destruct (critical_path_covers_critical_components 0 Samples.addMonths
              Samples.blockedByCeiling _
              (Samples.operator "y" "1.2.0"
                 [Samples.upgrade "y" "1.2.0" "2.0.0" "stable"]
                 [Samples.issue "y" "-version-ceiling" CRITICAL VERSION_CEILING])
              (Samples.upgrade "y" "1.2.0" "2.0.0" "stable") []
              eq_refl (or_introl eq_refl)
              (ex_intro _ _ (conj (or_introl eq_refl) eq_refl))
              eq_refl) as (s & Hs).
  eexists. exists s. split; [reflexivity|exact Hs].
Defined.

Lemma lifecycle_window_for_nonzero_days_witness :
  exists w,
    In w (generateMaintenanceWindows 0 Samples.blockedByCeiling
            Samples.blockedByCeilingPaths)
    /\ win_id w = "lifecycle-maintenance"
    /\ win_priority w = High
    /\ win_recommendedDate w = 1209600000
    /\ win_reason w = "Platform support expires in 45 days".
Proof.
  edestruct (lifecycle_window_for_nonzero_days 0 Samples.blockedByCeiling
               Samples.blockedByCeilingPaths 45)
    as (w & Hin & Hid & Hprio & Hdate & Hreason & _);
    [reflexivity|discriminate|reflexivity|reflexivity|].
  exists w. repeat split; assumption.
Defined.

Lemma generation_and_detection_deterministic_witness :
  exists issues i,
    LifecycleService.detectUpgradeIssues 0 (Samples.installation "z" "z.v1.2.0")
      (Samples.lifecycle "z" "z.v1.2.0" END_OF_LIFE None)
      (Samples.channel "stable" "z.v1.2.0" false) [] = Ok issues
    /\ In i issues
    /\ issue_id i = "z-eol"
    /\ issue_operatorName i = "z"
    /\ exists suffix,
         issue_suffix (issue_type i) (issue_severity i) = Some suffix
         /\ issue_id i = ("z" ++ suffix)%string.
Proof.
  eexists. eexists. split; [reflexivity|].
  split; [left; reflexivity|]. split; [reflexivity|].
  apply (proj2 (proj2 generation_and_detection_deterministic) 0
           (Samples.installation "z" "z.v1.2.0")
           (Samples.lifecycle "z" "z.v1.2.0" END_OF_LIFE None)
           (Samples.channel "stable" "z.v1.2.0" false) [] _ _ eq_refl).
  left. reflexivity.
Defined.

Lemma malformed_versions_never_raise_witness :
  exists st,
    LifecycleService.getOperatorStatus 0 LifecycleService.getDefaultLifecycleInfo
      (Samples.installation "w" "w.v1.2.0")
      [Samples.channel "stable" "w.v2.0.0" true;
       Samples.channel "fast" "w.v2.1.0" false;
       Samples.channel "nightly" "latest" false] [] = Some st
    /\ map up_targetVersion (op_availableUpgrades st) = ["w.v2.0.0"; "w.v2.1.0"]
    /\ returns (generateUpgradePaths 0 Samples.addMonths
                  (LifecycleService.getPlatformStatus 0 (Samples.cluster []) [st])).
Proof.
  eexists. split; [reflexivity|]. split; [reflexivity|].
  apply (proj2 (proj2 (malformed_versions_never_raise 0
                         LifecycleService.getDefaultLifecycleInfo
                         Samples.addMonths))).
  intros op [<-|[]].
  exists 0, LifecycleService.getDefaultLifecycleInfo,
    (Samples.installation "w" "w.v1.2.0"),
    [Samples.channel "stable" "w.v2.0.0" true;
     Samples.channel "fast" "w.v2.1.0" false;
     Samples.channel "nightly" "latest" false], [].
  reflexivity.
Defined.

Lemma unparsable_versions_policy_witness :
  exists issues i,
    LifecycleService.detectUpgradeIssues 0 (Samples.installation "y" "y.v1.2.0")
      (Samples.lifecycle "y" "y.v1.2.0" FULL_SUPPORT (Some "4.16.0"))
      (Samples.channel "stable" "y.v1.2.0" false)
      [LifecycleService.UpdateString "4.17.1"] = Ok issues
    /\ In i issues
    /\ issue_type i = VERSION_CEILING
    /\ Semver.valid "4.17.1" = true
    /\ Semver.valid "4.16.0" = true
    /\ Semver.gt "4.17.1" "4.16.0" = Ok true.
Proof.
  eexists. eexists. split; [reflexivity|].
  split; [left; reflexivity|]. split; [reflexivity|].
  destruct (proj1 unparsable_versions_policy 0 (Samples.installation "y" "y.v1.2.0")
              (Samples.lifecycle "y" "y.v1.2.0" FULL_SUPPORT (Some "4.16.0"))
              (Samples.channel "stable" "y.v1.2.0" false)
              [LifecycleService.UpdateString "4.17.1"] _ _
              eq_refl (or_introl eq_refl) eq_refl)
    as (maxOCPVersion & nextUpdate & later & Hmax & Hupdates & Hvalid1 & Hvalid2 & Hgt).
  injection Hmax as <-. injection Hupdates as <- <-.
  repeat split; assumption.
Defined.

Lemma recommended_paths_by_id_witness :
  map path_id Samples.blockedByCeilingPaths
  = ["critical-issues-path"; "aggressive-path"; "balanced-path"]
  /\ Ok (find_path "balanced-path" Samples.blockedByCeilingPaths)
     = generateBalancedPath 0 Samples.addMonths Samples.blockedByCeiling.
Proof.
  split; [reflexivity|].
  exact (proj2 (proj2 (proj2 (proj2
           (recommended_paths_by_id 0 Samples.addMonths Samples.blockedByCeiling
              Samples.blockedByCeilingPaths eq_refl))))).
Defined.

Lemma strategies_are_nested_witness :
  exists conservative balanced,
    find_path "conservative-path" Samples.oneWithoutUpgradePaths = Some conservative
    /\ extractAffectedComponents conservative = ["x"]
    /\ find_path "balanced-path" Samples.oneWithoutUpgradePaths = Some balanced
    /\ incl (extractAffectedComponents conservative)
            (extractAffectedComponents balanced).
Proof.
  eexists.
  destruct (proj1 (strategies_are_nested 0 Samples.addMonths Samples.oneWithoutUpgrade
                     Samples.oneWithoutUpgradePaths eq_refl) _ eq_refl)
    as (balanced & Hfind & Hincl).
  exists balanced. split; [reflexivity|]. split; [reflexivity|].
  split; assumption.
Defined.

Lemma estimated_duration_of_generated_path_witness :
  exists path,
    generateCriticalIssuePath 0 Samples.addMonths Samples.blockedByCeiling = Some path
    /\ count_type Operator (path_steps path) = 1
    /\ count_type Cluster (path_steps path) = 1
    /\ path_estimatedDuration path = "2h 5m"
    /\ path_estimatedDuration path = rendered_minutes (15 + 20 * 1 + 90 * 1).
Proof.
  eexists. split; [reflexivity|]. split; [reflexivity|]. split; [reflexivity|].
  split; [reflexivity|].
  refine (proj1 (proj2 (estimated_duration_of_generated_path 0 Samples.addMonths
                          Samples.blockedByCeiling _ (or_introl eq_refl) _))).
  unfold array. cbn [List.length path_steps]. reflexivity.
Defined.

Lemma aggressive_path_takes_greatest_upgrade_witness :
  exists path s,
    generateAggressivePath 0 Samples.addMonths Samples.threeMagnitudesPlatform
    = Ok (Some path)
    /\ In s (path_steps path)
    /\ step_type s = Operator
    /\ step_toVersion s = Some "m.v2.0.0"
    /\ exists op u,
         In op (ps_operators Samples.threeMagnitudesPlatform)
         /\ In u (op_availableUpgrades op)
         /\ step_toVersion s = Some (up_targetVersion u)
         /\ forall x, In x (op_availableUpgrades op) ->
              Semver.gt (cleanVersion (up_targetVersion x))
                (cleanVersion (up_targetVersion u)) = Ok false.
Proof.
  eexists. eexists. split; [reflexivity|].
  split; [right; left; reflexivity|]. split; [reflexivity|]. split; [reflexivity|].
  edestruct (aggressive_path_takes_greatest_upgrade 0 Samples.addMonths
               Samples.threeMagnitudesPlatform)
    as (op & u & Hop & Hu & _ & Hto & _ & Hmax).
  - intros op [<-|[]] u [<-|[<-|[<-|[]]]]; split; reflexivity.
  - reflexivity.
  - right. left. reflexivity.
  - reflexivity.
  - exists op, u. repeat split; assumption.
Defined.

Lemma conservative_choice_by_magnitude_witness :
  exists u,
    findConservativeUpgrade Samples.threeMagnitudes = Ok (Some u)
    /\ up_targetVersion u = "m.v1.2.7"
    /\ Semver.diff (cleanVersion "m.v1.2.0") (cleanVersion (up_targetVersion u))
       = Ok (Some Semver.Patch).
Proof.
  assert (Hcmp : comparable_upgrades Samples.threeMagnitudes)
    by (intros u [<-|[<-|[<-|[]]]]; split; reflexivity).
  assert (Hnewer :
    forall x, In x (op_availableUpgrades Samples.threeMagnitudes) ->
      Semver.gt (cleanVersion (up_targetVersion x))
        (cleanVersion (inst_currentVersion
                         (op_installation Samples.threeMagnitudes)))
      = Ok true)
    by (intros x [<-|[<-|[<-|[]]]]; reflexivity).
  eexists. split; [reflexivity|]. split; [reflexivity|].
  apply (proj1 (conservative_choice_by_magnitude Samples.threeMagnitudes _
                  Hcmp Hnewer eq_refl)).
  eexists. split; [right; right; left; reflexivity|reflexivity].
Defined.

Lemma immediate_window_iff_critical_issue_witness :
  ps_criticalIssues Samples.criticalPlatform = 1
  /\ In "immediate-window"
       (map win_id (generateMaintenanceWindows 0 Samples.criticalPlatform
                      Samples.criticalPlatformPaths)).
Proof.
  split; [reflexivity|].
  apply (proj2 (proj2 (immediate_window_iff_critical_issue 0
                         (Samples.cluster ["4.16.1"])
                         [Samples.operator "y" "1.2.0"
                            [Samples.upgrade "y" "1.2.0" "2.0.0" "stable"]
                            [Samples.issue "y" "-version-ceiling" CRITICAL
                               VERSION_CEILING]]
                         Samples.addMonths Samples.criticalPlatformPaths eq_refl))).
  reflexivity.
Defined.

Lemma detected_issues_invariants_witness :
  exists issues,
    LifecycleService.detectUpgradeIssues 0 (Samples.installation "y" "y.v1.2.0")
      (Samples.lifecycle "y" "y.v1.2.0" END_OF_LIFE (Some "4.16.0"))
      (Samples.channel "stable" "y.v1.2.0" true)
      [LifecycleService.UpdateString "4.17.1"] = Ok issues
    /\ map issue_id issues = ["y-stale-channel"; "y-eol"; "y-version-ceiling"]
    /\ NoDup (map issue_id issues)
    /\ (List.length issues <= 3)%nat.
Proof.
  eexists. split; [reflexivity|]. split; [reflexivity|].
  destruct (detected_issues_invariants 0 (Samples.installation "y" "y.v1.2.0")
              (Samples.lifecycle "y" "y.v1.2.0" END_OF_LIFE (Some "4.16.0"))
              (Samples.channel "stable" "y.v1.2.0" true)
              [LifecycleService.UpdateString "4.17.1"] _ eq_refl)
    as (Hnodup & Hlen & _).
  split; assumption.
Defined.

Lemma stale_channel_needs_listed_channel_witness :
  exists st,
    LifecycleService.getOperatorStatus 0 LifecycleService.getDefaultLifecycleInfo
      (Samples.installation "w" "w.v1.2.0")
      [Samples.channel "fast" "w.v1.3.0" true] [] = Some st
    /\ subscribed (Samples.installation "w" "w.v1.2.0")
         [Samples.channel "fast" "w.v1.3.0" true] = None
    /\ op_issues st = []
    /\ chan_name (op_currentChannel st) = "stable"
    /\ chan_currentCSV (op_currentChannel st) = "w.v1.2.0"
    /\ chan_deprecated (op_currentChannel st) = false.
Proof.
  eexists. split; [reflexivity|]. split; [reflexivity|]. split; [reflexivity|].
  exact (proj2 (proj2 (stale_channel_needs_listed_channel 0
                         LifecycleService.getDefaultLifecycleInfo
                         (Samples.installation "w" "w.v1.2.0")
                         [Samples.channel "fast" "w.v1.3.0" true] [] _ eq_refl))
           eq_refl).
Defined.

Lemma deprecated_channels_carry_their_message_witness :
  exists channels c,
    OLMClient.getOperatorChannels "p" "redhat-operators" "openshift-marketplace"
      (OLMClient.Body Samples.manifest) = Ok channels
    /\ In c channels
    /\ chan_name c = "stable-1"
    /\ chan_deprecated c = true
    /\ issue_description
         (LifecycleService.staleChannelIssue 0 (Samples.installation "p" "p.v1.8.0") c)
       = "Use stable-2"
    /\ Some (issue_description
               (LifecycleService.staleChannelIssue 0
                  (Samples.installation "p" "p.v1.8.0") c))
       = chan_deprecationMessage c.
Proof.
  eexists. eexists. split; [reflexivity|]. split; [left; reflexivity|].
  split; [reflexivity|]. split; [reflexivity|]. split; [reflexivity|].
  apply (proj2 (proj2 (deprecated_channels_carry_their_message "p" "redhat-operators"
                         "openshift-marketplace" (OLMClient.Body Samples.manifest)
                         _ eq_refl) _ (or_introl eq_refl))).
  reflexivity.
Defined.

Lemma unresolved_subscription_has_no_upgrade_witness :
  inst_currentVersion
    (OLMClient.mapSubscriptionToInstallation Samples.parseDate
       Samples.pendingSubscription) = "unknown"
  /\ LifecycleService.detectAvailableUpgrades 0
       LifecycleService.getDefaultLifecycleInfo
       (OLMClient.mapSubscriptionToInstallation Samples.parseDate
          Samples.pendingSubscription)
       [Samples.channel "stable" "p.v2.1.0" false] = Ok [].
Proof.
  destruct (unresolved_subscription_has_no_upgrade Samples.parseDate
              Samples.pendingSubscription eq_refl) as [Hversion Hnone].
  split; [exact Hversion|]. apply Hnone.
Defined.

Lemma mapped_cluster_version_witness :
  (exists cluster,
      asClusterVersion
        (LifecycleRequests.mapToClusterVersion Samples.clusterVersionData)
      = Some cluster
      /\ cv_availableUpdates cluster = ["4.16.1"; "4.16.5"]
      /\ cv_isEUS cluster = true
      /\ cv_availableUpdates cluster
         = map LifecycleService.extractVersionFromUpdate
             (LifecycleRequests.availableUpdates Samples.clusterVersionData))
  /\ asClusterVersion
       (LifecycleRequests.mapToClusterVersion Samples.clusterVersionUnversioned)
     = None
  /\ LifecycleRequests.mcv_availableUpdates
       (LifecycleRequests.mapToClusterVersion Samples.clusterVersionUnversioned)
     = [ LifecycleService.UpdateString "4.16.1";
         LifecycleService.UpdateString "4.16.5";
         LifecycleService.UpdateObject None ].
Proof.
  split; [|split; [|reflexivity]].
  - eexists. split; [reflexivity|]. split; [reflexivity|]. split; [reflexivity|].
    destruct (mapped_cluster_version Samples.clusterVersionData)
      as (_ & _ & _ & _ & _ & _ & _ & _ & Htyped).
    exact (proj1 (Htyped _ eq_refl)).
  - destruct (mapped_cluster_version Samples.clusterVersionUnversioned)
      as (_ & _ & _ & _ & _ & _ & _ & Hnone & _).
    apply Hnone. exists (LifecycleService.UpdateObject None).
    split; [right; right; left; reflexivity|reflexivity].
Defined.

Lemma operator_status_request_witness :
  exists st,
    LifecycleRequests.getOperatorStatus 0 Samples.parseDate
      LifecycleService.getDefaultLifecycleInfo
      (fun _ _ => OLMClient.Body Samples.pendingSubscription)
      (fun _ _ => OLMClient.Rejected (Some 404))
      (OLMClient.Body Samples.clusterVersionData) "p" "openshift-operators"
    = Some st
    /\ assembled st
    /\ op_availableChannels st = []
    /\ op_availableUpgrades st = [].
Proof.
  destruct (operator_status_request 0 Samples.parseDate
              LifecycleService.getDefaultLifecycleInfo
              (fun _ _ => OLMClient.Body Samples.pendingSubscription)
              (fun _ _ => OLMClient.Rejected (Some 404))
              (OLMClient.Body Samples.clusterVersionData) "p"
              "openshift-operators") as (Hbuilt & Hfields & _).
  destruct (proj2 Hbuilt) as (st & Hst).
  { exists Samples.pendingSubscription, Samples.clusterVersionData.
    split; [reflexivity|]. split; [reflexivity|].
    intros statusCode H. injection H as <-. reflexivity. }
  exists st. split; [exact Hst|].
  destruct (Hfields Samples.pendingSubscription st eq_refl Hst)
    as (Hassembled & _ & Hnone).
  split; [exact Hassembled|]. exact (Hnone (Some 404) eq_refl).
Defined.

Lemma placeholder_metadata_never_critical_witness :
  exists st,
    LifecycleService.getOperatorStatus 0 LifecycleService.getDefaultLifecycleInfo
      (Samples.installation "w" "w.v1.2.0")
      [Samples.channel "stable" "w.v2.0.0" true] [] = Some st
    /\ map issue_id (op_issues st) = ["w-stale-channel"]
    /\ op_healthStatus st <> Critical
    /\ lc_supportPhase (op_lifecycleInfo st) = FULL_SUPPORT.
Proof.
  eexists. split; [reflexivity|]. split; [reflexivity|].
  destruct (proj1 (placeholder_metadata_never_critical
                     LifecycleService.getDefaultLifecycleInfo
                     (fun name version => ex_intro _ name (ex_intro _ version eq_refl)))
              _ (ex_intro _ 0
                   (ex_intro _ (Samples.installation "w" "w.v1.2.0")
                      (ex_intro _ [Samples.channel "stable" "w.v2.0.0" true]
                         (ex_intro _ [] eq_refl)))))
    as (_ & _ & Hhealth & Hphase & _).
  split; assumption.
Defined.
